(** * net-gateway-api: the ingress reconciler and its resource builder

    A shallow embedding of
      - pkg/reconciler/ingress/resources/httproute.go (the HTTPRoute builder), and
      - the ingress reconciler's converge functions (reconcileHTTPRoute,
        reconcileTLS, reconcileGatewayListeners, clearGatewayListeners, ...),
    followed by the properties the specification states about them.

    Conventions of the embedding.
      - A Go struct is a record; its fields are named [<Struct>_<Field>].
      - A Go pointer field is an [option]; a pointer receiver or argument that
        the code dereferences unconditionally is the record itself.
      - A call that can panic returns a [go_result]: indexing outside a
        slice, dereferencing a nil pointer field.
      - A Go slice is a [list]: a nil slice and an empty slice are both [[]],
        which is also how [equality.Semantic.DeepEqual] reads them.
      - A Go map is a [gmap string V]; where the code tests a map against nil
        the field is an [option (gmap string V)].
      - [string] is Rocq's string of bytes; Go's [<] and [>] on strings are the
        bytewise lexicographic order, which is [String.compare]. *)

From Stdlib Require Import ZArith String Ascii List Sorting.Sorted Permutation.
From Stdlib Require Import Structures.OrderedTypeEx.
From stdpp Require Import base option list gmap strings sorting.

Local Open Scope string_scope.
Local Open Scope Z_scope.

(* ===================================================================== *)
(** ** Go basics *)
(* ===================================================================== *)

(** [int32(x)]: conversion of a Go [int] to [int32] wraps around. *)
Definition int32 (x : Z) : Z := (x + 2 ^ 31) mod 2 ^ 32 - 2 ^ 31.

(** Go's [a > b] on strings. *)
Definition string_gt (a b : string) : bool :=
  match String.compare a b with Gt => true | _ => false end.

(** Errors.  [StatusError] is what the API machinery returns (its reason is
    what [apierrs.IsNotFound] looks at); [Errorf] is [fmt.Errorf] without a
    [%w] verb, [ErrorfW] is [fmt.Errorf] whose format ends in [%w]: it wraps
    [err].  The format string and its operands are kept apart. *)
Inductive error : Type :=
| StatusError (reason : string) (message : string)
| Errorf (format : string) (args : list string)
| ErrorfW (format : string) (args : list string) (err : error).

(** [apierrs.IsNotFound]: the reason of the status error at the end of the
    chain of wrapped errors is "NotFound". *)
Fixpoint IsNotFound (err : error) : bool :=
  match err with
  | StatusError reason _ => String.eqb reason "NotFound"
  | Errorf _ _ => false
  | ErrorfW _ _ err' => IsNotFound err'
  end.

(** An operand of a format string: a string or an error value. *)
Inductive fmt_arg : Type :=
| ArgS (s : string)
| ArgE (e : error).

(** *** strconv.Atoi, as [intstr.IntOrString.IntValue] uses it
    (a decimal number with an optional sign; 0 when the string is no number,
    the nearest bound when it is out of the range of [int]). *)
Definition digit_of (c : ascii) : option Z :=
  let n := Z.of_N (N_of_ascii c) in
  if (48 <=? n) && (n <=? 57) then Some (n - 48) else None.

Fixpoint digits (acc : Z) (s : string) : option Z :=
  match s with
  | EmptyString => Some acc
  | String c s' =>
      match digit_of c with
      | Some d => digits (10 * acc + d) s'
      | None => None
      end
  end.

Definition clamp_int (z : Z) : Z := Z.max (- 2 ^ 63) (Z.min (2 ^ 63 - 1) z).

Definition Atoi (s : string) : Z :=
  match s with
  | EmptyString => 0
  | String c s' =>
      if Ascii.eqb c "-"%char then
        match s' with
        | EmptyString => 0
        | _ => match digits 0 s' with Some z => clamp_int (- z) | None => 0 end
        end
      else if Ascii.eqb c "+"%char then
        match s' with
        | EmptyString => 0
        | _ => match digits 0 s' with Some z => clamp_int z | None => 0 end
        end
      else match digits 0 s with Some z => clamp_int z | None => 0 end
  end.

(** What a Go function does: it returns, or it panics. *)
Inductive go_result (A : Type) : Type :=
| Returns (a : A)
| Panics.
Arguments Returns {A} a.
Arguments Panics {A}.

(** *** package sort

    A [sort.Interface] over a slice of [A]: the three methods, as functions
    of the slice.  Indexing outside the slice panics. *)
Record sort_Interface (A : Type) : Type := {
  Len : list A -> nat;
  Less : list A -> nat -> nat -> go_result bool;
  Swap : list A -> nat -> nat -> go_result (list A)
}.
Arguments Len {A} _ _.
Arguments Less {A} _ _ _ _.
Arguments Swap {A} _ _ _ _.

Record StrictWeakOrder {A : Type} (less : A -> A -> bool) : Prop := {
  swo_irrefl : forall x, less x x = false;
  swo_trans : forall x y z, less x y = true -> less y z = true -> less x z = true;
  swo_incomp : forall x y z,
      less x y = false -> less y x = false ->
      less y z = false -> less z y = false ->
      less x z = false /\ less z x = false
}.

(** The interfaces [sort.Sort] is specified for: [Len] is the length of the
    slice, [Less i j] compares the elements at [i] and [j] by a strict weak
    order [lt], and [Swap i j] exchanges them. *)
Record slice_interface {A : Type} (I : sort_Interface A) (lt : A -> A -> bool)
  : Prop := {
  si_order : StrictWeakOrder lt;
  si_Len : forall h, Len I h = length h;
  si_Less : forall h i j x y,
      h !! i = Some x -> h !! j = Some y -> Less I h i j = Returns (lt x y);
  si_Swap : forall h i j x y,
      h !! i = Some x -> h !! j = Some y ->
      Swap I h i j = Returns (<[i := y]> (<[j := x]> h))
}.

(** *** The Go runtime's unspecified choices

    Two things the builder and the reconciler rely on are left open by Go:
    the order in which [range] visits a map (it differs from one execution of
    a [range] statement to the next), and the permutation [sort.Sort]
    produces (it is not stable).  A [GoRuntime] fixes both.  [mapiter] takes
    the place of the [range] statement (a path of loop indices) so that two
    executions of the same statement may visit equal maps in different
    orders.  [sort_Sort] is held to what package sort promises: on a slice
    interface the result is a permutation of the slice in which no element is
    less than an element before it. *)
Definition site := list nat.

Record GoRuntime : Type := {
  mapiter : forall {V : Type}, site -> gmap string V -> list (string * V);
  mapiter_perm : forall (V : Type) (s : site) (m : gmap string V),
      mapiter s m ≡ₚ map_to_list m;
  sort_Sort : forall {A : Type}, sort_Interface A -> list A -> list A;
  sort_Sort_perm : forall (A : Type) (I : sort_Interface A) (lt : A -> A -> bool)
                          (l : list A),
      slice_interface I lt -> sort_Sort I l ≡ₚ l;
  sort_Sort_sorted : forall (A : Type) (I : sort_Interface A) (lt : A -> A -> bool)
                            (l : list A),
      slice_interface I lt ->
      Sorted (fun x y => lt y x = false) (sort_Sort I l)
}.

Local Close Scope Z_scope.

(* ===================================================================== *)
(** ** API types *)
(* ===================================================================== *)

(** *** k8s.io/apimachinery: metav1, intstr, types *)

Record OwnerReference : Type := {
  OwnerReference_APIVersion : string;
  OwnerReference_Kind : string;
  OwnerReference_Name : string;
  OwnerReference_UID : string;
  OwnerReference_Controller : option bool;
  OwnerReference_BlockOwnerDeletion : option bool
}.

Record ObjectMeta : Type := {
  ObjectMeta_Name : string;
  ObjectMeta_Namespace : string;
  ObjectMeta_UID : string;
  ObjectMeta_ResourceVersion : string;
  ObjectMeta_Labels : gmap string string;
  ObjectMeta_Annotations : gmap string string;
  ObjectMeta_OwnerReferences : list OwnerReference
}.

Record TypeMeta : Type := {
  TypeMeta_Kind : string;
  TypeMeta_APIVersion : string
}.

Record PartialObjectMetadata : Type := {
  PartialObjectMetadata_TypeMeta : TypeMeta;
  PartialObjectMetadata_ObjectMeta : ObjectMeta
}.

Record LabelSelectorRequirement : Type := {
  LabelSelectorRequirement_Key : string;
  LabelSelectorRequirement_Operator : string;
  LabelSelectorRequirement_Values : list string
}.

Record LabelSelector : Type := {
  LabelSelector_MatchLabels : gmap string string;
  LabelSelector_MatchExpressions : list LabelSelectorRequirement
}.

Record NamespacedName : Type := {
  NamespacedName_Namespace : string;
  NamespacedName_Name : string
}.

(** [types.NamespacedName.String]. *)
Definition NamespacedName_String (n : NamespacedName) : string :=
  NamespacedName_Namespace n ++ "/" ++ NamespacedName_Name n.

Inductive IntOrString : Type :=
| IntVal (i : Z)
| StrVal (s : string).

Definition IntValue (p : IntOrString) : Z :=
  match p with
  | IntVal i => i
  | StrVal s => Atoi s
  end.

(** *** knative.dev/networking: netv1alpha1 *)

Definition IngressVisibilityExternalIP : string := "ExternalIP".
Definition IngressVisibilityClusterLocal : string := "ClusterLocal".
Definition HTTPOptionRedirected : string := "Redirected".
Definition VisibilityLabelKey : string := "networking.knative.dev/visibility".
Definition LastAppliedConfigAnnotation : string :=
  "kubectl.kubernetes.io/last-applied-configuration".
Definition LabelMetadataName : string := "kubernetes.io/metadata.name".

Record HeaderMatch : Type := {
  HeaderMatch_Exact : string
}.

Record IngressBackend : Type := {
  IngressBackend_ServiceNamespace : string;
  IngressBackend_ServiceName : string;
  IngressBackend_ServicePort : IntOrString
}.

Record IngressBackendSplit : Type := {
  IngressBackendSplit_IngressBackend : IngressBackend;
  IngressBackendSplit_Percent : Z;
  IngressBackendSplit_AppendHeaders : gmap string string
}.

(** [HTTPIngressPath_AppendHeaders] is tested against nil by the builder:
    [None] is the nil map. *)
Record HTTPIngressPath : Type := {
  HTTPIngressPath_Path : string;
  HTTPIngressPath_RewriteHost : string;
  HTTPIngressPath_Headers : gmap string HeaderMatch;
  HTTPIngressPath_Splits : list IngressBackendSplit;
  HTTPIngressPath_AppendHeaders : option (gmap string string)
}.

Record HTTPIngressRuleValue : Type := {
  HTTPIngressRuleValue_Paths : list HTTPIngressPath
}.

(** [IngressRule_HTTP] is a pointer: [None] is nil.  The builder dereferences
    it without a test (an ingress that passed validation has it set). *)
Record IngressRule : Type := {
  IngressRule_Hosts : list string;
  IngressRule_Visibility : string;
  IngressRule_HTTP : option HTTPIngressRuleValue
}.

Record IngressTLS : Type := {
  IngressTLS_Hosts : list string;
  IngressTLS_SecretName : string;
  IngressTLS_SecretNamespace : string
}.

Record IngressSpec : Type := {
  IngressSpec_TLS : list IngressTLS;
  IngressSpec_Rules : list IngressRule;
  IngressSpec_HTTPOption : string
}.

Record Ingress : Type := {
  Ingress_ObjectMeta : ObjectMeta;
  Ingress_Spec : IngressSpec
}.

Definition Ingress_Name (ing : Ingress) : string :=
  ObjectMeta_Name (Ingress_ObjectMeta ing).
Definition Ingress_Namespace (ing : Ingress) : string :=
  ObjectMeta_Namespace (Ingress_ObjectMeta ing).
Definition Ingress_Labels (ing : Ingress) : gmap string string :=
  ObjectMeta_Labels (Ingress_ObjectMeta ing).
Definition Ingress_GetAnnotations (ing : Ingress) : gmap string string :=
  ObjectMeta_Annotations (Ingress_ObjectMeta ing).
Definition Ingress_GetUID (ing : Ingress) : string :=
  ObjectMeta_UID (Ingress_ObjectMeta ing).

(** *** sigs.k8s.io/gateway-api: v1 and v1beta1 *)

Definition GroupVersion_Group : string := "gateway.networking.k8s.io".
Definition GroupVersion_String : string := "gateway.networking.k8s.io/v1beta1".
Definition HTTPRouteFilterRequestHeaderModifier : string := "RequestHeaderModifier".
Definition HTTPRouteFilterRequestRedirect : string := "RequestRedirect".
Definition PathMatchPathPrefix : string := "PathPrefix".
Definition HeaderMatchExact : string := "Exact".
Definition TLSModeTerminate : string := "Terminate".
Definition NamespacesFromSelector : string := "Selector".
Definition HTTPSProtocolType : string := "HTTPS".
Definition StatusMovedPermanently : Z := 301%Z.

Record ParentReference : Type := {
  ParentReference_Group : option string;
  ParentReference_Kind : option string;
  ParentReference_Namespace : option string;
  ParentReference_Name : string;
  ParentReference_SectionName : option string;
  ParentReference_Port : option Z
}.

Record HTTPHeader : Type := {
  HTTPHeader_Name : string;
  HTTPHeader_Value : string
}.

Record HTTPHeaderFilter : Type := {
  HTTPHeaderFilter_Set : list HTTPHeader;
  HTTPHeaderFilter_Add : list HTTPHeader;
  HTTPHeaderFilter_Remove : list string
}.

Record HTTPRequestRedirectFilter : Type := {
  HTTPRequestRedirectFilter_Scheme : option string;
  HTTPRequestRedirectFilter_Hostname : option string;
  HTTPRequestRedirectFilter_Port : option Z;
  HTTPRequestRedirectFilter_StatusCode : option Z
}.

Record HTTPRouteFilter : Type := {
  HTTPRouteFilter_Type : string;
  HTTPRouteFilter_RequestHeaderModifier : option HTTPHeaderFilter;
  HTTPRouteFilter_RequestRedirect : option HTTPRequestRedirectFilter
}.

Record BackendObjectReference : Type := {
  BackendObjectReference_Group : option string;
  BackendObjectReference_Kind : option string;
  BackendObjectReference_Name : string;
  BackendObjectReference_Namespace : option string;
  BackendObjectReference_Port : option Z
}.

Record BackendRef : Type := {
  BackendRef_BackendObjectReference : BackendObjectReference;
  BackendRef_Weight : option Z
}.

Record HTTPBackendRef : Type := {
  HTTPBackendRef_BackendRef : BackendRef;
  HTTPBackendRef_Filters : list HTTPRouteFilter
}.

Record HTTPPathMatch : Type := {
  HTTPPathMatch_Type : option string;
  HTTPPathMatch_Value : option string
}.

Record HTTPHeaderMatch : Type := {
  HTTPHeaderMatch_Type : option string;
  HTTPHeaderMatch_Name : string;
  HTTPHeaderMatch_Value : string
}.

Record HTTPRouteMatch : Type := {
  HTTPRouteMatch_Path : option HTTPPathMatch;
  HTTPRouteMatch_Headers : list HTTPHeaderMatch
}.

Record HTTPRouteRule : Type := {
  HTTPRouteRule_Matches : list HTTPRouteMatch;
  HTTPRouteRule_Filters : list HTTPRouteFilter;
  HTTPRouteRule_BackendRefs : list HTTPBackendRef
}.

Record HTTPRouteSpec : Type := {
  HTTPRouteSpec_ParentRefs : list ParentReference;
  HTTPRouteSpec_Hostnames : list string;
  HTTPRouteSpec_Rules : list HTTPRouteRule
}.

Record HTTPRoute : Type := {
  HTTPRoute_ObjectMeta : ObjectMeta;
  HTTPRoute_Spec : HTTPRouteSpec
}.

Record SecretObjectReference : Type := {
  SecretObjectReference_Group : option string;
  SecretObjectReference_Kind : option string;
  SecretObjectReference_Name : string;
  SecretObjectReference_Namespace : option string
}.

Record GatewayTLSConfig : Type := {
  GatewayTLSConfig_Mode : option string;
  GatewayTLSConfig_CertificateRefs : list SecretObjectReference
}.

Record RouteGroupKind : Type := {
  RouteGroupKind_Group : option string;
  RouteGroupKind_Kind : string
}.

Record RouteNamespaces : Type := {
  RouteNamespaces_From : option string;
  RouteNamespaces_Selector : option LabelSelector
}.

Record AllowedRoutes : Type := {
  AllowedRoutes_Namespaces : option RouteNamespaces;
  AllowedRoutes_Kinds : list RouteGroupKind
}.

Record Listener : Type := {
  Listener_Name : string;
  Listener_Hostname : option string;
  Listener_Port : Z;
  Listener_Protocol : string;
  Listener_TLS : option GatewayTLSConfig;
  Listener_AllowedRoutes : option AllowedRoutes
}.

Record GatewaySpec : Type := {
  GatewaySpec_GatewayClassName : string;
  GatewaySpec_Listeners : list Listener
}.

Record Gateway : Type := {
  Gateway_ObjectMeta : ObjectMeta;
  Gateway_Spec : GatewaySpec
}.

Record ReferenceGrantFrom : Type := {
  ReferenceGrantFrom_Group : string;
  ReferenceGrantFrom_Kind : string;
  ReferenceGrantFrom_Namespace : string
}.

Record ReferenceGrantTo : Type := {
  ReferenceGrantTo_Group : string;
  ReferenceGrantTo_Kind : string;
  ReferenceGrantTo_Name : option string
}.

Record ReferenceGrantSpec : Type := {
  ReferenceGrantSpec_From : list ReferenceGrantFrom;
  ReferenceGrantSpec_To : list ReferenceGrantTo
}.

Record ReferenceGrant : Type := {
  ReferenceGrant_ObjectMeta : ObjectMeta;
  ReferenceGrant_Spec : ReferenceGrantSpec
}.

(** *** Decidable equality of the API types *)

#[global] Instance error_eq_dec : EqDecision error.
Proof. solve_decision. Defined.
#[global] Instance OwnerReference_eq_dec : EqDecision OwnerReference.
Proof. solve_decision. Defined.
#[global] Instance ObjectMeta_eq_dec : EqDecision ObjectMeta.
Proof. solve_decision. Defined.
#[global] Instance LabelSelectorRequirement_eq_dec : EqDecision LabelSelectorRequirement.
Proof. solve_decision. Defined.
#[global] Instance LabelSelector_eq_dec : EqDecision LabelSelector.
Proof. solve_decision. Defined.
#[global] Instance ParentReference_eq_dec : EqDecision ParentReference.
Proof. solve_decision. Defined.
#[global] Instance HTTPHeader_eq_dec : EqDecision HTTPHeader.
Proof. solve_decision. Defined.
#[global] Instance HTTPHeaderFilter_eq_dec : EqDecision HTTPHeaderFilter.
Proof. solve_decision. Defined.
#[global] Instance HTTPRequestRedirectFilter_eq_dec : EqDecision HTTPRequestRedirectFilter.
Proof. solve_decision. Defined.
#[global] Instance HTTPRouteFilter_eq_dec : EqDecision HTTPRouteFilter.
Proof. solve_decision. Defined.
#[global] Instance BackendObjectReference_eq_dec : EqDecision BackendObjectReference.
Proof. solve_decision. Defined.
#[global] Instance BackendRef_eq_dec : EqDecision BackendRef.
Proof. solve_decision. Defined.
#[global] Instance HTTPBackendRef_eq_dec : EqDecision HTTPBackendRef.
Proof. solve_decision. Defined.
#[global] Instance HTTPPathMatch_eq_dec : EqDecision HTTPPathMatch.
Proof. solve_decision. Defined.
#[global] Instance HTTPHeaderMatch_eq_dec : EqDecision HTTPHeaderMatch.
Proof. solve_decision. Defined.
#[global] Instance HTTPRouteMatch_eq_dec : EqDecision HTTPRouteMatch.
Proof. solve_decision. Defined.
#[global] Instance HTTPRouteRule_eq_dec : EqDecision HTTPRouteRule.
Proof. solve_decision. Defined.
#[global] Instance HTTPRouteSpec_eq_dec : EqDecision HTTPRouteSpec.
Proof. solve_decision. Defined.
#[global] Instance SecretObjectReference_eq_dec : EqDecision SecretObjectReference.
Proof. solve_decision. Defined.
#[global] Instance GatewayTLSConfig_eq_dec : EqDecision GatewayTLSConfig.
Proof. solve_decision. Defined.
#[global] Instance RouteGroupKind_eq_dec : EqDecision RouteGroupKind.
Proof. solve_decision. Defined.
#[global] Instance RouteNamespaces_eq_dec : EqDecision RouteNamespaces.
Proof. solve_decision. Defined.
#[global] Instance AllowedRoutes_eq_dec : EqDecision AllowedRoutes.
Proof. solve_decision. Defined.
#[global] Instance Listener_eq_dec : EqDecision Listener.
Proof. solve_decision. Defined.
#[global] Instance ReferenceGrantFrom_eq_dec : EqDecision ReferenceGrantFrom.
Proof. solve_decision. Defined.
#[global] Instance ReferenceGrantTo_eq_dec : EqDecision ReferenceGrantTo.
Proof. solve_decision. Defined.
#[global] Instance ReferenceGrantSpec_eq_dec : EqDecision ReferenceGrantSpec.
Proof. solve_decision. Defined.
#[global] Instance ReferenceGrant_eq_dec : EqDecision ReferenceGrant.
Proof. solve_decision. Defined.
#[global] Instance HTTPRoute_eq_dec : EqDecision HTTPRoute.
Proof. solve_decision. Defined.
#[global] Instance GatewaySpec_eq_dec : EqDecision GatewaySpec.
Proof. solve_decision. Defined.
#[global] Instance Gateway_eq_dec : EqDecision Gateway.
Proof. solve_decision. Defined.
#[global] Instance fmt_arg_eq_dec : EqDecision fmt_arg.
Proof. solve_decision. Defined.

(** [equality.Semantic.DeepEqual]: deep equality in which a nil and an empty
    slice, and a nil and an empty map, are the same and a pointer is compared
    by what it points to.  The embedding already identifies these (lists,
    [gmap]s, [option]s), and none of the compared types holds a quantity or a
    time, so it is equality of the embedded values. *)
Definition Semantic_DeepEqual {A : Type} `{EqDecision A} (a b : A) : bool :=
  bool_decide (a = b).

(* ===================================================================== *)
(** ** pkg/reconciler/ingress/resources: the HTTPRoute builder *)
(* ===================================================================== *)

(** *** Library functions the builder calls *)

(** [kmap.Union]: the union of the maps, values of later maps win. *)
Definition kmap_Union {V : Type} (m1 m2 : gmap string V) : gmap string V :=
  m2 ∪ m1.

(** [kmap.Filter]: a copy of the map without the keys that satisfy [f]. *)
Definition kmap_Filter {V : Type} (m : gmap string V) (f : string -> bool)
  : gmap string V :=
  filter (fun kv : string * V => f kv.1 = false) m.

(** [kmeta.NewControllerRef] of an Ingress. *)
Definition NewControllerRef (ing : Ingress) : OwnerReference :=
  {| OwnerReference_APIVersion := "networking.internal.knative.dev/v1alpha1";
     OwnerReference_Kind := "Ingress";
     OwnerReference_Name := Ingress_Name ing;
     OwnerReference_UID := Ingress_GetUID ing;
     OwnerReference_Controller := Some true;
     OwnerReference_BlockOwnerDeletion := Some true |}.

(** Modelled from the spec: [ptr] is a helper of package resources whose file
    is not among the sources; it yields the address of a copy of its argument
    (the spec: typed pointers stand for value literals). *)
Definition ptr {T : Type} (t : T) : option T := Some t.

(** Modelled from the spec: [portNumPtr] is a helper of package resources
    whose file is not among the sources; it yields the address of the port as
    a [PortNumber], an int32 (the spec: port=443 for the redirect filter). *)
Definition portNumPtr (port : Z) : option Z := Some (int32 port).

(** [pointer.String], [pointer.Int32]. *)
Definition pointer_String (s : string) : option string := Some s.
Definition pointer_Int32 (i : Z) : option Z := Some i.

Definition redirectHTTPRoutePostfix : string := "-redirect".

(** *** The two [sort.Interface]s: HTTPHeaderList and HTTPHeaderMatchList *)

Definition HTTPHeaderList_Len (h : list HTTPHeader) : nat := length h.

Definition HTTPHeaderList_Less (h : list HTTPHeader) (i j : nat) : go_result bool :=
  match h !! i, h !! j with
  | Some hi, Some hj => Returns (string_gt (HTTPHeader_Name hi) (HTTPHeader_Name hj))
  | _, _ => Panics
  end.

Definition HTTPHeaderList_Swap (h : list HTTPHeader) (i j : nat)
  : go_result (list HTTPHeader) :=
  match h !! i, h !! j with
  | Some hi, Some hj => Returns (<[i := hj]> (<[j := hi]> h))
  | _, _ => Panics
  end.

Definition HTTPHeaderList : sort_Interface HTTPHeader :=
  {| Len := HTTPHeaderList_Len;
     Less := HTTPHeaderList_Less;
     Swap := HTTPHeaderList_Swap |}.

Definition HTTPHeaderMatchList_Len (h : list HTTPHeaderMatch) : nat := length h.

Definition HTTPHeaderMatchList_Less (h : list HTTPHeaderMatch) (i j : nat)
  : go_result bool :=
  match h !! i, h !! j with
  | Some hi, Some hj =>
      Returns (string_gt (HTTPHeaderMatch_Name hi) (HTTPHeaderMatch_Name hj))
  | _, _ => Panics
  end.

Definition HTTPHeaderMatchList_Swap (h : list HTTPHeaderMatch) (i j : nat)
  : go_result (list HTTPHeaderMatch) :=
  match h !! i, h !! j with
  | Some hi, Some hj => Returns (<[i := hj]> (<[j := hi]> h))
  | _, _ => Panics
  end.

Definition HTTPHeaderMatchList : sort_Interface HTTPHeaderMatch :=
  {| Len := HTTPHeaderMatchList_Len;
     Less := HTTPHeaderMatchList_Less;
     Swap := HTTPHeaderMatchList_Swap |}.

Section resources.

(** [LongestHost] is a function of package resources whose file is not among
    the sources: it is a parameter of the builder. *)
Variable LongestHost : list string -> string.

Variable rt : GoRuntime.

Definition matchesFromRulePath (s : site) (path : HTTPIngressPath)
  : list HTTPRouteMatch :=
  let pathPrefix :=
    if String.eqb (HTTPIngressPath_Path path) ""
    then "/" else HTTPIngressPath_Path path in
  let pathMatch :=
    {| HTTPPathMatch_Type := ptr PathMatchPathPrefix;
       HTTPPathMatch_Value := pointer_String pathPrefix |} in
  let headerMatchList :=
    (fun kv : string * HeaderMatch =>
       {| HTTPHeaderMatch_Type := ptr HeaderMatchExact;
          HTTPHeaderMatch_Name := kv.1;
          HTTPHeaderMatch_Value := HeaderMatch_Exact kv.2 |})
      <$> mapiter rt s (HTTPIngressPath_Headers path) in
  (* Sort HTTPHeaderMatch as the order is random. *)
  let headerMatchList := sort_Sort rt HTTPHeaderMatchList headerMatchList in
  [ {| HTTPRouteMatch_Path := Some pathMatch;
       HTTPRouteMatch_Headers := headerMatchList |} ].

(** The iteration over [rule.HTTP.Paths] and over [path.Splits] passes its
    index on as the site of the [range] statements over the header maps.
    [rule.HTTP.Paths] dereferences [rule.HTTP]: on a nil pointer the function
    panics before it has built anything. *)
Definition makeHTTPRouteRule (rule : IngressRule) : go_result (list HTTPRouteRule) :=
  match IngressRule_HTTP rule with
  | None => Panics
  | Some http =>
      Returns (imap (fun (i : nat) (path : HTTPIngressPath) =>
        let preFilters :=
          match HTTPIngressPath_AppendHeaders path with
          | None => []
          | Some appendHeaders =>
              let headers :=
                (fun kv : string * string =>
                   {| HTTPHeader_Name := kv.1; HTTPHeader_Value := kv.2 |})
                  <$> mapiter rt [i; 0] appendHeaders in
              (* Sort HTTPHeader as the order is random. *)
              let headers := sort_Sort rt HTTPHeaderList headers in
              [ {| HTTPRouteFilter_Type := HTTPRouteFilterRequestHeaderModifier;
                   HTTPRouteFilter_RequestHeaderModifier :=
                     Some {| HTTPHeaderFilter_Set := headers;
                             HTTPHeaderFilter_Add := [];
                             HTTPHeaderFilter_Remove := [] |};
                   HTTPRouteFilter_RequestRedirect := None |} ]
          end in
        let backendRefs :=
          imap (fun (j : nat) (split : IngressBackendSplit) =>
            let headers :=
              (fun kv : string * string =>
                 {| HTTPHeader_Name := kv.1; HTTPHeader_Value := kv.2 |})
                <$> mapiter rt [i; 1; j] (IngressBackendSplit_AppendHeaders split) in
            (* Sort HTTPHeader as the order is random. *)
            let headers := sort_Sort rt HTTPHeaderList headers in
            let name :=
              IngressBackend_ServiceName (IngressBackendSplit_IngressBackend split) in
            {| HTTPBackendRef_BackendRef :=
                 {| BackendRef_BackendObjectReference :=
                      {| BackendObjectReference_Group := pointer_String "";
                         BackendObjectReference_Kind := pointer_String "Service";
                         BackendObjectReference_Port :=
                           portNumPtr
                             (IntValue (IngressBackend_ServicePort
                                          (IngressBackendSplit_IngressBackend split)));
                         BackendObjectReference_Name := name;
                         BackendObjectReference_Namespace := None |};
                    BackendRef_Weight :=
                      pointer_Int32 (int32 (IngressBackendSplit_Percent split)) |};
               HTTPBackendRef_Filters :=
                 [ {| HTTPRouteFilter_Type := HTTPRouteFilterRequestHeaderModifier;
                      HTTPRouteFilter_RequestHeaderModifier :=
                        Some {| HTTPHeaderFilter_Set := headers;
                                HTTPHeaderFilter_Add := [];
                                HTTPHeaderFilter_Remove := [] |};
                      HTTPRouteFilter_RequestRedirect := None |} ] |})
            (HTTPIngressPath_Splits path) in
        let matches := matchesFromRulePath [i; 2] path in
        {| HTTPRouteRule_BackendRefs := backendRefs;
           HTTPRouteRule_Filters := preFilters;
           HTTPRouteRule_Matches := matches |})
        (HTTPIngressRuleValue_Paths http))
  end.

Definition makeHTTPRouteSpec (rule : IngressRule) (gatewayRef : ParentReference)
  : go_result HTTPRouteSpec :=
  let hostnames := IngressRule_Hosts rule in
  match makeHTTPRouteRule rule with
  | Panics => Panics
  | Returns rules =>
      Returns {| HTTPRouteSpec_Hostnames := hostnames;
                 HTTPRouteSpec_Rules := rules;
                 HTTPRouteSpec_ParentRefs := [ gatewayRef ] |}
  end.

(** MakeHTTPRoute creates HTTPRoute to set up routing rules.  Its Go result,
    a pointer to the route and an error, is the sum [HTTPRoute + error]; the
    call does not return when makeHTTPRouteSpec panics.  The other fields of
    the literal are computed without effect, so the one observable of the
    order of evaluation is the panic. *)
Definition MakeHTTPRoute (ing : Ingress) (rule : IngressRule)
    (gatewayRef : ParentReference) : go_result (HTTPRoute + error) :=
  let visibility :=
    if String.eqb (IngressRule_Visibility rule) IngressVisibilityClusterLocal
    then "cluster-local" else "" in
  match makeHTTPRouteSpec rule gatewayRef with
  | Panics => Panics
  | Returns spec =>
      Returns
        (inl {| HTTPRoute_ObjectMeta :=
                  {| ObjectMeta_Name := LongestHost (IngressRule_Hosts rule);
                     ObjectMeta_Namespace := Ingress_Namespace ing;
                     ObjectMeta_UID := "";
                     ObjectMeta_ResourceVersion := "";
                     ObjectMeta_Labels :=
                       kmap_Union (Ingress_Labels ing)
                         {[ VisibilityLabelKey := visibility ]};
                     ObjectMeta_Annotations :=
                       kmap_Filter (Ingress_GetAnnotations ing)
                         (fun key => String.eqb key LastAppliedConfigAnnotation);
                     ObjectMeta_OwnerReferences := [ NewControllerRef ing ] |};
                HTTPRoute_Spec := spec |})
  end.

(** As makeHTTPRouteRule, [rule.HTTP.Paths] panics on a nil [rule.HTTP]. *)
Definition makeRedirectHTTPRouteRule (rule : IngressRule)
  : go_result (list HTTPRouteRule) :=
  match IngressRule_HTTP rule with
  | None => Panics
  | Some http =>
      Returns (imap (fun (i : nat) (path : HTTPIngressPath) =>
        let preFilters :=
          [ {| HTTPRouteFilter_Type := HTTPRouteFilterRequestRedirect;
               HTTPRouteFilter_RequestHeaderModifier := None;
               HTTPRouteFilter_RequestRedirect :=
                 Some {| HTTPRequestRedirectFilter_Scheme := ptr "https";
                         HTTPRequestRedirectFilter_Hostname := None;
                         HTTPRequestRedirectFilter_Port := portNumPtr 443;
                         HTTPRequestRedirectFilter_StatusCode :=
                           ptr StatusMovedPermanently |} |} ] in
        let matches := matchesFromRulePath [i; 2] path in
        {| HTTPRouteRule_Filters := preFilters;
           HTTPRouteRule_Matches := matches;
           HTTPRouteRule_BackendRefs := [] |})
        (HTTPIngressRuleValue_Paths http))
  end.

Definition makeRedirectHTTPRouteSpec (rule : IngressRule)
    (gatewayRef : ParentReference) : go_result HTTPRouteSpec :=
  let hostnames := IngressRule_Hosts rule in
  match makeRedirectHTTPRouteRule rule with
  | Panics => Panics
  | Returns rules =>
      Returns {| HTTPRouteSpec_Hostnames := hostnames;
                 HTTPRouteSpec_Rules := rules;
                 HTTPRouteSpec_ParentRefs := [ gatewayRef ] |}
  end.

(** MakeRedirectHTTPRoute creates a HTTPRoute with a redirection filter. *)
Definition MakeRedirectHTTPRoute (ing : Ingress) (rule : IngressRule)
    (gatewayRef : ParentReference) : go_result (HTTPRoute + error) :=
  let visibility :=
    if String.eqb (IngressRule_Visibility rule) IngressVisibilityClusterLocal
    then "cluster-local" else "" in
  match makeRedirectHTTPRouteSpec rule gatewayRef with
  | Panics => Panics
  | Returns spec =>
      Returns
        (inl {| HTTPRoute_ObjectMeta :=
                  {| ObjectMeta_Name :=
                       LongestHost (IngressRule_Hosts rule) ++ redirectHTTPRoutePostfix;
                     ObjectMeta_Namespace := Ingress_Namespace ing;
                     ObjectMeta_UID := "";
                     ObjectMeta_ResourceVersion := "";
                     ObjectMeta_Labels :=
                       kmap_Union (Ingress_Labels ing)
                         {[ VisibilityLabelKey := visibility ]};
                     ObjectMeta_Annotations :=
                       kmap_Filter (Ingress_GetAnnotations ing)
                         (fun key => String.eqb key LastAppliedConfigAnnotation);
                     ObjectMeta_OwnerReferences := [ NewControllerRef ing ] |};
                HTTPRoute_Spec := spec |})
  end.

End resources.

(* ===================================================================== *)
(** ** pkg/reconciler/ingress: the reconciler *)
(* ===================================================================== *)

Definition listenerPrefix : string := "kni-".

(** *** What the reconciler is given

    Package config is not among the sources.  Of the gateway configured for a
    visibility the reconciler reads the gateway's namespaced name (a pointer
    it dereferences without a test) and the name of its HTTP listener. *)
Record GatewayConfig : Type := {
  GatewayConfig_Gateway : NamespacedName;
  GatewayConfig_HTTPListenerName : string
}.

(** [config.FromContext(ctx).Gateway.Gateways], by visibility. *)
Record Context : Type := {
  Context_Gateways : string -> GatewayConfig
}.

(** *** The cluster: listers, client and event recorder

    The store is outside the reconciler.  It is modelled as the objects it
    holds by namespace and name, a [reactor] that makes a chosen call fail
    (as a fake clientset's reactors do), and the log of the calls the
    reconciler issued, oldest first.  The listers read the same objects: the
    informer cache is taken to be in step with the store. *)
Inductive Call : Type :=
| Lister_HTTPRoutes_Get (ns name : string)
| HTTPRoutes_Create (ns : string) (obj : HTTPRoute)
| HTTPRoutes_Update (ns : string) (obj : HTTPRoute)
| Lister_ReferenceGrants_Get (ns name : string)
| ReferenceGrants_Create (ns : string) (obj : ReferenceGrant)
| ReferenceGrants_Update (ns : string) (obj : ReferenceGrant)
| Lister_Gateways_Get (ns name : string)
| Gateways_Update (ns : string) (obj : Gateway)
| Recorder_Eventf (eventtype reason messageFmt : string) (args : list fmt_arg).

#[global] Instance Call_eq_dec : EqDecision Call.
Proof. solve_decision. Defined.

Record Cluster : Type := {
  httproutes : gmap (string * string) HTTPRoute;
  referencegrants : gmap (string * string) ReferenceGrant;
  gateways : gmap (string * string) Gateway;
  reactor : Call -> option error;
  calls : list Call
}.

(** A call that writes to the store. *)
Definition is_write (c : Call) : bool :=
  match c with
  | HTTPRoutes_Create _ _ | HTTPRoutes_Update _ _
  | ReferenceGrants_Create _ _ | ReferenceGrants_Update _ _
  | Gateways_Update _ _ => true
  | _ => false
  end.

(** The calls [w'] logged after those of [w]. *)
Definition new_calls (w w' : Cluster) : list Call :=
  drop (length (calls w)) (calls w').

(** The reconciler's functions thread the cluster: a state monad. *)
Definition M (A : Type) : Type := Cluster -> A * Cluster.

#[global] Instance M_ret : MRet M := fun A (a : A) (w : Cluster) => (a, w).
#[global] Instance M_bind : MBind M :=
  fun A B (f : A -> M B) (m : M A) (w : Cluster) =>
    let '(a, w') := m w in f a w'.

Definition log (c : Call) (w : Cluster) : Cluster :=
  {| httproutes := httproutes w;
     referencegrants := referencegrants w;
     gateways := gateways w;
     reactor := reactor w;
     calls := calls w ++ [c] |}.

(** [apierrs.NewNotFound] and [apierrs.NewAlreadyExists] for a resource of
    the gateway API group: the reason, and the message made of the qualified
    resource and the name quoted by [%q] (the name of an object holds no
    character that [%q] escapes). *)
Definition GroupResource_String (resource : string) : string :=
  resource ++ "." ++ GroupVersion_Group.

Definition quoted (s : string) : string :=
  String (ascii_of_nat 34) (s ++ String (ascii_of_nat 34) EmptyString).

Definition NewNotFound (resource name : string) : error :=
  StatusError "NotFound"
    (GroupResource_String resource ++ " " ++ quoted name ++ " not found").
Definition NewAlreadyExists (resource name : string) : error :=
  StatusError "AlreadyExists"
    (GroupResource_String resource ++ " " ++ quoted name ++ " already exists").

(** [recorder.Eventf]: fire and forget. *)
Definition Eventf (eventtype reason messageFmt : string) (args : list fmt_arg)
  : M unit :=
  fun w => (tt, log (Recorder_Eventf eventtype reason messageFmt args) w).

(** [c.httprouteLister.HTTPRoutes(ns).Get(name)].  A lister names the
    resource in the singular, the client below in the plural. *)
Definition httprouteLister_Get (ns name : string) : M (HTTPRoute + error) :=
  fun w =>
    let c := Lister_HTTPRoutes_Get ns name in
    match reactor w c with
    | Some err => (inr err, log c w)
    | None =>
        match httproutes w !! (ns, name) with
        | Some obj => (inl obj, log c w)
        | None => (inr (NewNotFound "httproute" name), log c w)
        end
    end.

(** [c.gwapiclient.GatewayV1beta1().HTTPRoutes(ns).Create(ctx, obj, ...)]. *)
Definition gwapiclient_HTTPRoutes_Create (ns : string) (obj : HTTPRoute)
  : M (HTTPRoute + error) :=
  fun w =>
    let c := HTTPRoutes_Create ns obj in
    let name := ObjectMeta_Name (HTTPRoute_ObjectMeta obj) in
    match reactor w c with
    | Some err => (inr err, log c w)
    | None =>
        match httproutes w !! (ns, name) with
        | Some _ => (inr (NewAlreadyExists "httproutes" name), log c w)
        | None =>
            (inl obj,
             log c {| httproutes := <[(ns, name) := obj]> (httproutes w);
                      referencegrants := referencegrants w;
                      gateways := gateways w;
                      reactor := reactor w;
                      calls := calls w |})
        end
    end.

(** [c.gwapiclient.GatewayV1beta1().HTTPRoutes(ns).Update(ctx, obj, ...)]. *)
Definition gwapiclient_HTTPRoutes_Update (ns : string) (obj : HTTPRoute)
  : M (HTTPRoute + error) :=
  fun w =>
    let c := HTTPRoutes_Update ns obj in
    let name := ObjectMeta_Name (HTTPRoute_ObjectMeta obj) in
    match reactor w c with
    | Some err => (inr err, log c w)
    | None =>
        match httproutes w !! (ns, name) with
        | None => (inr (NewNotFound "httproutes" name), log c w)
        | Some _ =>
            (inl obj,
             log c {| httproutes := <[(ns, name) := obj]> (httproutes w);
                      referencegrants := referencegrants w;
                      gateways := gateways w;
                      reactor := reactor w;
                      calls := calls w |})
        end
    end.

(** [c.referenceGrantLister.ReferenceGrants(ns).Get(name)]. *)
Definition referenceGrantLister_Get (ns name : string) : M (ReferenceGrant + error) :=
  fun w =>
    let c := Lister_ReferenceGrants_Get ns name in
    match reactor w c with
    | Some err => (inr err, log c w)
    | None =>
        match referencegrants w !! (ns, name) with
        | Some obj => (inl obj, log c w)
        | None => (inr (NewNotFound "referencegrant" name), log c w)
        end
    end.

Definition gwapiclient_ReferenceGrants_Create (ns : string) (obj : ReferenceGrant)
  : M (ReferenceGrant + error) :=
  fun w =>
    let c := ReferenceGrants_Create ns obj in
    let name := ObjectMeta_Name (ReferenceGrant_ObjectMeta obj) in
    match reactor w c with
    | Some err => (inr err, log c w)
    | None =>
        match referencegrants w !! (ns, name) with
        | Some _ => (inr (NewAlreadyExists "referencegrants" name), log c w)
        | None =>
            (inl obj,
             log c {| httproutes := httproutes w;
                      referencegrants := <[(ns, name) := obj]> (referencegrants w);
                      gateways := gateways w;
                      reactor := reactor w;
                      calls := calls w |})
        end
    end.

Definition gwapiclient_ReferenceGrants_Update (ns : string) (obj : ReferenceGrant)
  : M (ReferenceGrant + error) :=
  fun w =>
    let c := ReferenceGrants_Update ns obj in
    let name := ObjectMeta_Name (ReferenceGrant_ObjectMeta obj) in
    match reactor w c with
    | Some err => (inr err, log c w)
    | None =>
        match referencegrants w !! (ns, name) with
        | None => (inr (NewNotFound "referencegrants" name), log c w)
        | Some _ =>
            (inl obj,
             log c {| httproutes := httproutes w;
                      referencegrants := <[(ns, name) := obj]> (referencegrants w);
                      gateways := gateways w;
                      reactor := reactor w;
                      calls := calls w |})
        end
    end.

(** [c.gatewayLister.Gateways(ns).Get(name)]. *)
Definition gatewayLister_Get (ns name : string) : M (Gateway + error) :=
  fun w =>
    let c := Lister_Gateways_Get ns name in
    match reactor w c with
    | Some err => (inr err, log c w)
    | None =>
        match gateways w !! (ns, name) with
        | Some obj => (inl obj, log c w)
        | None => (inr (NewNotFound "gateway" name), log c w)
        end
    end.

Definition gwapiclient_Gateways_Update (ns : string) (obj : Gateway)
  : M (Gateway + error) :=
  fun w =>
    let c := Gateways_Update ns obj in
    let name := ObjectMeta_Name (Gateway_ObjectMeta obj) in
    match reactor w c with
    | Some err => (inr err, log c w)
    | None =>
        match gateways w !! (ns, name) with
        | None => (inr (NewNotFound "gateways" name), log c w)
        | Some _ =>
            (inl obj,
             log c {| httproutes := httproutes w;
                      referencegrants := referencegrants w;
                      gateways := <[(ns, name) := obj]> (gateways w);
                      reactor := reactor w;
                      calls := calls w |})
        end
    end.

(** [metav1.IsControlledBy]: the object has a controller reference, and it
    names the owner's UID. *)
Definition GetControllerOfNoCopy (refs : list OwnerReference) : option OwnerReference :=
  List.find (fun ref => match OwnerReference_Controller ref with
                        | Some true => true
                        | _ => false
                        end) refs.

Definition IsControlledBy (obj owner : ObjectMeta) : bool :=
  match GetControllerOfNoCopy (ObjectMeta_OwnerReferences obj) with
  | None => false
  | Some ref => String.eqb (OwnerReference_UID ref) (ObjectMeta_UID owner)
  end.

(** *** The listener loops of reconcileGatewayListeners *)

(** The state of the scan: the lookup [lmap], the listeners of [update] and
    the flag [updated]. *)
Record merge_state : Type := {
  ms_lmap : gmap string Listener;
  ms_update : list Listener;
  ms_updated : bool
}.

(** [for _, l := range listeners { lmap[string(l.Name)] = l }]. *)
Definition build_lmap (listeners : list Listener) : gmap string Listener :=
  foldl (fun (lmap : gmap string Listener) (l : Listener) =>
           <[Listener_Name l := l]> lmap) ∅ listeners.

(** The body of [for i, l := range gw.Spec.Listeners]. *)
Definition scan_body (i : nat) (l : Listener) (st : merge_state) : merge_state :=
  match ms_lmap st !! Listener_Name l with
  | None =>
      (* This listener doesn't match any that we control. *)
      st
  | Some desired =>
      let lmap := delete (Listener_Name l) (ms_lmap st) in
      if Semantic_DeepEqual l desired then
        (* Already present and correct *)
        {| ms_lmap := lmap; ms_update := ms_update st; ms_updated := ms_updated st |}
      else
        {| ms_lmap := lmap;
           ms_update := <[i := desired]> (ms_update st);
           ms_updated := true |}
  end.

(** The loop over [gw.Spec.Listeners] from index [i] on. *)
Fixpoint scan_from (i : nat) (ls : list Listener) (st : merge_state) : merge_state :=
  match ls with
  | [] => st
  | l :: ls' => scan_from (S i) ls' (scan_body i l st)
  end.

(** [for _, l := range lmap]: add all remaining listeners. *)
Definition append_remaining (rt : GoRuntime) (st : merge_state) : merge_state :=
  foldl (fun (st : merge_state) (kl : string * Listener) =>
           {| ms_lmap := ms_lmap st;
              ms_update := ms_update st ++ [kl.2];
              ms_updated := true |})
        st (mapiter rt [] (ms_lmap st)).

(** From [update := gw.DeepCopy()] to the test of [updated]: the listeners of
    [update] and the flag. *)
Definition merge_listeners (rt : GoRuntime) (listeners : list Listener)
    (gwListeners : list Listener) : merge_state :=
  let st := {| ms_lmap := build_lmap listeners;
               ms_update := gwListeners;
               ms_updated := false |} in
  let st := scan_from 0 gwListeners st in
  append_remaining rt st.

Definition Gateway_with_Listeners (gw : Gateway) (ls : list Listener) : Gateway :=
  {| Gateway_ObjectMeta := Gateway_ObjectMeta gw;
     Gateway_Spec :=
       {| GatewaySpec_GatewayClassName := GatewaySpec_GatewayClassName (Gateway_Spec gw);
          GatewaySpec_Listeners := ls |} |}.

(** *** The loop of clearGatewayListeners

    [clear_loop name k ls] runs the iterations [i = k-1, ..., 0].  Indexing
    outside the slice panics in Go: that is [None]. *)
Definition clear_body (listenerName : string) (i : nat) (ls : list Listener)
  : option (list Listener) :=
  match ls !! i with
  | None => None
  | Some l =>
      if String.eqb (Listener_Name l) listenerName then
        match ls !! (length ls - 1) with
        | None => None
        | Some last => Some (take (length ls - 1) (<[i := last]> ls))
        end
      else Some ls
  end.

Fixpoint clear_loop (listenerName : string) (k : nat) (ls : list Listener)
  : option (list Listener) :=
  match k with
  | O => Some ls
  | S i =>
      match clear_body listenerName i ls with
      | None => None
      | Some ls' => clear_loop listenerName i ls'
      end
  end.

(** *** The listeners reconcileTLS derives: one per TLS host *)
Definition tls_listeners (tls : IngressTLS) (ing : Ingress) : list Listener :=
  let mode := TLSModeTerminate in
  let selector := NamespacesFromSelector in
  (fun h : string =>
     {| Listener_Name := listenerPrefix ++ Ingress_GetUID ing;
        Listener_Hostname := Some h;
        Listener_Port := 443%Z;
        Listener_Protocol := HTTPSProtocolType;
        Listener_TLS :=
          Some {| GatewayTLSConfig_Mode := Some mode;
                  GatewayTLSConfig_CertificateRefs :=
                    [ {| SecretObjectReference_Group := ptr "";
                         SecretObjectReference_Kind := ptr "Secret";
                         SecretObjectReference_Name := IngressTLS_SecretName tls;
                         SecretObjectReference_Namespace :=
                           Some (IngressTLS_SecretNamespace tls) |} ] |};
        Listener_AllowedRoutes :=
          Some {| AllowedRoutes_Namespaces :=
                    Some {| RouteNamespaces_From := Some selector;
                            RouteNamespaces_Selector :=
                              Some {| LabelSelector_MatchLabels :=
                                        {[ LabelMetadataName := Ingress_Namespace ing ]};
                                      LabelSelector_MatchExpressions := [] |} |};
                  AllowedRoutes_Kinds := [] |} |})
    <$> IngressTLS_Hosts tls.

Section reconciler.

Variable LongestHost : list string -> string.

(** [resources.MakeReferenceGrant] is not among the sources: a parameter. *)
Variable MakeReferenceGrant :
  Context -> Ingress -> PartialObjectMetadata -> PartialObjectMetadata -> ReferenceGrant.

Variable rt : GoRuntime.

(** reconcileHTTPRoute reconciles the desired HTTPRoute. *)
Definition reconcileHTTPRoute (ing : Ingress) (desired : HTTPRoute)
  : M (HTTPRoute + error) :=
  r ← httprouteLister_Get (Ingress_Namespace ing)
        (ObjectMeta_Name (HTTPRoute_ObjectMeta desired));
  match r with
  | inr err =>
      if IsNotFound err then
        r ← gwapiclient_HTTPRoutes_Create
              (ObjectMeta_Namespace (HTTPRoute_ObjectMeta desired)) desired;
        match r with
        | inr err =>
            _ ← Eventf "Warning" "CreationFailed" "Failed to create HTTPRoute: %v"
                  [ArgE err];
            mret (inr (ErrorfW "failed to create HTTPRoute: %w" [] err))
        | inl httpRoute =>
            _ ← Eventf "Normal" "Created" "Created HTTPRoute %q"
                  [ArgS (ObjectMeta_Name (HTTPRoute_ObjectMeta httpRoute))];
            mret (inl httpRoute)
        end
      else mret (inr err)
  | inl httpRoute =>
      if negb (Semantic_DeepEqual (HTTPRoute_Spec httpRoute) (HTTPRoute_Spec desired))
         || negb (Semantic_DeepEqual
                    (ObjectMeta_Annotations (HTTPRoute_ObjectMeta httpRoute))
                    (ObjectMeta_Annotations (HTTPRoute_ObjectMeta desired)))
         || negb (Semantic_DeepEqual
                    (ObjectMeta_Labels (HTTPRoute_ObjectMeta httpRoute))
                    (ObjectMeta_Labels (HTTPRoute_ObjectMeta desired)))
      then
        (* Don't modify the informers copy. *)
        let om := HTTPRoute_ObjectMeta httpRoute in
        let origin :=
          {| HTTPRoute_ObjectMeta :=
               {| ObjectMeta_Name := ObjectMeta_Name om;
                  ObjectMeta_Namespace := ObjectMeta_Namespace om;
                  ObjectMeta_UID := ObjectMeta_UID om;
                  ObjectMeta_ResourceVersion := ObjectMeta_ResourceVersion om;
                  ObjectMeta_Labels := ObjectMeta_Labels (HTTPRoute_ObjectMeta desired);
                  ObjectMeta_Annotations :=
                    ObjectMeta_Annotations (HTTPRoute_ObjectMeta desired);
                  ObjectMeta_OwnerReferences := ObjectMeta_OwnerReferences om |};
             HTTPRoute_Spec := HTTPRoute_Spec desired |} in
        r ← gwapiclient_HTTPRoutes_Update
              (ObjectMeta_Namespace (HTTPRoute_ObjectMeta origin)) origin;
        match r with
        | inr err =>
            _ ← Eventf "Warning" "UpdateFailed" "Failed to update HTTPRoute: %v"
                  [ArgE err];
            mret (inr (ErrorfW "failed to update HTTPRoute: %w" [] err))
        | inl updated => mret (inl updated)
        end
      else mret (inl httpRoute)
  end.

(** reconcileWorkloadRoute reconciles the HTTPRoute for the workload traffic.
    A panic of the builder is not recovered: it ends the call before the
    store is read. *)
Definition reconcileWorkloadRoute (ctx : Context) (ing : Ingress) (rule : IngressRule)
  : M (go_result (HTTPRoute + error)) :=
  let gatewayConfig := Context_Gateways ctx (IngressRule_Visibility rule) in
  let sectionName :=
    (* If http > https redirect is enabled, this route must only be bound to
       the TLS listener on the gateway. *)
    if String.eqb (IngressSpec_HTTPOption (Ingress_Spec ing)) HTTPOptionRedirected
       && String.eqb (IngressRule_Visibility rule) IngressVisibilityExternalIP
    then Some (listenerPrefix ++ Ingress_GetUID ing)
    else None in
  let gatewayRef :=
    {| ParentReference_Group := Some GroupVersion_Group;
       ParentReference_Kind := pointer_String "Gateway";
       ParentReference_Namespace :=
         Some (NamespacedName_Namespace (GatewayConfig_Gateway gatewayConfig));
       ParentReference_Name := NamespacedName_Name (GatewayConfig_Gateway gatewayConfig);
       ParentReference_SectionName := sectionName;
       ParentReference_Port := None |} in
  match MakeHTTPRoute LongestHost rt ing rule gatewayRef with
  | Panics => mret Panics
  | Returns (inr err) => mret (Returns (inr err))
  | Returns (inl desired) => r ← reconcileHTTPRoute ing desired; mret (Returns r)
  end.

(** reconcileRedirectHTTPRoute reconciles the HTTPRoute for the http->https
    redirect.  The TLS test comes before the builder is called. *)
Definition reconcileRedirectHTTPRoute (ctx : Context) (ing : Ingress)
    (rule : IngressRule) : M (go_result (HTTPRoute + error)) :=
  if bool_decide (IngressSpec_TLS (Ingress_Spec ing) = [])
     || Nat.eqb (length (IngressSpec_TLS (Ingress_Spec ing))) 0
  then
    mret (Returns (inr (Errorf "no TLS configuration provided in `spec.tls`. Failed to create HTTPRoute for HTTPS redirection" [])))
  else
    let gatewayConfig := Context_Gateways ctx (IngressRule_Visibility rule) in
    let gatewayRef :=
      {| ParentReference_Group := Some GroupVersion_Group;
         ParentReference_Kind := pointer_String "Gateway";
         ParentReference_Namespace :=
           Some (NamespacedName_Namespace (GatewayConfig_Gateway gatewayConfig));
         ParentReference_Name :=
           NamespacedName_Name (GatewayConfig_Gateway gatewayConfig);
         (* Redirect routes must only be bound on the http listener of the gateway *)
         ParentReference_SectionName :=
           Some (GatewayConfig_HTTPListenerName gatewayConfig);
         ParentReference_Port := None |} in
    match MakeRedirectHTTPRoute LongestHost rt ing rule gatewayRef with
    | Panics => mret Panics
    | Returns (inr err) => mret (Returns (inr err))
    | Returns (inl desired) => r ← reconcileHTTPRoute ing desired; mret (Returns r)
    end.

(** The start of reconcileTLS: the grant it wants, from the external
    gateway to the secret of the TLS block. *)
Definition reconcileTLS_desired (ctx : Context) (tls : IngressTLS) (ing : Ingress)
  : ReferenceGrant :=
  let externalGw := Context_Gateways ctx IngressVisibilityExternalIP in
  let meta (name namespace : string) : ObjectMeta :=
    {| ObjectMeta_Name := name;
       ObjectMeta_Namespace := namespace;
       ObjectMeta_UID := "";
       ObjectMeta_ResourceVersion := "";
       ObjectMeta_Labels := ∅;
       ObjectMeta_Annotations := ∅;
       ObjectMeta_OwnerReferences := [] |} in
  let gateway :=
    {| PartialObjectMetadata_TypeMeta :=
         {| TypeMeta_Kind := "Gateway"; TypeMeta_APIVersion := GroupVersion_String |};
       PartialObjectMetadata_ObjectMeta :=
         meta (NamespacedName_Name (GatewayConfig_Gateway externalGw))
              (NamespacedName_Namespace (GatewayConfig_Gateway externalGw)) |} in
  let secret :=
    {| PartialObjectMetadata_TypeMeta :=
         {| TypeMeta_Kind := "Secret"; TypeMeta_APIVersion := "v1" |};
       PartialObjectMetadata_ObjectMeta :=
         meta (IngressTLS_SecretName tls) (IngressTLS_SecretNamespace tls) |} in
  MakeReferenceGrant ctx ing secret gateway.

(** reconcileTLS converges the ReferenceGrant for the TLS secret and derives
    the listeners of the TLS block. *)
Definition reconcileTLS (ctx : Context) (tls : IngressTLS) (ing : Ingress)
  : M (list Listener + error) :=
  let desired := reconcileTLS_desired ctx tls ing in
  let desiredName := ObjectMeta_Name (ReferenceGrant_ObjectMeta desired) in
  let desiredNamespace := ObjectMeta_Namespace (ReferenceGrant_ObjectMeta desired) in
  (* From the ownership test on: [rp] was read or has just been created. *)
  let owned (rp : ReferenceGrant) : M (list Listener + error) :=
    if negb (IsControlledBy (ReferenceGrant_ObjectMeta rp) (Ingress_ObjectMeta ing)) then
      _ ← Eventf "Warning" "NotOwned" "ReferenceGrant %s not owned by this object"
            [ArgS desiredName];
      mret (inr (Errorf "ReferenceGrant %s not owned by %s"
                   [ObjectMeta_Name (ReferenceGrant_ObjectMeta rp); Ingress_Name ing]))
    else if negb (Semantic_DeepEqual (ReferenceGrant_Spec rp) (ReferenceGrant_Spec desired))
    then
      let update :=
        {| ReferenceGrant_ObjectMeta := ReferenceGrant_ObjectMeta rp;
           ReferenceGrant_Spec := ReferenceGrant_Spec desired |} in
      r ← gwapiclient_ReferenceGrants_Update
            (ObjectMeta_Namespace (ReferenceGrant_ObjectMeta update)) update;
      match r with
      | inr err =>
          _ ← Eventf "Warning" "UpdateFailed" "Failed to update ReferenceGrant: %v"
                [ArgE err];
          mret (inr (ErrorfW "failed to update ReferenceGrant: %w" [] err))
      | inl _ => mret (inl (tls_listeners tls ing))
      end
    else mret (inl (tls_listeners tls ing)) in
  r ← referenceGrantLister_Get desiredNamespace desiredName;
  match r with
  | inr err =>
      if IsNotFound err then
        r ← gwapiclient_ReferenceGrants_Create desiredNamespace desired;
        match r with
        | inr err =>
            _ ← Eventf "Warning" "CreationFailed" "Failed to create ReferenceGrant: %v"
                  [ArgE err];
            mret (inr (ErrorfW "failed to create ReferenceGrant: %w" [] err))
        | inl rp => owned rp
        end
      else mret (inr err)
  | inl rp => owned rp
  end.

(** reconcileGatewayListeners merges the listeners into the gateway's. *)
Definition reconcileGatewayListeners (listeners : list Listener) (ing : Ingress)
    (gwName : NamespacedName) : M (option error) :=
  r ← gatewayLister_Get (NamespacedName_Namespace gwName) (NamespacedName_Name gwName);
  match r with
  | inr err =>
      if IsNotFound err then
        _ ← Eventf "Warning" "GatewayMissing" "Unable to update Gateway %s"
              [ArgS (NamespacedName_String gwName)];
        mret (Some (ErrorfW "Gateway %s does not exist: %w"
                      [NamespacedName_String gwName] err))
      else mret (Some err)
  | inl gw =>
      let st := merge_listeners rt listeners (GatewaySpec_Listeners (Gateway_Spec gw)) in
      let update := Gateway_with_Listeners gw (ms_update st) in
      if ms_updated st then
        r ← gwapiclient_Gateways_Update
              (ObjectMeta_Namespace (Gateway_ObjectMeta update)) update;
        match r with
        | inr err =>
            _ ← Eventf "Warning" "GatewayUpdateFailed" "Failed to update Gateway %s: %v"
                  [ArgS (NamespacedName_String gwName); ArgE err];
            mret (Some (ErrorfW "failed to update Gateway %s/%s: %w"
                          [ObjectMeta_Namespace (Gateway_ObjectMeta update);
                           ObjectMeta_Name (Gateway_ObjectMeta update)] err))
        | inl _ => mret None
        end
      else mret None
  end.

(** clearGatewayListeners removes the listeners of the ingress from the
    gateway. *)
Definition clearGatewayListeners (ing : Ingress) (gwName : NamespacedName)
  : M (go_result (option error)) :=
  r ← gatewayLister_Get (NamespacedName_Namespace gwName) (NamespacedName_Name gwName);
  match r with
  | inr err =>
      if IsNotFound err then
        (* Nothing to clean up, all done! *)
        mret (Returns None)
      else mret (Returns (Some err))
  | inl gw =>
      let listenerName := listenerPrefix ++ Ingress_GetUID ing in
      let numListeners := length (GatewaySpec_Listeners (Gateway_Spec gw)) in
      match clear_loop listenerName numListeners (GatewaySpec_Listeners (Gateway_Spec gw)) with
      | None => mret Panics
      | Some ls =>
          let update := Gateway_with_Listeners gw ls in
          if negb (Nat.eqb (length ls) numListeners) then
            r ← gwapiclient_Gateways_Update
                  (ObjectMeta_Namespace (Gateway_ObjectMeta update)) update;
            match r with
            | inr err =>
                _ ← Eventf "Warning" "GatewayUpdateFailed"
                      "Failed to remove Listener from Gateway %s: %v"
                      [ArgS (NamespacedName_String gwName); ArgE err];
                mret (Returns (Some (ErrorfW "failed to update Gateway %s/%s: %w"
                                [ObjectMeta_Namespace (Gateway_ObjectMeta update);
                                 ObjectMeta_Name (Gateway_ObjectMeta update)] err)))
            | inl _ => mret (Returns None)
            end
          else mret (Returns None)
      end
  end.

End reconciler.

(* ===================================================================== *)
(** ** Definitions the statements are written with *)
(* ===================================================================== *)

(* From here on [++] is the append of lists; strings are appended by [+:+]. *)
Local Open Scope list_scope.

(** *** Sorting and header lists *)

(** Insertion sort by [less], the way [sort.Sort] sorts a short slice: an
    element moves down past the elements it is less than. *)
Fixpoint insert_by {A : Type} (less : A -> A -> bool) (x : A) (l : list A) : list A :=
  match l with
  | [] => [x]
  | y :: l' => if less y x then y :: insert_by less x l' else x :: y :: l'
  end.

Definition insertion_sort {A : Type} (less : A -> A -> bool) (l : list A) : list A :=
  foldr (insert_by less) [] l.

(** The comparison an interface makes of two elements: [Less] on the slice
    of the two. *)
Definition less_of {A : Type} (I : sort_Interface A) (x y : A) : bool :=
  match Less I [x; y] 0 1 with
  | Returns b => b
  | Panics => false
  end.

(** Two ways to sort by an interface: insertion sort, and insertion sort of
    the slice read backwards (on elements that compare equal it yields
    another permutation). *)
Definition interface_sort {A : Type} (I : sort_Interface A) (l : list A) : list A :=
  insertion_sort (less_of I) l.

Definition backward_interface_sort {A : Type} (I : sort_Interface A) (l : list A)
  : list A :=
  insertion_sort (less_of I) (reverse l).

(** Sorted by the name in strictly descending order. *)
Definition descending {A : Type} (key : A -> string) (l : list A) : Prop :=
  StronglySorted (fun x y => string_gt (key x) (key y) = true) l.

(** The header the builder makes of an entry of [AppendHeaders], and the
    header match it makes of an entry of [Headers]. *)
Definition header_of (kv : string * string) : HTTPHeader :=
  {| HTTPHeader_Name := kv.1; HTTPHeader_Value := kv.2 |}.

Definition header_match_of (kv : string * HeaderMatch) : HTTPHeaderMatch :=
  {| HTTPHeaderMatch_Type := ptr HeaderMatchExact;
     HTTPHeaderMatch_Name := kv.1;
     HTTPHeaderMatch_Value := HeaderMatch_Exact kv.2 |}.

(** Every header list the builder emits is in descending order of names. *)
Definition rule_headers_descending (r : HTTPRouteRule) : Prop :=
  (forall f hf, f ∈ HTTPRouteRule_Filters r ->
     HTTPRouteFilter_RequestHeaderModifier f = Some hf ->
     descending HTTPHeader_Name (HTTPHeaderFilter_Set hf))
  /\ (forall b f hf, b ∈ HTTPRouteRule_BackendRefs r ->
        f ∈ HTTPBackendRef_Filters b ->
        HTTPRouteFilter_RequestHeaderModifier f = Some hf ->
        descending HTTPHeader_Name (HTTPHeaderFilter_Set hf))
  /\ (forall m, m ∈ HTTPRouteRule_Matches r ->
        descending HTTPHeaderMatch_Name (HTTPRouteMatch_Headers m)).

(** *** The listener merge *)

(** What the scan leaves of the lookup: the names met are deleted. *)
Definition remaining (lmap : gmap string Listener) (ls : list Listener)
  : gmap string Listener :=
  foldl (fun m l => delete (Listener_Name l) m) lmap ls.

(** What the scan makes of the gateway's listeners: an entry whose name is
    still in the lookup becomes the desired one, any other entry stays. *)
Fixpoint scanned (lmap : gmap string Listener) (ls : list Listener) : list Listener :=
  match ls with
  | [] => []
  | l :: ls' =>
      default l (lmap !! Listener_Name l)
        :: scanned (delete (Listener_Name l) lmap) ls'
  end.

(** The state of the merge when the scan reaches index [i]. *)
Definition merge_state_at (listeners gwListeners : list Listener) (i : nat)
  : merge_state :=
  scan_from 0 (take i gwListeners)
    {| ms_lmap := build_lmap listeners; ms_update := gwListeners; ms_updated := false |}.

(** The entries that do not carry the name. *)
Definition others (listenerName : string) (ls : list Listener) : list Listener :=
  filter (fun l => Listener_Name l <> listenerName) ls.

(** *** The store *)

(** The store holds every route under the namespace and name it carries. *)
Definition httproutes_wf (w : Cluster) : Prop :=
  forall ns name r,
    httproutes w !! (ns, name) = Some r ->
    ObjectMeta_Namespace (HTTPRoute_ObjectMeta r) = ns
    /\ ObjectMeta_Name (HTTPRoute_ObjectMeta r) = name.

(** The error of a result, if it is one. *)
Definition err_of {A : Type} (r : (A + error) * Cluster) : option error :=
  match r.1 with inr err => Some err | inl _ => None end.

(** The error a call comes back with from the store and reactor of [w0]. *)
Definition call_error (c : Call) (w0 : Cluster) : option error :=
  match c with
  | Lister_HTTPRoutes_Get ns name => err_of (httprouteLister_Get ns name w0)
  | HTTPRoutes_Create ns obj => err_of (gwapiclient_HTTPRoutes_Create ns obj w0)
  | HTTPRoutes_Update ns obj => err_of (gwapiclient_HTTPRoutes_Update ns obj w0)
  | Lister_ReferenceGrants_Get ns name => err_of (referenceGrantLister_Get ns name w0)
  | ReferenceGrants_Create ns obj => err_of (gwapiclient_ReferenceGrants_Create ns obj w0)
  | ReferenceGrants_Update ns obj => err_of (gwapiclient_ReferenceGrants_Update ns obj w0)
  | Lister_Gateways_Get ns name => err_of (gatewayLister_Get ns name w0)
  | Gateways_Update ns obj => err_of (gwapiclient_Gateways_Update ns obj w0)
  | Recorder_Eventf _ _ _ _ => None
  end.

(** [e] is a store error of the run from [w] to [w']: one of the calls of
    the run comes back with an error from the store and reactor of [w], and
    [e] is that error or wraps it. *)
Definition store_error (w w' : Cluster) (e : error) : Prop :=
  exists c err,
    c ∈ new_calls w w'
    /\ call_error c w = Some err
    /\ (e = err \/ exists format args, e = ErrorfW format args err).

(** The error of reconcileRedirectHTTPRoute for an ingress without TLS. *)
Definition noTLSError : error :=
  Errorf "no TLS configuration provided in `spec.tls`. Failed to create HTTPRoute for HTTPS redirection" [].

(** *** Concrete objects for the examples *)

Definition meta0 (name namespace uid : string) : ObjectMeta :=
  {| ObjectMeta_Name := name;
     ObjectMeta_Namespace := namespace;
     ObjectMeta_UID := uid;
     ObjectMeta_ResourceVersion := "";
     ObjectMeta_Labels := ∅;
     ObjectMeta_Annotations := ∅;
     ObjectMeta_OwnerReferences := [] |}.

Definition ex_path : HTTPIngressPath :=
  {| HTTPIngressPath_Path := "";
     HTTPIngressPath_RewriteHost := "";
     HTTPIngressPath_Headers :=
       {[ "tag" := {| HeaderMatch_Exact := "blue" |};
          "env" := {| HeaderMatch_Exact := "prod" |} ]};
     HTTPIngressPath_Splits :=
       [ {| IngressBackendSplit_IngressBackend :=
              {| IngressBackend_ServiceNamespace := "ns";
                 IngressBackend_ServiceName := "svc1";
                 IngressBackend_ServicePort := IntVal 80 |};
            IngressBackendSplit_Percent := 100;
            IngressBackendSplit_AppendHeaders :=
              {[ "a" := "1"; "c" := "3"; "b" := "2" ]} |} ];
     HTTPIngressPath_AppendHeaders := Some {[ "x" := "1"; "y" := "2" ]} |}.

Definition ex_rule : IngressRule :=
  {| IngressRule_Hosts := ["a.example.com"];
     IngressRule_Visibility := IngressVisibilityExternalIP;
     IngressRule_HTTP := Some {| HTTPIngressRuleValue_Paths := [ex_path] |} |}.

(** A rule that has not been through validation: its HTTP block is nil. *)
Definition ex_rule_without_HTTP : IngressRule :=
  {| IngressRule_Hosts := ["a.example.com"];
     IngressRule_Visibility := IngressVisibilityExternalIP;
     IngressRule_HTTP := None |}.

Definition ex_tls (hosts : list string) : IngressTLS :=
  {| IngressTLS_Hosts := hosts;
     IngressTLS_SecretName := "tls-secret";
     IngressTLS_SecretNamespace := "ns" |}.

Definition ex_ing (tls : list IngressTLS) : Ingress :=
  {| Ingress_ObjectMeta := meta0 "ing" "ns" "uid-1";
     Ingress_Spec :=
       {| IngressSpec_TLS := tls;
          IngressSpec_Rules := [ex_rule];
          IngressSpec_HTTPOption := "Enabled" |} |}.

Definition ex_ref : ParentReference :=
  {| ParentReference_Group := Some GroupVersion_Group;
     ParentReference_Kind := Some "Gateway";
     ParentReference_Namespace := Some "istio-system";
     ParentReference_Name := "gw";
     ParentReference_SectionName := None;
     ParentReference_Port := None |}.

Definition ex_LongestHost (hosts : list string) : string :=
  foldl (fun best h => if Nat.ltb (String.length best) (String.length h) then h else best)
        "" hosts.

Definition ex_foreign : Listener :=
  {| Listener_Name := "http";
     Listener_Hostname := None;
     Listener_Port := 80%Z;
     Listener_Protocol := "HTTP";
     Listener_TLS := None;
     Listener_AllowedRoutes := None |}.

Definition ex_foreign_b : Listener :=
  {| Listener_Name := "https-default";
     Listener_Hostname := None;
     Listener_Port := 443%Z;
     Listener_Protocol := "HTTPS";
     Listener_TLS := None;
     Listener_AllowedRoutes := None |}.

Definition ex_listener (host : string) : Listener :=
  {| Listener_Name := "kni-uid-1";
     Listener_Hostname := Some host;
     Listener_Port := 443%Z;
     Listener_Protocol := "HTTPS";
     Listener_TLS :=
       Some {| GatewayTLSConfig_Mode := Some "Terminate";
               GatewayTLSConfig_CertificateRefs :=
                 [ {| SecretObjectReference_Group := Some "";
                      SecretObjectReference_Kind := Some "Secret";
                      SecretObjectReference_Name := "tls-secret";
                      SecretObjectReference_Namespace := Some "ns" |} ] |};
     Listener_AllowedRoutes :=
       Some {| AllowedRoutes_Namespaces :=
                 Some {| RouteNamespaces_From := Some "Selector";
                         RouteNamespaces_Selector :=
                           Some {| LabelSelector_MatchLabels :=
                                     {[ "kubernetes.io/metadata.name" := "ns" ]};
                                   LabelSelector_MatchExpressions := [] |} |};
               AllowedRoutes_Kinds := [] |} |}.

Definition ex_gateway (ls : list Listener) : Gateway :=
  {| Gateway_ObjectMeta := meta0 "gw" "istio-system" "gw-uid";
     Gateway_Spec :=
       {| GatewaySpec_GatewayClassName := "istio"; GatewaySpec_Listeners := ls |} |}.

Definition ex_gwName : NamespacedName :=
  {| NamespacedName_Namespace := "istio-system"; NamespacedName_Name := "gw" |}.

Definition ex_ctx : Context :=
  {| Context_Gateways := fun _ =>
       {| GatewayConfig_Gateway := ex_gwName;
          GatewayConfig_HTTPListenerName := "http" |} |}.

(** A grant for the secret, owned by the ingress. *)
Definition ex_MakeReferenceGrant (ctx : Context) (ing : Ingress)
    (to from : PartialObjectMetadata) : ReferenceGrant :=
  {| ReferenceGrant_ObjectMeta :=
       {| ObjectMeta_Name :=
            ObjectMeta_Name (PartialObjectMetadata_ObjectMeta to) +:+ "-grant";
          ObjectMeta_Namespace :=
            ObjectMeta_Namespace (PartialObjectMetadata_ObjectMeta to);
          ObjectMeta_UID := "";
          ObjectMeta_ResourceVersion := "";
          ObjectMeta_Labels := ∅;
          ObjectMeta_Annotations := ∅;
          ObjectMeta_OwnerReferences := [ NewControllerRef ing ] |};
     ReferenceGrant_Spec :=
       {| ReferenceGrantSpec_From :=
            [ {| ReferenceGrantFrom_Group := GroupVersion_Group;
                 ReferenceGrantFrom_Kind :=
                   TypeMeta_Kind (PartialObjectMetadata_TypeMeta from);
                 ReferenceGrantFrom_Namespace :=
                   ObjectMeta_Namespace (PartialObjectMetadata_ObjectMeta from) |} ];
          ReferenceGrantSpec_To :=
            [ {| ReferenceGrantTo_Group := "";
                 ReferenceGrantTo_Kind :=
                   TypeMeta_Kind (PartialObjectMetadata_TypeMeta to);
                 ReferenceGrantTo_Name :=
                   Some (ObjectMeta_Name (PartialObjectMetadata_ObjectMeta to)) |} ] |} |}.

Definition ex_cluster (routes : list HTTPRoute) (grants : list ReferenceGrant)
    (ls : list Listener) : Cluster :=
  {| httproutes :=
       list_to_map ((fun r => ((ObjectMeta_Namespace (HTTPRoute_ObjectMeta r),
                                ObjectMeta_Name (HTTPRoute_ObjectMeta r)), r))
                      <$> routes);
     referencegrants :=
       list_to_map ((fun r => ((ObjectMeta_Namespace (ReferenceGrant_ObjectMeta r),
                                ObjectMeta_Name (ReferenceGrant_ObjectMeta r)), r))
                      <$> grants);
     gateways := {[ ("istio-system", "gw") := ex_gateway ls ]};
     reactor := fun _ => None;
     calls := [] |}.

(** A grant of the derived name that another ingress controls. *)
Definition ex_foreign_grant : ReferenceGrant :=
  {| ReferenceGrant_ObjectMeta :=
       {| ObjectMeta_Name := "tls-secret-grant";
          ObjectMeta_Namespace := "ns";
          ObjectMeta_UID := "grant-uid";
          ObjectMeta_ResourceVersion := "7";
          ObjectMeta_Labels := ∅;
          ObjectMeta_Annotations := ∅;
          ObjectMeta_OwnerReferences :=
            [ {| OwnerReference_APIVersion := "networking.internal.knative.dev/v1alpha1";
                 OwnerReference_Kind := "Ingress";
                 OwnerReference_Name := "other";
                 OwnerReference_UID := "uid-2";
                 OwnerReference_Controller := Some true;
                 OwnerReference_BlockOwnerDeletion := Some true |} ] |};
     ReferenceGrant_Spec :=
       {| ReferenceGrantSpec_From := []; ReferenceGrantSpec_To := [] |} |}.

(** A cluster whose store refuses every write. *)
Definition ex_refusing_cluster : Cluster :=
  {| httproutes := ∅;
     referencegrants := ∅;
     gateways := {[ ("istio-system", "gw") := ex_gateway [ex_foreign] ]};
     reactor := fun c =>
       if is_write c then Some (StatusError "InternalError" "etcd unavailable")
       else None;
     calls := [] |}.

(** *** What the builder emits *)

(** The map a list of headers stands for: the value set for each name. *)
Definition headers_map (hs : list HTTPHeader) : gmap string string :=
  list_to_map ((fun h => (HTTPHeader_Name h, HTTPHeader_Value h)) <$> hs).

(** The map a list of header matches stands for: the exact value asked of
    each name. *)
Definition header_matches_map (hs : list HTTPHeaderMatch) : gmap string HeaderMatch :=
  list_to_map ((fun h => (HTTPHeaderMatch_Name h,
                          {| HeaderMatch_Exact := HTTPHeaderMatch_Value h |})) <$> hs).

(** The filter that sets the headers [hs] on the request. *)
Definition header_modifier (hs : list HTTPHeader) : HTTPRouteFilter :=
  {| HTTPRouteFilter_Type := HTTPRouteFilterRequestHeaderModifier;
     HTTPRouteFilter_RequestHeaderModifier :=
       Some {| HTTPHeaderFilter_Set := hs;
               HTTPHeaderFilter_Add := [];
               HTTPHeaderFilter_Remove := [] |};
     HTTPRouteFilter_RequestRedirect := None |}.

(** [hs] lists the entries of [m], each once. *)
Definition lists_headers (m : gmap string string) (hs : list HTTPHeader) : Prop :=
  headers_map hs = m /\ length hs = size m.

(** The backend a split becomes: the split's service (no namespace) at the
    split's percentage. *)
Definition backend_of_split (split : IngressBackendSplit) (b : HTTPBackendRef) : Prop :=
  let ref := BackendRef_BackendObjectReference (HTTPBackendRef_BackendRef b) in
  let percent := IngressBackendSplit_Percent split in
  BackendObjectReference_Name ref
  = IngressBackend_ServiceName (IngressBackendSplit_IngressBackend split)
  /\ BackendObjectReference_Kind ref = Some "Service"
  /\ BackendObjectReference_Group ref = Some EmptyString
  /\ BackendObjectReference_Namespace ref = None
  /\ BackendRef_Weight (HTTPBackendRef_BackendRef b) = Some (int32 percent)
  /\ ((- 2 ^ 31 <= percent < 2 ^ 31)%Z ->
      BackendRef_Weight (HTTPBackendRef_BackendRef b) = Some percent).

(** The filter of a redirect rule: to https on port 443, moved permanently. *)
Definition redirect_filter : HTTPRouteFilter :=
  {| HTTPRouteFilter_Type := HTTPRouteFilterRequestRedirect;
     HTTPRouteFilter_RequestHeaderModifier := None;
     HTTPRouteFilter_RequestRedirect :=
       Some {| HTTPRequestRedirectFilter_Scheme := Some "https";
               HTTPRequestRedirectFilter_Hostname := None;
               HTTPRequestRedirectFilter_Port := Some 443%Z;
               HTTPRequestRedirectFilter_StatusCode := Some 301%Z |} |}.

(** A rule with the fields the builder does not read blanked: the paths'
    [RewriteHost] and the backends' [ServiceNamespace]. *)
Definition blank_unread_split (split : IngressBackendSplit) : IngressBackendSplit :=
  {| IngressBackendSplit_IngressBackend :=
       {| IngressBackend_ServiceNamespace := EmptyString;
          IngressBackend_ServiceName :=
            IngressBackend_ServiceName (IngressBackendSplit_IngressBackend split);
          IngressBackend_ServicePort :=
            IngressBackend_ServicePort (IngressBackendSplit_IngressBackend split) |};
     IngressBackendSplit_Percent := IngressBackendSplit_Percent split;
     IngressBackendSplit_AppendHeaders := IngressBackendSplit_AppendHeaders split |}.

Definition blank_unread_path (path : HTTPIngressPath) : HTTPIngressPath :=
  {| HTTPIngressPath_Path := HTTPIngressPath_Path path;
     HTTPIngressPath_RewriteHost := EmptyString;
     HTTPIngressPath_Headers := HTTPIngressPath_Headers path;
     HTTPIngressPath_Splits := blank_unread_split <$> HTTPIngressPath_Splits path;
     HTTPIngressPath_AppendHeaders := HTTPIngressPath_AppendHeaders path |}.

Definition blank_unread (rule : IngressRule) : IngressRule :=
  {| IngressRule_Hosts := IngressRule_Hosts rule;
     IngressRule_Visibility := IngressRule_Visibility rule;
     IngressRule_HTTP :=
       (fun http =>
          {| HTTPIngressRuleValue_Paths :=
               blank_unread_path <$> HTTPIngressRuleValue_Paths http |})
         <$> IngressRule_HTTP rule |}.

(** *** The two sort interfaces *)

(** [less] on the indices of [h] panics exactly outside the slice and is,
    inside, the strict descending order of the names: it holds of [i] and
    [j] when the name at [i] is greater, never both ways, transitively, and
    two entries neither of which is less than the other carry one name. *)
Definition orders_by_name {A : Type} (key : A -> string)
    (less : list A -> nat -> nat -> go_result bool) (h : list A) : Prop :=
  (forall i j, less h i j = Panics <-> ~ (i < length h /\ j < length h))
  /\ (forall i j x y, h !! i = Some x -> h !! j = Some y ->
        (less h i j = Returns true <-> string_gt (key x) (key y) = true))
  /\ (forall i, less h i i <> Returns true)
  /\ (forall i j, less h i j = Returns true -> less h j i = Returns false)
  /\ (forall i j k, less h i j = Returns true -> less h j k = Returns true ->
        less h i k = Returns true)
  /\ (forall i j x y, h !! i = Some x -> h !! j = Some y ->
        less h i j = Returns false -> less h j i = Returns false ->
        key x = key y).

(** [swap] at [i] and [j] panics exactly outside the slice and, inside,
    exchanges the two entries: the length and every other entry stay, the
    result is a permutation, and a second swap undoes the first. *)
Definition exchanges {A : Type} (swap : list A -> nat -> nat -> go_result (list A))
    (h : list A) (i j : nat) : Prop :=
  (~ (i < length h /\ j < length h) -> swap h i j = Panics)
  /\ (i < length h /\ j < length h ->
      exists h',
        swap h i j = Returns h'
        /\ length h' = length h
        /\ h' !! i = h !! j
        /\ h' !! j = h !! i
        /\ (forall k, k <> i -> k <> j -> h' !! k = h !! k)
        /\ h' ≡ₚ h
        /\ swap h' i j = Returns h).

(** *** The listeners after the merge *)

(** Every listener of the lookup is filed under its own name. *)
Definition lmap_named (lmap : gmap string Listener) : Prop :=
  forall n l, lmap !! n = Some l -> Listener_Name l = n.

(** [l] is the first entry of [ls] that carries its name. *)
Definition first_of_name (ls : list Listener) (l : Listener) : Prop :=
  exists i, ls !! i = Some l
            /\ forall j l', j < i -> ls !! j = Some l' -> Listener_Name l' <> Listener_Name l.

(** The error of reconcileGatewayListeners for a gateway the lister does not
    find: it wraps the lister's error. *)
Definition gatewayMissingError (gwName : NamespacedName) (err : error) : error :=
  ErrorfW "Gateway %s does not exist: %w" [NamespacedName_String gwName] err.

(** *** Converging a route and a grant *)

(** The route reconcileHTTPRoute sends in an update: the observed route with
    the spec, the annotations and the labels of the desired one. *)
Definition HTTPRoute_origin (observed desired : HTTPRoute) : HTTPRoute :=
  {| HTTPRoute_ObjectMeta :=
       {| ObjectMeta_Name := ObjectMeta_Name (HTTPRoute_ObjectMeta observed);
          ObjectMeta_Namespace := ObjectMeta_Namespace (HTTPRoute_ObjectMeta observed);
          ObjectMeta_UID := ObjectMeta_UID (HTTPRoute_ObjectMeta observed);
          ObjectMeta_ResourceVersion :=
            ObjectMeta_ResourceVersion (HTTPRoute_ObjectMeta observed);
          ObjectMeta_Labels := ObjectMeta_Labels (HTTPRoute_ObjectMeta desired);
          ObjectMeta_Annotations := ObjectMeta_Annotations (HTTPRoute_ObjectMeta desired);
          ObjectMeta_OwnerReferences :=
            ObjectMeta_OwnerReferences (HTTPRoute_ObjectMeta observed) |};
     HTTPRoute_Spec := HTTPRoute_Spec desired |}.

(** The observed route agrees with the desired one in spec, annotations and
    labels. *)
Definition HTTPRoute_in_sync (observed desired : HTTPRoute) : Prop :=
  HTTPRoute_Spec observed = HTTPRoute_Spec desired
  /\ ObjectMeta_Annotations (HTTPRoute_ObjectMeta observed)
     = ObjectMeta_Annotations (HTTPRoute_ObjectMeta desired)
  /\ ObjectMeta_Labels (HTTPRoute_ObjectMeta observed)
     = ObjectMeta_Labels (HTTPRoute_ObjectMeta desired).

#[local] Instance HTTPRoute_in_sync_dec (observed desired : HTTPRoute) :
  Decision (HTTPRoute_in_sync observed desired).
Proof. unfold HTTPRoute_in_sync. apply _. Defined.

(** A listener reconcileTLS derives for a TLS block: it carries the name of
    the ingress's listeners, terminates TLS on port 443 with the block's
    secret, and admits routes from the ingress's namespace only. *)
Definition serves_tls (tls : IngressTLS) (ing : Ingress) (l : Listener) : Prop :=
  Listener_Name l = listenerPrefix +:+ Ingress_GetUID ing
  /\ Listener_Port l = 443%Z
  /\ Listener_Protocol l = HTTPSProtocolType
  /\ Listener_TLS l
     = Some {| GatewayTLSConfig_Mode := Some TLSModeTerminate;
               GatewayTLSConfig_CertificateRefs :=
                 [ {| SecretObjectReference_Group := Some EmptyString;
                      SecretObjectReference_Kind := Some "Secret";
                      SecretObjectReference_Name := IngressTLS_SecretName tls;
                      SecretObjectReference_Namespace :=
                        Some (IngressTLS_SecretNamespace tls) |} ] |}
  /\ exists allowed namespaces selector,
       Listener_AllowedRoutes l = Some allowed
       /\ AllowedRoutes_Kinds allowed = []
       /\ AllowedRoutes_Namespaces allowed = Some namespaces
       /\ RouteNamespaces_From namespaces = Some NamespacesFromSelector
       /\ RouteNamespaces_Selector namespaces = Some selector
       /\ LabelSelector_MatchLabels selector
          = {[ LabelMetadataName := Ingress_Namespace ing ]}
       /\ LabelSelector_MatchExpressions selector = [].

(** The error of reconcileTLS for a grant another object controls. *)
Definition notOwnedError (rp : ReferenceGrant) (ing : Ingress) : error :=
  Errorf "ReferenceGrant %s not owned by %s"
    [ObjectMeta_Name (ReferenceGrant_ObjectMeta rp); Ingress_Name ing].

(** reconcileTLS from the ownership test on, on the grant [rp] that was read
    or has just been created and the cluster [w0]. *)
Definition reconcileTLS_owned (desired : ReferenceGrant) (tls : IngressTLS)
    (ing : Ingress) (rp : ReferenceGrant) (w0 : Cluster)
  : (list Listener + error) * Cluster :=
  if IsControlledBy (ReferenceGrant_ObjectMeta rp) (Ingress_ObjectMeta ing) then
    if bool_decide (ReferenceGrant_Spec rp = ReferenceGrant_Spec desired) then
      (inl (tls_listeners tls ing), w0)
    else
      let update := {| ReferenceGrant_ObjectMeta := ReferenceGrant_ObjectMeta rp;
                       ReferenceGrant_Spec := ReferenceGrant_Spec desired |} in
      match gwapiclient_ReferenceGrants_Update
              (ObjectMeta_Namespace (ReferenceGrant_ObjectMeta rp)) update w0 with
      | (inr err, w2) =>
          (inr (ErrorfW "failed to update ReferenceGrant: %w" [] err),
           log (Recorder_Eventf "Warning" "UpdateFailed"
                  "Failed to update ReferenceGrant: %v" [ArgE err]) w2)
      | (inl _, w2) => (inl (tls_listeners tls ing), w2)
      end
  else
    (inr (notOwnedError rp ing),
     log (Recorder_Eventf "Warning" "NotOwned"
            "ReferenceGrant %s not owned by this object"
            [ArgS (ObjectMeta_Name (ReferenceGrant_ObjectMeta desired))]) w0).

(** *** The store, continued *)

(** The store holds every gateway under the namespace and name it carries. *)
Definition gateways_wf (w : Cluster) : Prop :=
  forall ns name gw,
    gateways w !! (ns, name) = Some gw ->
    ObjectMeta_Namespace (Gateway_ObjectMeta gw) = ns
    /\ ObjectMeta_Name (Gateway_ObjectMeta gw) = name.

(** The store holds every grant under the namespace and name it carries. *)
Definition referencegrants_wf (w : Cluster) : Prop :=
  forall ns name rg,
    referencegrants w !! (ns, name) = Some rg ->
    ObjectMeta_Namespace (ReferenceGrant_ObjectMeta rg) = ns
    /\ ObjectMeta_Name (ReferenceGrant_ObjectMeta rg) = name.

(** *** More concrete objects *)

(** The name of a gateway the store does not hold. *)
Definition ex_absent : NamespacedName :=
  {| NamespacedName_Namespace := "istio-system"; NamespacedName_Name := "absent" |}.

(** A route of the desired name whose spec is out of date and that another
    object controls. *)
Definition ex_stale : HTTPRoute :=
  {| HTTPRoute_ObjectMeta :=
       {| ObjectMeta_Name := "a.example.com";
          ObjectMeta_Namespace := "ns";
          ObjectMeta_UID := "route-uid";
          ObjectMeta_ResourceVersion := "41";
          ObjectMeta_Labels := ∅;
          ObjectMeta_Annotations := ∅;
          ObjectMeta_OwnerReferences :=
            [ {| OwnerReference_APIVersion := "networking.internal.knative.dev/v1alpha1";
                 OwnerReference_Kind := "Ingress";
                 OwnerReference_Name := "other";
                 OwnerReference_UID := "uid-2";
                 OwnerReference_Controller := Some true;
                 OwnerReference_BlockOwnerDeletion := Some true |} ] |};
     HTTPRoute_Spec :=
       {| HTTPRouteSpec_ParentRefs := [];
          HTTPRouteSpec_Hostnames := ["old.example.com"];
          HTTPRouteSpec_Rules := [] |} |}.

(** An ingress with labels and annotations of its own, among them a stale
    visibility label and the annotation kubectl leaves. *)
Definition ex_labelled_ing : Ingress :=
  {| Ingress_ObjectMeta :=
       {| ObjectMeta_Name := "ing";
          ObjectMeta_Namespace := "ns";
          ObjectMeta_UID := "uid-1";
          ObjectMeta_ResourceVersion := "";
          ObjectMeta_Labels :=
            {[ "app" := "demo"; VisibilityLabelKey := "cluster-local" ]};
          ObjectMeta_Annotations :=
            {[ "note" := "keep"; LastAppliedConfigAnnotation := "{}" ]};
          ObjectMeta_OwnerReferences := [] |};
     Ingress_Spec :=
       {| IngressSpec_TLS := [];
          IngressSpec_Rules := [ex_rule];
          IngressSpec_HTTPOption := "Enabled" |} |}.

(** The HTTP block of [ex_rule]. *)
Definition ex_http : HTTPIngressRuleValue :=
  {| HTTPIngressRuleValue_Paths := [ex_path] |}.

(** An ingress with http to https redirection. *)
Definition ex_redirected_ing : Ingress :=
  {| Ingress_ObjectMeta := meta0 "ing" "ns" "uid-1";
     Ingress_Spec :=
       {| IngressSpec_TLS := [ex_tls ["a.example.com"]];
          IngressSpec_Rules := [ex_rule];
          IngressSpec_HTTPOption := HTTPOptionRedirected |} |}.

(* ===================================================================== *)
(** ** Two Go runtimes *)
(* ===================================================================== *)

Lemma insert_by_perm {A : Type} (less : A -> A -> bool) (x : A) (l : list A) :
  insert_by less x l ≡ₚ x :: l.
Proof.
  induction l as [|y l IH]; simpl; [done|].
  destruct (less y x); [|done].
  rewrite IH. apply Permutation_swap.
Qed.

Lemma insertion_sort_perm {A : Type} (less : A -> A -> bool) (l : list A) :
  insertion_sort less l ≡ₚ l.
Proof.
  induction l as [|x l IH]; simpl; [done|].
  rewrite insert_by_perm. by f_equiv.
Qed.

Lemma insert_by_sorted {A : Type} (less : A -> A -> bool) (x : A) (l : list A) :
  StrictWeakOrder less ->
  Sorted (fun a b => less b a = false) l ->
  Sorted (fun a b => less b a = false) (insert_by less x l).
Proof.
  intros Hswo. induction l as [|y l IH]; intros Hs; simpl.
  - repeat constructor.
  - destruct (less y x) eqn:Hyx.
    + assert (less x y = false) as Hxy.
      { destruct (less x y) eqn:Hxy; [|done].
        pose proof (swo_trans _ Hswo _ _ _ Hxy Hyx) as Hxx.
        by rewrite (swo_irrefl _ Hswo) in Hxx. }
      apply Sorted_inv in Hs as [Hs Hhd].
      constructor; [by apply IH|].
      destruct l as [|z l]; simpl.
      * by constructor.
      * destruct (less z x); constructor; [|done].
        by apply HdRel_inv in Hhd.
    + constructor; [done|]. by constructor.
Qed.

Lemma insertion_sort_sorted {A : Type} (less : A -> A -> bool) (l : list A) :
  StrictWeakOrder less ->
  Sorted (fun a b => less b a = false) (insertion_sort less l).
Proof.
  intros Hswo. induction l as [|x l IH]; simpl.
  - constructor.
  - by apply insert_by_sorted.
Qed.

Lemma insertion_sort_ext {A : Type} (f g : A -> A -> bool) (l : list A) :
  (forall x y, f x y = g x y) -> insertion_sort f l = insertion_sort g l.
Proof.
  intros Hfg. induction l as [|x l IH]; simpl; [done|].
  rewrite IH. generalize (insertion_sort g l). intros l'.
  induction l' as [|y l' IH']; simpl; [done|].
  by rewrite Hfg, IH'.
Qed.

Lemma less_of_slice_interface {A : Type} (I : sort_Interface A) (lt : A -> A -> bool)
    (x y : A) :
  slice_interface I lt -> less_of I x y = lt x y.
Proof.
  intros HI. unfold less_of.
  by rewrite (si_Less I lt HI [x; y] 0 1 x y).
Qed.

Lemma interface_sort_perm {A : Type} (I : sort_Interface A) (lt : A -> A -> bool)
    (l : list A) :
  slice_interface I lt -> interface_sort I l ≡ₚ l.
Proof. intros _. apply insertion_sort_perm. Qed.

Lemma interface_sort_sorted {A : Type} (I : sort_Interface A) (lt : A -> A -> bool)
    (l : list A) :
  slice_interface I lt ->
  Sorted (fun x y => lt y x = false) (interface_sort I l).
Proof.
  intros HI. unfold interface_sort.
  rewrite (insertion_sort_ext (less_of I) lt)
    by (intros x y; by apply less_of_slice_interface).
  apply insertion_sort_sorted, (si_order I lt HI).
Qed.

Lemma backward_interface_sort_perm {A : Type} (I : sort_Interface A)
    (lt : A -> A -> bool) (l : list A) :
  slice_interface I lt -> backward_interface_sort I l ≡ₚ l.
Proof.
  intros _. unfold backward_interface_sort.
  by rewrite insertion_sort_perm, reverse_Permutation.
Qed.

Lemma backward_interface_sort_sorted {A : Type} (I : sort_Interface A)
    (lt : A -> A -> bool) (l : list A) :
  slice_interface I lt ->
  Sorted (fun x y => lt y x = false) (backward_interface_sort I l).
Proof. intros HI. by apply (interface_sort_sorted I lt (reverse l)). Qed.

(** A runtime that visits a map in the order of [map_to_list]. *)
Definition forwardRuntime : GoRuntime :=
  {| mapiter := fun V _ m => map_to_list m;
     mapiter_perm := fun V _ m => reflexivity (map_to_list m);
     sort_Sort := @interface_sort;
     sort_Sort_perm := @interface_sort_perm;
     sort_Sort_sorted := @interface_sort_sorted |}.

Lemma reverse_map_to_list_perm (V : Type) (s : site) (m : gmap string V) :
  reverse (map_to_list m) ≡ₚ map_to_list m.
Proof. apply reverse_Permutation. Qed.

(** A runtime that visits a map in the opposite order and sorts with the
    other permutation. *)
Definition backwardRuntime : GoRuntime :=
  {| mapiter := fun V _ m => reverse (map_to_list m);
     mapiter_perm := reverse_map_to_list_perm;
     sort_Sort := @backward_interface_sort;
     sort_Sort_perm := @backward_interface_sort_perm;
     sort_Sort_sorted := @backward_interface_sort_sorted |}.

(** The two sorts differ on names that compare equal; header names out of a
    map never do. *)
Example sorts_differ_on_ties :
  sort_Sort forwardRuntime HTTPHeaderList
    [ {| HTTPHeader_Name := "a"; HTTPHeader_Value := "1" |};
      {| HTTPHeader_Name := "a"; HTTPHeader_Value := "2" |} ]
  <> sort_Sort backwardRuntime HTTPHeaderList
       [ {| HTTPHeader_Name := "a"; HTTPHeader_Value := "1" |};
         {| HTTPHeader_Name := "a"; HTTPHeader_Value := "2" |} ].
Proof. vm_compute. discriminate. Qed.

(* ===================================================================== *)
(** ** The order of header names *)
(* ===================================================================== *)

Lemma string_gt_lt (a b : string) :
  string_gt a b = true <-> String_as_OT.lt b a.
Proof.
  unfold string_gt. rewrite <- String_as_OT.cmp_lt.
  unfold String_as_OT.cmp. rewrite (String.compare_antisym a b).
  destruct (String.compare b a); simpl; split; congruence.
Qed.

Lemma string_gt_irrefl (a : string) : string_gt a a = false.
Proof.
  destruct (string_gt a a) eqn:H; [|done].
  apply string_gt_lt in H. by apply String_as_OT.lt_not_eq in H.
Qed.

Lemma string_gt_trans (a b c : string) :
  string_gt a b = true -> string_gt b c = true -> string_gt a c = true.
Proof.
  rewrite !string_gt_lt. intros Hab Hbc. by eapply String_as_OT.lt_trans.
Qed.

(** The order is total: two names neither of which is greater are equal. *)
Lemma string_gt_total (a b : string) :
  string_gt a b = false -> string_gt b a = false -> a = b.
Proof.
  unfold string_gt. rewrite (String.compare_antisym a b).
  destruct (String.compare b a) eqn:H; simpl; try done.
  intros _ _. symmetry. by apply String_as_OT.cmp_eq.
Qed.

Lemma string_gt_asym (a b : string) :
  string_gt a b = true -> string_gt b a = false.
Proof.
  intros Hab. destruct (string_gt b a) eqn:Hba; [|done].
  pose proof (string_gt_trans _ _ _ Hab Hba) as H.
  by rewrite string_gt_irrefl in H.
Qed.

(** A comparison of elements by the name they carry is a strict weak order. *)
Lemma by_name_StrictWeakOrder {A : Type} (key : A -> string) :
  StrictWeakOrder (fun x y => string_gt (key x) (key y)).
Proof.
  split.
  - intros x. apply string_gt_irrefl.
  - intros x y z. apply string_gt_trans.
  - intros x y z Hxy Hyx Hyz Hzy.
    rewrite (string_gt_total _ _ Hxy Hyx), (string_gt_total _ _ Hyz Hzy).
    by rewrite string_gt_irrefl.
Qed.

(** The two interfaces of the builder are slices compared by name. *)
Lemma HTTPHeaderList_slice_interface :
  slice_interface HTTPHeaderList
    (fun x y => string_gt (HTTPHeader_Name x) (HTTPHeader_Name y)).
Proof.
  split.
  - apply (by_name_StrictWeakOrder HTTPHeader_Name).
  - done.
  - intros h i j x y Hi Hj. simpl. unfold HTTPHeaderList_Less. by rewrite Hi, Hj.
  - intros h i j x y Hi Hj. simpl. unfold HTTPHeaderList_Swap. by rewrite Hi, Hj.
Qed.

Lemma HTTPHeaderMatchList_slice_interface :
  slice_interface HTTPHeaderMatchList
    (fun x y => string_gt (HTTPHeaderMatch_Name x) (HTTPHeaderMatch_Name y)).
Proof.
  split.
  - apply (by_name_StrictWeakOrder HTTPHeaderMatch_Name).
  - done.
  - intros h i j x y Hi Hj. simpl. unfold HTTPHeaderMatchList_Less. by rewrite Hi, Hj.
  - intros h i j x y Hi Hj. simpl. unfold HTTPHeaderMatchList_Swap. by rewrite Hi, Hj.
Qed.

(** "Not less the other way round" is "greater or equal", a transitive
    relation. *)
Lemma not_gt_trans {A : Type} (key : A -> string) :
  Transitive (fun x y : A => string_gt (key y) (key x) = false).
Proof.
  intros x y z Hxy Hyz.
  destruct (string_gt (key z) (key x)) eqn:Hzx; [|done].
  destruct (string_gt (key x) (key y)) eqn:Hxy'.
  - pose proof (string_gt_trans _ _ _ Hzx Hxy') as H. congruence.
  - rewrite (string_gt_total _ _ Hxy' Hxy) in Hzx. congruence.
Qed.

(** A list without two elements of one name that is sorted by "not less the
    other way round" is strictly descending. *)
Lemma sorted_nodup_descending {A : Type} (key : A -> string) (l : list A) :
  NoDup (key <$> l) ->
  Sorted (fun x y => string_gt (key y) (key x) = false) l ->
  StronglySorted (fun x y => string_gt (key x) (key y) = true) l.
Proof.
  intros Hnd Hs.
  apply Sorted_StronglySorted in Hs; [|exact (not_gt_trans key)].
  induction Hs as [|x l Hs IH Hall]; [constructor|].
  rewrite fmap_cons in Hnd. apply NoDup_cons in Hnd as [Hx Hnd].
  constructor; [by apply IH|].
  rewrite List.Forall_forall in Hall. apply List.Forall_forall.
  intros y Hy. specialize (Hall y Hy).
  destruct (string_gt (key x) (key y)) eqn:Hxy; [done|].
  exfalso. apply Hx. rewrite (string_gt_total _ _ Hxy Hall).
  apply list_elem_of_fmap. exists y. split; [done|]. by apply list_elem_of_In.
Qed.

(** Two strictly descending lists with the same elements are equal. *)
Lemma descending_perm_eq {A : Type} (key : A -> string) (l1 l2 : list A) :
  StronglySorted (fun x y => string_gt (key x) (key y) = true) l1 ->
  StronglySorted (fun x y => string_gt (key x) (key y) = true) l2 ->
  l1 ≡ₚ l2 ->
  l1 = l2.
Proof.
  intros H1. revert l2. induction H1 as [|a t1 H1 IH Ha]; intros l2 H2 Hp.
  - by apply Permutation_nil_l in Hp.
  - destruct H2 as [|b t2 H2 Hb].
    + by apply Permutation_nil_r in Hp.
    + assert (a = b) as ->.
      { assert (a ∈ b :: t2) as Hain by (rewrite <- Hp; left).
        assert (b ∈ a :: t1) as Hbin by (rewrite Hp; left).
        apply elem_of_cons in Hain as [?|Hain]; [done|].
        apply elem_of_cons in Hbin as [?|Hbin]; [done|].
        rewrite List.Forall_forall in Ha, Hb.
        pose proof (Ha b (proj1 (list_elem_of_In _ _) Hbin)) as Hab.
        pose proof (Hb a (proj1 (list_elem_of_In _ _) Hain)) as Hba.
        apply string_gt_asym in Hab. congruence. }
      f_equal. apply IH; [done|]. by apply Permutation_cons_inv in Hp.
Qed.

(** The list a header map is turned into: sorted, it is strictly descending
    and does not depend on the runtime. *)
Section header_lists.

Context {V A : Type} (mk : string * V -> A) (key : A -> string).
Context (I : sort_Interface A).
Hypothesis key_mk : forall kv, key (mk kv) = kv.1.
Hypothesis I_by_key : slice_interface I (fun x y => string_gt (key x) (key y)).

Lemma range_keys_NoDup (rt : GoRuntime) (s : site) (m : gmap string V) :
  NoDup (key <$> (sort_Sort rt I (mk <$> mapiter rt s m))).
Proof.
  rewrite (sort_Sort_perm rt _ _ _ _ I_by_key), mapiter_perm.
  rewrite <- list_fmap_compose.
  replace ((key ∘ mk) <$> map_to_list m) with ((map_to_list m).*1).
  - apply NoDup_fst_map_to_list.
  - apply list_fmap_ext. intros i kv _. simpl. by rewrite key_mk.
Qed.

Lemma sorted_range_descending (rt : GoRuntime) (s : site) (m : gmap string V) :
  StronglySorted (fun x y => string_gt (key x) (key y) = true)
    (sort_Sort rt I (mk <$> mapiter rt s m)).
Proof.
  apply sorted_nodup_descending.
  - apply range_keys_NoDup.
  - apply (sort_Sort_sorted rt _ _ _ _ I_by_key).
Qed.

Lemma sorted_range_runtime_independent (rt1 rt2 : GoRuntime) (s1 s2 : site)
    (m : gmap string V) :
  sort_Sort rt1 I (mk <$> mapiter rt1 s1 m)
  = sort_Sort rt2 I (mk <$> mapiter rt2 s2 m).
Proof.
  apply (descending_perm_eq key); try apply sorted_range_descending.
  by rewrite !(sort_Sort_perm _ _ _ _ _ I_by_key), !mapiter_perm.
Qed.

End header_lists.

(* ===================================================================== *)
(** ** The builder: determinism and the absence of a failure path *)
(* ===================================================================== *)

Lemma headers_runtime_independent (rt1 rt2 : GoRuntime) (s1 s2 : site)
    (m : gmap string string) :
  sort_Sort rt1 HTTPHeaderList (header_of <$> mapiter rt1 s1 m)
  = sort_Sort rt2 HTTPHeaderList (header_of <$> mapiter rt2 s2 m).
Proof.
  exact (sorted_range_runtime_independent header_of HTTPHeader_Name HTTPHeaderList
           (fun _ => eq_refl) HTTPHeaderList_slice_interface rt1 rt2 s1 s2 m).
Qed.

Lemma headers_descending (rt : GoRuntime) (s : site) (m : gmap string string) :
  descending HTTPHeader_Name
    (sort_Sort rt HTTPHeaderList (header_of <$> mapiter rt s m)).
Proof.
  exact (sorted_range_descending header_of HTTPHeader_Name HTTPHeaderList
           (fun _ => eq_refl) HTTPHeaderList_slice_interface rt s m).
Qed.

Lemma header_matches_runtime_independent (rt1 rt2 : GoRuntime) (s1 s2 : site)
    (m : gmap string HeaderMatch) :
  sort_Sort rt1 HTTPHeaderMatchList (header_match_of <$> mapiter rt1 s1 m)
  = sort_Sort rt2 HTTPHeaderMatchList (header_match_of <$> mapiter rt2 s2 m).
Proof.
  exact (sorted_range_runtime_independent header_match_of HTTPHeaderMatch_Name
           HTTPHeaderMatchList (fun _ => eq_refl)
           HTTPHeaderMatchList_slice_interface rt1 rt2 s1 s2 m).
Qed.

Lemma header_matches_descending (rt : GoRuntime) (s : site)
    (m : gmap string HeaderMatch) :
  descending HTTPHeaderMatch_Name
    (sort_Sort rt HTTPHeaderMatchList (header_match_of <$> mapiter rt s m)).
Proof.
  exact (sorted_range_descending header_match_of HTTPHeaderMatch_Name
           HTTPHeaderMatchList (fun _ => eq_refl)
           HTTPHeaderMatchList_slice_interface rt s m).
Qed.

Lemma matchesFromRulePath_runtime_independent (rt1 rt2 : GoRuntime) (s1 s2 : site)
    (path : HTTPIngressPath) :
  matchesFromRulePath rt1 s1 path = matchesFromRulePath rt2 s2 path.
Proof.
  unfold matchesFromRulePath.
  by rewrite (header_matches_runtime_independent rt1 rt2 s1 s2).
Qed.

Lemma makeHTTPRouteRule_runtime_independent (rt1 rt2 : GoRuntime) (rule : IngressRule) :
  makeHTTPRouteRule rt1 rule = makeHTTPRouteRule rt2 rule.
Proof.
  unfold makeHTTPRouteRule. destruct (IngressRule_HTTP rule) as [http|]; [|done].
  f_equal. apply imap_ext. intros i path _. simpl.
  f_equal.
  - apply matchesFromRulePath_runtime_independent.
  - destruct (HTTPIngressPath_AppendHeaders path) as [appendHeaders|]; [|done].
    by rewrite (headers_runtime_independent rt1 rt2 [i; 0] [i; 0]).
  - apply imap_ext. intros j split _. simpl.
    by rewrite (headers_runtime_independent rt1 rt2 [i; 1; j] [i; 1; j]).
Qed.

Lemma makeRedirectHTTPRouteRule_runtime_independent (rt1 rt2 : GoRuntime)
    (rule : IngressRule) :
  makeRedirectHTTPRouteRule rt1 rule = makeRedirectHTTPRouteRule rt2 rule.
Proof.
  unfold makeRedirectHTTPRouteRule.
  destruct (IngressRule_HTTP rule) as [http|]; [|done].
  f_equal. apply imap_ext. intros i path _. simpl.
  f_equal. apply matchesFromRulePath_runtime_independent.
Qed.

Lemma makeHTTPRouteRule_descending (rt : GoRuntime) (rule : IngressRule)
    (rules : list HTTPRouteRule) (r : HTTPRouteRule) :
  makeHTTPRouteRule rt rule = Returns rules -> r ∈ rules -> rule_headers_descending r.
Proof.
  unfold makeHTTPRouteRule.
  destruct (IngressRule_HTTP rule) as [http|]; [|done].
  intros [= <-] Hr.
  apply list_elem_of_lookup in Hr as [i Hr].
  rewrite list_lookup_imap in Hr.
  destruct (HTTPIngressRuleValue_Paths http !! i) as [path|]; [|done].
  simpl in Hr. injection Hr as <-. repeat split; simpl.
  - intros f hf Hf Hhf.
    destruct (HTTPIngressPath_AppendHeaders path) as [appendHeaders|].
    + apply list_elem_of_singleton in Hf as ->. simpl in Hhf.
      injection Hhf as <-. simpl. apply headers_descending.
    + by apply elem_of_nil in Hf.
  - intros b f hf Hb Hf Hhf.
    apply list_elem_of_lookup in Hb as [j Hb].
    rewrite list_lookup_imap in Hb.
    destruct (HTTPIngressPath_Splits path !! j) as [split|]; [|done].
    simpl in Hb. injection Hb as <-. simpl in Hf.
    apply list_elem_of_singleton in Hf as ->. simpl in Hhf.
    injection Hhf as <-. simpl. apply headers_descending.
  - intros m Hm. unfold matchesFromRulePath in Hm.
    apply list_elem_of_singleton in Hm as ->. simpl.
    apply header_matches_descending.
Qed.

(** C7.  Building the desired HTTPRoute (and its redirect variant) under any
    two Go runtimes, that is for any two orders in which the header maps are
    enumerated and any two sorting permutations, yields the same resource;
    and every header-injection list and header-match list of the result is
    sorted by header name in strictly descending order.  (The rules are
    built unless the rule's HTTP block is nil; the builders then panic under
    either runtime.) *)
Theorem MakeHTTPRoute_deterministic
    (LongestHost : list string -> string) (rt1 rt2 : GoRuntime)
    (ing : Ingress) (rule : IngressRule) (gatewayRef : ParentReference) :
  MakeHTTPRoute LongestHost rt1 ing rule gatewayRef
  = MakeHTTPRoute LongestHost rt2 ing rule gatewayRef
  /\ MakeRedirectHTTPRoute LongestHost rt1 ing rule gatewayRef
     = MakeRedirectHTTPRoute LongestHost rt2 ing rule gatewayRef
  /\ match makeHTTPRouteRule rt1 rule with
     | Returns rules => forall r, r ∈ rules -> rule_headers_descending r
     | Panics => IngressRule_HTTP rule = None
     end
  /\ match makeRedirectHTTPRouteRule rt1 rule with
     | Returns rules =>
         forall r m, r ∈ rules -> m ∈ HTTPRouteRule_Matches r ->
           descending HTTPHeaderMatch_Name (HTTPRouteMatch_Headers m)
     | Panics => IngressRule_HTTP rule = None
     end.
Proof.
  split; [|split; [|split]].
  - unfold MakeHTTPRoute, makeHTTPRouteSpec.
    by rewrite (makeHTTPRouteRule_runtime_independent rt1 rt2).
  - unfold MakeRedirectHTTPRoute, makeRedirectHTTPRouteSpec.
    by rewrite (makeRedirectHTTPRouteRule_runtime_independent rt1 rt2).
  - destruct (makeHTTPRouteRule rt1 rule) as [rules|] eqn:Hrules.
    + intros r Hr. by eapply makeHTTPRouteRule_descending.
    + unfold makeHTTPRouteRule in Hrules.
      by destruct (IngressRule_HTTP rule).
  - unfold makeRedirectHTTPRouteRule.
    destruct (IngressRule_HTTP rule) as [http|]; [|done].
    intros r m Hr Hm.
    apply list_elem_of_lookup in Hr as [i Hr].
    rewrite list_lookup_imap in Hr.
    destruct (HTTPIngressRuleValue_Paths http !! i) as [path|]; [|done].
    simpl in Hr. injection Hr as <-. simpl in Hm.
    unfold matchesFromRulePath in Hm.
    apply list_elem_of_singleton in Hm as ->. simpl.
    apply header_matches_descending.
Qed.

(** The two runtimes at hand enumerate the split's headers in different
    orders, and the routes built under them are the same. *)
Lemma MakeHTTPRoute_deterministic_witness :
  mapiter forwardRuntime [0; 1; 0] ({[ "a" := "1"; "c" := "3"; "b" := "2" ]} : gmap string string)
  <> mapiter backwardRuntime [0; 1; 0] {[ "a" := "1"; "c" := "3"; "b" := "2" ]}
  /\ MakeHTTPRoute ex_LongestHost forwardRuntime (ex_ing []) ex_rule ex_ref
     = MakeHTTPRoute ex_LongestHost backwardRuntime (ex_ing []) ex_rule ex_ref
  /\ exists route,
       MakeHTTPRoute ex_LongestHost forwardRuntime (ex_ing []) ex_rule ex_ref
       = Returns (inl route).
Proof.
  split; [|split].
  - vm_compute. discriminate.
  - apply MakeHTTPRoute_deterministic.
  - eexists. reflexivity.
Defined.

(** What the builders do by the rule's HTTP block: the route they return
    when it is set, the panic when it is nil. *)
Lemma MakeHTTPRoute_with_HTTP
    (LongestHost : list string -> string) (rt : GoRuntime)
    (ing : Ingress) (rule : IngressRule) (gatewayRef : ParentReference)
    (http : HTTPIngressRuleValue) :
  IngressRule_HTTP rule = Some http ->
  exists rules meta,
    makeHTTPRouteRule rt rule = Returns rules
    /\ length rules = length (HTTPIngressRuleValue_Paths http)
    /\ MakeHTTPRoute LongestHost rt ing rule gatewayRef
       = Returns (inl {| HTTPRoute_ObjectMeta := meta;
                         HTTPRoute_Spec :=
                           {| HTTPRouteSpec_Hostnames := IngressRule_Hosts rule;
                              HTTPRouteSpec_Rules := rules;
                              HTTPRouteSpec_ParentRefs := [gatewayRef] |} |}).
Proof.
  intros Hhttp. unfold MakeHTTPRoute, makeHTTPRouteSpec, makeHTTPRouteRule.
  rewrite Hhttp. eexists _, _. split; [done|]. split; [|done].
  by rewrite length_imap.
Qed.

Lemma MakeRedirectHTTPRoute_with_HTTP
    (LongestHost : list string -> string) (rt : GoRuntime)
    (ing : Ingress) (rule : IngressRule) (gatewayRef : ParentReference)
    (http : HTTPIngressRuleValue) :
  IngressRule_HTTP rule = Some http ->
  exists rules meta,
    makeRedirectHTTPRouteRule rt rule = Returns rules
    /\ length rules = length (HTTPIngressRuleValue_Paths http)
    /\ MakeRedirectHTTPRoute LongestHost rt ing rule gatewayRef
       = Returns (inl {| HTTPRoute_ObjectMeta := meta;
                         HTTPRoute_Spec :=
                           {| HTTPRouteSpec_Hostnames := IngressRule_Hosts rule;
                              HTTPRouteSpec_Rules := rules;
                              HTTPRouteSpec_ParentRefs := [gatewayRef] |} |}).
Proof.
  intros Hhttp.
  unfold MakeRedirectHTTPRoute, makeRedirectHTTPRouteSpec, makeRedirectHTTPRouteRule.
  rewrite Hhttp. eexists _, _. split; [done|]. split; [|done].
  by rewrite length_imap.
Qed.

Lemma MakeHTTPRoute_without_HTTP
    (LongestHost : list string -> string) (rt : GoRuntime)
    (ing : Ingress) (rule : IngressRule) (gatewayRef : ParentReference) :
  IngressRule_HTTP rule = None ->
  makeHTTPRouteRule rt rule = Panics
  /\ makeHTTPRouteSpec rt rule gatewayRef = Panics
  /\ MakeHTTPRoute LongestHost rt ing rule gatewayRef = Panics.
Proof.
  intros Hhttp. unfold MakeHTTPRoute, makeHTTPRouteSpec, makeHTTPRouteRule.
  by rewrite Hhttp.
Qed.

Lemma MakeRedirectHTTPRoute_without_HTTP
    (LongestHost : list string -> string) (rt : GoRuntime)
    (ing : Ingress) (rule : IngressRule) (gatewayRef : ParentReference) :
  IngressRule_HTTP rule = None ->
  makeRedirectHTTPRouteRule rt rule = Panics
  /\ makeRedirectHTTPRouteSpec rt rule gatewayRef = Panics
  /\ MakeRedirectHTTPRoute LongestHost rt ing rule gatewayRef = Panics.
Proof.
  intros Hhttp.
  unfold MakeRedirectHTTPRoute, makeRedirectHTTPRouteSpec, makeRedirectHTTPRouteRule.
  by rewrite Hhttp.
Qed.

(** C10, as the code has it.  The builders have one failure path, and it is
    not an error result: on a rule whose HTTP block is nil MakeHTTPRoute and
    MakeRedirectHTTPRoute panic, where makeHTTPRouteRule and
    makeRedirectHTTPRouteRule dereference it, and return nothing.  On every
    other input, whatever the ingress, its TLS block included, and the
    gateway reference are, both return a route and a nil error, with one rule
    per path of the block.  On no input does either return a non-nil
    error. *)
Theorem Make_routes_return_or_panic
    (LongestHost : list string -> string) (rt : GoRuntime)
    (ing : Ingress) (rule : IngressRule) (gatewayRef : ParentReference) :
  match IngressRule_HTTP rule with
  | Some http =>
      (exists route,
          MakeHTTPRoute LongestHost rt ing rule gatewayRef = Returns (inl route)
          /\ length (HTTPRouteSpec_Rules (HTTPRoute_Spec route))
             = length (HTTPIngressRuleValue_Paths http))
      /\ (exists route,
             MakeRedirectHTTPRoute LongestHost rt ing rule gatewayRef
             = Returns (inl route)
             /\ length (HTTPRouteSpec_Rules (HTTPRoute_Spec route))
                = length (HTTPIngressRuleValue_Paths http))
  | None =>
      MakeHTTPRoute LongestHost rt ing rule gatewayRef = Panics
      /\ MakeRedirectHTTPRoute LongestHost rt ing rule gatewayRef = Panics
  end
  /\ (forall err,
        MakeHTTPRoute LongestHost rt ing rule gatewayRef <> Returns (inr err)
        /\ MakeRedirectHTTPRoute LongestHost rt ing rule gatewayRef
           <> Returns (inr err)).
Proof.
  destruct (IngressRule_HTTP rule) as [http|] eqn:Hhttp.
  - destruct (MakeHTTPRoute_with_HTTP LongestHost rt ing rule gatewayRef http Hhttp)
      as (rules & meta & _ & Hlen & ->).
    destruct (MakeRedirectHTTPRoute_with_HTTP LongestHost rt ing rule gatewayRef
                http Hhttp) as (rules' & meta' & _ & Hlen' & ->).
    split; [split; eexists; (split; [reflexivity|done])|].
    intros err. split; discriminate.
  - destruct (MakeHTTPRoute_without_HTTP LongestHost rt ing rule gatewayRef Hhttp)
      as (_ & _ & ->).
    destruct (MakeRedirectHTTPRoute_without_HTTP LongestHost rt ing rule gatewayRef
                Hhttp) as (_ & _ & ->).
    split; [done|]. intros err. split; discriminate.
Qed.

(** The claim as the spec words it, a nil error for every input, fails on a
    rule without an HTTP block: neither builder returns. *)
Lemma Make_routes_panic_without_HTTP :
  IngressRule_HTTP ex_rule_without_HTTP = None
  /\ MakeHTTPRoute ex_LongestHost forwardRuntime (ex_ing []) ex_rule_without_HTTP ex_ref
     = Panics
  /\ MakeRedirectHTTPRoute ex_LongestHost forwardRuntime (ex_ing [])
       ex_rule_without_HTTP ex_ref
     = Panics
  /\ ~ (exists route,
          MakeHTTPRoute ex_LongestHost forwardRuntime (ex_ing [])
            ex_rule_without_HTTP ex_ref = Returns (inl route))
  /\ ~ (exists route,
          MakeRedirectHTTPRoute ex_LongestHost forwardRuntime (ex_ing [])
            ex_rule_without_HTTP ex_ref = Returns (inl route)).
Proof.
  repeat split; try reflexivity; intros [route Hroute]; discriminate Hroute.
Qed.

(** MakeRedirectHTTPRoute builds the redirect route of an ingress that has no
    TLS block: the builder does not test the block. *)
Example MakeRedirectHTTPRoute_without_TLS :
  IngressSpec_TLS (Ingress_Spec (ex_ing [])) = []
  /\ exists route,
       MakeRedirectHTTPRoute ex_LongestHost forwardRuntime (ex_ing []) ex_rule ex_ref
       = Returns (inl route)
       /\ ObjectMeta_Name (HTTPRoute_ObjectMeta route) = "a.example.com-redirect".
Proof.
  split; [reflexivity|]. eexists. split; reflexivity.
Qed.

(* ===================================================================== *)
(** ** The listener merge of reconcileGatewayListeners *)
(* ===================================================================== *)

Lemma Semantic_DeepEqual_true {A : Type} `{EqDecision A} (a b : A) :
  Semantic_DeepEqual a b = true -> a = b.
Proof. unfold Semantic_DeepEqual. apply bool_decide_eq_true. Qed.

Lemma Semantic_DeepEqual_false {A : Type} `{EqDecision A} (a b : A) :
  Semantic_DeepEqual a b = false -> a <> b.
Proof. unfold Semantic_DeepEqual. apply bool_decide_eq_false. Qed.

Lemma Semantic_DeepEqual_refl {A : Type} `{EqDecision A} (a : A) :
  Semantic_DeepEqual a a = true.
Proof. unfold Semantic_DeepEqual. by apply bool_decide_eq_true. Qed.

Lemma build_lmap_lookup_None (listeners : list Listener) (n : string) :
  n ∉ (Listener_Name <$> listeners) -> build_lmap listeners !! n = None.
Proof.
  unfold build_lmap.
  assert (forall (m : gmap string Listener),
             m !! n = None -> n ∉ (Listener_Name <$> listeners) ->
             foldl (fun lmap l => <[Listener_Name l := l]> lmap) m listeners !! n = None)
    as Hgen.
  { induction listeners as [|l ls IH]; intros m Hm Hn; simpl; [done|].
    rewrite fmap_cons in Hn. apply not_elem_of_cons in Hn as [Hne Hn].
    apply IH; [|done]. by rewrite lookup_insert_ne. }
  intros Hn. by apply Hgen.
Qed.

Lemma remaining_lookup (lmap : gmap string Listener) (ls : list Listener) (n : string) :
  remaining lmap ls !! n
  = if bool_decide (n ∈ (Listener_Name <$> ls)) then None else lmap !! n.
Proof.
  unfold remaining. revert lmap. induction ls as [|l ls IH]; intros lmap; simpl.
  - done.
  - rewrite IH.
    destruct (decide (n = Listener_Name l)) as [->|Hne].
    + rewrite lookup_delete_eq.
      rewrite (bool_decide_eq_true_2 (Listener_Name l ∈ _ :: _)); [|by left].
      by destruct (bool_decide _).
    + rewrite lookup_delete_ne by done.
      destruct (decide (n ∈ (Listener_Name <$> ls))) as [Hin|Hnin].
      * rewrite !bool_decide_eq_true_2; [done| by right | done].
      * rewrite !bool_decide_eq_false_2; [done| | done].
        intros [?|?]%elem_of_cons; done.
Qed.

Lemma scanned_length (lmap : gmap string Listener) (ls : list Listener) :
  length (scanned lmap ls) = length ls.
Proof. revert lmap. induction ls as [|l ls IH]; intros lmap; simpl; [done|]. by rewrite IH. Qed.

Lemma scanned_lookup (lmap : gmap string Listener) (ls : list Listener)
    (i : nat) (l : Listener) :
  ls !! i = Some l ->
  scanned lmap ls !! i
  = Some (default l (remaining lmap (take i ls) !! Listener_Name l)).
Proof.
  revert lmap i. induction ls as [|x ls IH]; intros lmap i Hi; [done|].
  destruct i as [|i]; simpl in *.
  - by injection Hi as ->.
  - by rewrite (IH _ _ Hi).
Qed.

Lemma scan_from_app (i : nat) (ls1 ls2 : list Listener) (st : merge_state) :
  scan_from i (ls1 ++ ls2) st
  = scan_from (i + length ls1) ls2 (scan_from i ls1 st).
Proof.
  revert i st. induction ls1 as [|l ls1 IH]; intros i st; simpl.
  - by rewrite Nat.add_0_r.
  - rewrite IH. f_equal. lia.
Qed.

(** The scan, told by what it leaves in the three variables. *)
Lemma scan_from_spec (ls : list Listener) :
  forall (i : nat) (st : merge_state) (pre post : list Listener),
    ms_update st = pre ++ ls ++ post ->
    length pre = i ->
    ms_lmap (scan_from i ls st) = remaining (ms_lmap st) ls
    /\ ms_update (scan_from i ls st) = pre ++ scanned (ms_lmap st) ls ++ post
    /\ (ms_updated st = true -> ms_updated (scan_from i ls st) = true).
Proof.
  induction ls as [|l ls IH]; intros i st pre post Hupd Hlen; simpl.
  - done.
  - assert (forall x, pre ++ (x :: ls) ++ post = (pre ++ [x]) ++ ls ++ post) as Hassoc
        by (intros x; by rewrite <- app_assoc).
    assert (length (pre ++ [l]) = S i) as Hlen' by (rewrite length_app; simpl; lia).
    unfold scan_body.
    destruct (ms_lmap st !! Listener_Name l) as [desired|] eqn:Hlook; simpl.
    + destruct (Semantic_DeepEqual l desired) eqn:Heq.
      * apply Semantic_DeepEqual_true in Heq as <-.
        edestruct (IH (S i)
                     {| ms_lmap := delete (Listener_Name l) (ms_lmap st);
                        ms_update := ms_update st;
                        ms_updated := ms_updated st |} (pre ++ [l]) post)
          as (H1 & H2 & H3); simpl; [by rewrite Hupd, Hassoc|done|].
        simpl in *. rewrite H1, H2, <- app_assoc. simpl. repeat split; auto.
      * edestruct (IH (S i)
                     {| ms_lmap := delete (Listener_Name l) (ms_lmap st);
                        ms_update := <[i := desired]> (ms_update st);
                        ms_updated := true |} (pre ++ [desired]) post)
          as (H1 & H2 & H3); simpl.
        { rewrite Hupd, <- Hlen. rewrite insert_app_r_alt by lia.
          rewrite Nat.sub_diag. simpl. by rewrite <- app_assoc. }
        { rewrite length_app. simpl. lia. }
        simpl in *. rewrite H1, H2, <- app_assoc. simpl. repeat split; auto.
    + edestruct (IH (S i) st (pre ++ [l]) post) as (H1 & H2 & H3);
        [by rewrite Hupd, Hassoc|done|].
      rewrite H1, H2, <- app_assoc. simpl.
      rewrite (delete_id (ms_lmap st)) by done. done.
Qed.

Lemma merge_state_at_lmap (listeners gwListeners : list Listener) (i : nat) :
  ms_lmap (merge_state_at listeners gwListeners i)
  = remaining (build_lmap listeners) (take i gwListeners).
Proof.
  unfold merge_state_at.
  edestruct (scan_from_spec (take i gwListeners) 0
               {| ms_lmap := build_lmap listeners;
                  ms_update := gwListeners;
                  ms_updated := false |} [] (drop i gwListeners)) as (H1 & _).
  - simpl. by rewrite take_drop.
  - done.
  - by rewrite H1.
Qed.

Lemma merge_state_at_update (listeners gwListeners : list Listener) (i : nat) :
  ms_update (merge_state_at listeners gwListeners i)
  = scanned (build_lmap listeners) (take i gwListeners) ++ drop i gwListeners.
Proof.
  unfold merge_state_at.
  edestruct (scan_from_spec (take i gwListeners) 0
               {| ms_lmap := build_lmap listeners;
                  ms_update := gwListeners;
                  ms_updated := false |} [] (drop i gwListeners)) as (_ & H2 & _).
  - simpl. by rewrite take_drop.
  - done.
  - by rewrite H2.
Qed.

Lemma append_remaining_spec (rt : GoRuntime) (st : merge_state) :
  ms_update (append_remaining rt st)
  = ms_update st ++ (mapiter rt [] (ms_lmap st)).*2
  /\ (ms_updated st = true -> ms_updated (append_remaining rt st) = true)
  /\ (mapiter rt [] (ms_lmap st) <> [] -> ms_updated (append_remaining rt st) = true)
  /\ (mapiter rt [] (ms_lmap st) = [] ->
      ms_updated (append_remaining rt st) = ms_updated st).
Proof.
  unfold append_remaining.
  generalize (mapiter rt [] (ms_lmap st)). intros kls. revert st.
  induction kls as [|kl kls IH]; intros st; simpl.
  - rewrite app_nil_r. done.
  - destruct (IH {| ms_lmap := ms_lmap st;
                    ms_update := ms_update st ++ [kl.2];
                    ms_updated := true |}) as (H1 & H2 & H3 & H4).
    simpl in *. rewrite H1, <- app_assoc. simpl. repeat split; auto.
    done.
Qed.

(** The listeners the merge leaves in [update]: the scanned listeners of the
    gateway, then the desired listeners the scan did not meet. *)
Lemma merge_listeners_update (rt : GoRuntime) (listeners gwListeners : list Listener) :
  ms_update (merge_listeners rt listeners gwListeners)
  = scanned (build_lmap listeners) gwListeners
    ++ (mapiter rt [] (remaining (build_lmap listeners) gwListeners)).*2.
Proof.
  unfold merge_listeners.
  edestruct (scan_from_spec gwListeners 0
               {| ms_lmap := build_lmap listeners;
                  ms_update := gwListeners;
                  ms_updated := false |} [] []) as (H1 & H2 & _).
  - simpl. by rewrite app_nil_r.
  - done.
  - destruct (append_remaining_spec rt
                (scan_from 0 gwListeners
                   {| ms_lmap := build_lmap listeners;
                      ms_update := gwListeners;
                      ms_updated := false |})) as (H & _).
    rewrite H, H1, H2. simpl. by rewrite app_nil_r.
Qed.

(** *** reconcileGatewayListeners on a gateway the lister finds *)

Lemma gatewayLister_Get_inl (ns name : string) (w w1 : Cluster) (gw : Gateway) :
  gatewayLister_Get ns name w = (inl gw, w1) ->
  w1 = log (Lister_Gateways_Get ns name) w
  /\ reactor w (Lister_Gateways_Get ns name) = None
  /\ gateways w !! (ns, name) = Some gw.
Proof.
  unfold gatewayLister_Get.
  destruct (reactor w _); [intros [=]|].
  destruct (gateways w !! (ns, name)); intros [=]; subst. done.
Qed.

Lemma gwapiclient_Gateways_Update_spec (ns : string) (obj : Gateway) (w : Cluster) :
  exists r w2,
    gwapiclient_Gateways_Update ns obj w = (r, w2)
    /\ calls w2 = calls w ++ [Gateways_Update ns obj]
    /\ (forall k gw', gateways w2 !! k = Some gw' ->
          gateways w !! k = Some gw' \/ gw' = obj).
Proof.
  unfold gwapiclient_Gateways_Update.
  destruct (reactor w _); [eexists _, _; split; [done|]; simpl; auto|].
  destruct (gateways w !! _); eexists _, _; (split; [done|]); simpl; [|by auto].
  split; [done|]. intros k gw' Hk.
  destruct (decide ((ns, ObjectMeta_Name (Gateway_ObjectMeta obj)) = k)) as [<-|Hne].
  - rewrite lookup_insert_eq in Hk. injection Hk as <-. by right.
  - rewrite lookup_insert_ne in Hk by done. by left.
Qed.

Lemma reconcileGatewayListeners_found (rt : GoRuntime) (listeners : list Listener)
    (ing : Ingress) (gwName : NamespacedName) (w w1 : Cluster) (gw : Gateway) :
  gatewayLister_Get (NamespacedName_Namespace gwName) (NamespacedName_Name gwName) w
  = (inl gw, w1) ->
  let st := merge_listeners rt listeners (GatewaySpec_Listeners (Gateway_Spec gw)) in
  let update := Gateway_with_Listeners gw (ms_update st) in
  reconcileGatewayListeners rt listeners ing gwName w
  = if ms_updated st then
      match gwapiclient_Gateways_Update
              (ObjectMeta_Namespace (Gateway_ObjectMeta gw)) update w1 with
      | (inr err, w2) =>
          (Some (ErrorfW "failed to update Gateway %s/%s: %w"
                   [ObjectMeta_Namespace (Gateway_ObjectMeta gw);
                    ObjectMeta_Name (Gateway_ObjectMeta gw)] err),
           log (Recorder_Eventf "Warning" "GatewayUpdateFailed"
                  "Failed to update Gateway %s: %v"
                  [ArgS (NamespacedName_String gwName); ArgE err]) w2)
      | (inl _, w2) => (None, w2)
      end
    else (None, w1).
Proof.
  intros Hget. unfold reconcileGatewayListeners, mbind, M_bind, mret, M_ret.
  rewrite Hget. simpl.
  destruct (ms_updated _); [|done].
  destruct (gwapiclient_Gateways_Update _ _ w1) as [[?|err] w2]; done.
Qed.

(** The writes of reconcileGatewayListeners on a gateway the lister finds:
    none, or one update of the gateway with the merged listeners. *)
Lemma reconcileGatewayListeners_calls (rt : GoRuntime) (listeners : list Listener)
    (ing : Ingress) (gwName : NamespacedName) (w w1 : Cluster) (gw : Gateway) :
  gatewayLister_Get (NamespacedName_Namespace gwName) (NamespacedName_Name gwName) w
  = (inl gw, w1) ->
  let st := merge_listeners rt listeners (GatewaySpec_Listeners (Gateway_Spec gw)) in
  let update := Gateway_with_Listeners gw (ms_update st) in
  let w' := (reconcileGatewayListeners rt listeners ing gwName w).2 in
  (forall c, c ∈ new_calls w w' -> is_write c = true ->
     ms_updated st = true
     /\ c = Gateways_Update (ObjectMeta_Namespace (Gateway_ObjectMeta gw)) update)
  /\ (ms_updated st = true ->
      Gateways_Update (ObjectMeta_Namespace (Gateway_ObjectMeta gw)) update
        ∈ new_calls w w')
  /\ (forall k gw', gateways w' !! k = Some gw' ->
        gateways w !! k = Some gw' \/ (ms_updated st = true /\ gw' = update)).
Proof.
  intros Hget st update w'. subst w'.
  rewrite (reconcileGatewayListeners_found rt listeners ing gwName w w1 gw Hget).
  fold st. fold update.
  apply gatewayLister_Get_inl in Hget as (-> & _ & Hgw).
  unfold new_calls.
  destruct (ms_updated st) eqn:Hupd.
  - destruct (gwapiclient_Gateways_Update_spec
                (ObjectMeta_Namespace (Gateway_ObjectMeta gw)) update
                (log (Lister_Gateways_Get (NamespacedName_Namespace gwName)
                        (NamespacedName_Name gwName)) w))
      as (r & w2 & Hu & Hcalls & Hstore).
    rewrite Hu. simpl in Hcalls.
    destruct r as [?|err]; simpl; rewrite ?Hcalls, <- ?app_assoc, drop_app_length;
      simpl; (split; [|split]).
    + intros c Hc Hw. split; [done|].
      apply elem_of_cons in Hc as [->|Hc]; [done|].
      by apply list_elem_of_singleton in Hc.
    + intros _. right. left.
    + intros k gw' Hk. destruct (Hstore k gw' Hk); auto.
    + intros c Hc Hw. split; [done|].
      apply elem_of_cons in Hc as [->|Hc]; [done|].
      apply elem_of_cons in Hc as [->|Hc]; [done|].
      apply list_elem_of_singleton in Hc as ->. done.
    + intros _. right. left.
    + intros k gw' Hk. destruct (Hstore k gw' Hk); auto.
  - simpl. rewrite drop_app_length. split; [|split].
    + intros c Hc Hw. apply list_elem_of_singleton in Hc as ->. done.
    + done.
    + auto.
Qed.

(** C1.  On a gateway the lister finds, an entry of the gateway's listeners
    whose name is not the name of any desired listener is left as it is and
    where it is: it stands at the same index of the merged sequence, of the
    gateway written by any update the call issues, and of the gateway held
    by the store after the call. *)
Theorem reconcileGatewayListeners_foreign_unchanged
    (rt : GoRuntime) (listeners : list Listener) (ing : Ingress)
    (gwName : NamespacedName) (w w1 : Cluster) (gw : Gateway)
    (i : nat) (l : Listener) :
  gatewayLister_Get (NamespacedName_Namespace gwName) (NamespacedName_Name gwName) w
  = (inl gw, w1) ->
  GatewaySpec_Listeners (Gateway_Spec gw) !! i = Some l ->
  Listener_Name l ∉ (Listener_Name <$> listeners) ->
  let w' := (reconcileGatewayListeners rt listeners ing gwName w).2 in
  ms_update (merge_listeners rt listeners (GatewaySpec_Listeners (Gateway_Spec gw))) !! i
  = Some l
  /\ (forall ns obj, Gateways_Update ns obj ∈ new_calls w w' ->
        GatewaySpec_Listeners (Gateway_Spec obj) !! i = Some l)
  /\ (forall gw',
        gateways w' !! (NamespacedName_Namespace gwName, NamespacedName_Name gwName)
        = Some gw' ->
        GatewaySpec_Listeners (Gateway_Spec gw') !! i = Some l).
Proof.
  intros Hget Hi Hforeign w'.
  assert (ms_update (merge_listeners rt listeners
                       (GatewaySpec_Listeners (Gateway_Spec gw))) !! i = Some l)
    as Hmerged.
  { rewrite merge_listeners_update.
    rewrite lookup_app_l
      by (rewrite scanned_length; by apply lookup_lt_Some in Hi).
    rewrite (scanned_lookup _ _ _ _ Hi), remaining_lookup.
    rewrite (build_lmap_lookup_None _ _ Hforeign).
    by destruct (bool_decide _). }
  destruct (reconcileGatewayListeners_calls rt listeners ing gwName w w1 gw Hget)
    as (Hwrites & _ & Hstore).
  split; [done|]. split.
  - intros ns obj Hc. destruct (Hwrites _ Hc eq_refl) as [_ [= _ ->]]. done.
  - intros gw' Hgw'. destruct (Hstore _ _ Hgw') as [Hold|[_ ->]]; [|done].
    apply gatewayLister_Get_inl in Hget as (_ & _ & Hgw).
    rewrite Hgw in Hold. by injection Hold as <-.
Qed.

(** *** Replacement in place

    "The scan finds the entry" is said by the state the scan is in when it
    reaches the entry: [merge_state_at].  Its lookup is the lookup built from
    the desired listeners without the names of the entries before [i]. *)
Lemma merge_state_at_lookup (listeners gwListeners : list Listener) (i : nat)
    (n : string) :
  ms_lmap (merge_state_at listeners gwListeners i) !! n
  = if bool_decide (n ∈ (Listener_Name <$> take i gwListeners))
    then None else build_lmap listeners !! n.
Proof. by rewrite merge_state_at_lmap, remaining_lookup. Qed.

Lemma scan_body_updated_mono (i : nat) (l : Listener) (st : merge_state) :
  ms_updated st = true -> ms_updated (scan_body i l st) = true.
Proof.
  unfold scan_body. intros H.
  destruct (ms_lmap st !! Listener_Name l); [|done].
  by destruct (Semantic_DeepEqual l _).
Qed.

Lemma scan_from_updated_mono (ls : list Listener) (i : nat) (st : merge_state) :
  ms_updated st = true -> ms_updated (scan_from i ls st) = true.
Proof.
  revert i st. induction ls as [|l ls IH]; intros i st H; simpl; [done|].
  by apply IH, scan_body_updated_mono.
Qed.

Lemma merge_state_at_update_length (listeners gwListeners : list Listener) (i : nat) :
  length (ms_update (merge_state_at listeners gwListeners i)) = length gwListeners.
Proof.
  rewrite merge_state_at_update, length_app, scanned_length.
  rewrite <- length_app. by rewrite take_drop.
Qed.

Lemma merge_state_at_S (listeners gwListeners : list Listener) (i : nat) (l : Listener) :
  gwListeners !! i = Some l ->
  merge_state_at listeners gwListeners (S i)
  = scan_body i l (merge_state_at listeners gwListeners i).
Proof.
  intros Hi. unfold merge_state_at.
  rewrite (take_S_r _ _ _ Hi), scan_from_app. simpl.
  rewrite length_take_le; [done|]. apply lookup_lt_Some in Hi. lia.
Qed.

Lemma merge_listeners_from (rt : GoRuntime) (listeners gwListeners : list Listener)
    (i : nat) :
  i <= length gwListeners ->
  merge_listeners rt listeners gwListeners
  = append_remaining rt
      (scan_from i (drop i gwListeners) (merge_state_at listeners gwListeners i)).
Proof.
  intros Hle. unfold merge_listeners, merge_state_at. f_equal.
  generalize {| ms_lmap := build_lmap listeners;
                ms_update := gwListeners;
                ms_updated := false |}.
  intros st0.
  transitivity (scan_from 0 (take i gwListeners ++ drop i gwListeners) st0).
  - by rewrite take_drop.
  - rewrite scan_from_app. simpl. by rewrite length_take_le.
Qed.

(** When the desired listeners come down to one entry of the lookup (one
    listener, or several that share a name), and the scan finds it at [i],
    the merge is the replacement at [i] and nothing else. *)
Lemma merge_listeners_single_owned (rt : GoRuntime)
    (listeners gwListeners : list Listener) (i : nat) (l desired : Listener) :
  gwListeners !! i = Some l ->
  ms_lmap (merge_state_at listeners gwListeners i) !! Listener_Name l = Some desired ->
  build_lmap listeners = {[ Listener_Name l := desired ]} ->
  ms_update (merge_listeners rt listeners gwListeners) = <[i := desired]> gwListeners.
Proof.
  intros Hi Hlook Hsingle.
  rewrite merge_state_at_lookup in Hlook.
  destruct (bool_decide (Listener_Name l ∈ _)) eqn:Hbefore; [done|].
  apply bool_decide_eq_false in Hbefore.
  rewrite merge_listeners_update, Hsingle.
  assert (remaining {[ Listener_Name l := desired ]} gwListeners = ∅) as ->.
  { apply map_eq. intros n. rewrite remaining_lookup, lookup_empty.
    destruct (bool_decide (n ∈ _)) eqn:Hn; [done|].
    apply bool_decide_eq_false in Hn.
    apply lookup_singleton_ne. intros <-. apply Hn.
    apply list_elem_of_fmap. exists l. split; [done|].
    by apply list_elem_of_lookup_2 in Hi. }
  pose proof (mapiter_perm rt Listener [] ∅) as Hp.
  rewrite map_to_list_empty in Hp. apply Permutation_nil_r in Hp.
  rewrite Hp. simpl. rewrite app_nil_r.
  apply list_eq. intros j.
  destruct (gwListeners !! j) as [lj|] eqn:Hj.
  - rewrite (scanned_lookup _ _ _ _ Hj), remaining_lookup.
    destruct (decide (j = i)) as [->|Hne].
    + rewrite list_lookup_insert_eq by (by apply lookup_lt_Some in Hi).
      assert (lj = l) as -> by congruence.
      rewrite bool_decide_eq_false_2 by done.
      by rewrite lookup_singleton_eq.
    + rewrite list_lookup_insert_ne by done. rewrite Hj. f_equal.
      destruct (bool_decide (Listener_Name lj ∈ _)) eqn:Hin; [done|].
      apply bool_decide_eq_false in Hin.
      rewrite lookup_singleton_ne; [done|].
      intros Heq.
      destruct (decide (j < i)) as [Hlt|Hge].
      * apply Hbefore. rewrite Heq.
        apply list_elem_of_fmap. exists lj. split; [done|].
        apply list_elem_of_lookup. exists j. by rewrite lookup_take_lt.
      * apply Hin. rewrite <- Heq.
        apply list_elem_of_fmap. exists l. split; [done|].
        apply list_elem_of_lookup. exists i. rewrite lookup_take_lt by lia. done.
  - rewrite list_lookup_insert_ne.
    + rewrite Hj. apply lookup_ge_None. rewrite scanned_length.
      by apply lookup_ge_None in Hj.
    + intros <-. congruence.
Qed.

(** C6.  When the scan of reconcileGatewayListeners reaches index [i] of an
    existing gateway, looks the entry's name up in what is left of the lookup
    and finds a desired entry that differs from it, the iteration replaces
    exactly the entry at [i] by the desired one: the sequence keeps its
    length, index [i] holds the desired entry and every other index holds what
    it held.  In the merged sequence the desired entry stands at [i] and every
    entry at another index that the scan does not itself find different is the
    gateway's own; when the desired listeners are that one entry of the
    lookup, the merged sequence is the gateway's with index [i] replaced.  The
    update the call issues carries the merged sequence. *)
Theorem reconcileGatewayListeners_replace_in_place
    (rt : GoRuntime) (listeners : list Listener) (ing : Ingress)
    (gwName : NamespacedName) (w w1 : Cluster) (gw : Gateway)
    (i : nat) (l desired : Listener) :
  let gwListeners := GatewaySpec_Listeners (Gateway_Spec gw) in
  let st := merge_state_at listeners gwListeners i in
  gatewayLister_Get (NamespacedName_Namespace gwName) (NamespacedName_Name gwName) w
  = (inl gw, w1) ->
  gwListeners !! i = Some l ->
  ms_lmap st !! Listener_Name l = Some desired ->
  Semantic_DeepEqual l desired = false ->
  let st' := scan_body i l st in
  let final := merge_listeners rt listeners gwListeners in
  let w' := (reconcileGatewayListeners rt listeners ing gwName w).2 in
  (ms_update st' = <[i := desired]> (ms_update st)
   /\ length (ms_update st') = length gwListeners
   /\ ms_update st' !! i = Some desired
   /\ (forall j, j <> i -> ms_update st' !! j = ms_update st !! j))
  /\ (ms_update final !! i = Some desired
      /\ (forall j l', j <> i -> gwListeners !! j = Some l' ->
            ms_lmap (merge_state_at listeners gwListeners j) !! Listener_Name l' = None
            \/ ms_lmap (merge_state_at listeners gwListeners j) !! Listener_Name l'
               = Some l' ->
            ms_update final !! j = Some l')
      /\ (build_lmap listeners = {[ Listener_Name l := desired ]} ->
          ms_update final = <[i := desired]> gwListeners)
      /\ Gateways_Update (ObjectMeta_Namespace (Gateway_ObjectMeta gw))
           (Gateway_with_Listeners gw (ms_update final)) ∈ new_calls w w').
Proof.
  intros gwListeners st Hget Hi Hlook Hne st' final w'.
  assert (ms_update st' = <[i := desired]> (ms_update st)) as Hst'.
  { subst st'. unfold scan_body. by rewrite Hlook, Hne. }
  assert (length (ms_update st) = length gwListeners) as Hlen
    by apply merge_state_at_update_length.
  assert (i < length gwListeners) as Hlt by (by apply lookup_lt_Some in Hi).
  assert (forall j l',
             gwListeners !! j = Some l' ->
             ms_update final !! j
             = Some (default l'
                       (ms_lmap (merge_state_at listeners gwListeners j)
                          !! Listener_Name l'))) as Hfinal.
  { intros j l' Hj. subst final. rewrite merge_listeners_update.
    rewrite lookup_app_l
      by (rewrite scanned_length; by apply lookup_lt_Some in Hj).
    by rewrite (scanned_lookup _ _ _ _ Hj), merge_state_at_lmap. }
  split; [|split; [|split; [|split]]].
  - split; [done|]. rewrite Hst'. split; [by rewrite length_insert|]. split.
    + apply list_lookup_insert_eq. lia.
    + intros j Hj. by apply list_lookup_insert_ne.
  - rewrite (Hfinal _ _ Hi). fold st. by rewrite Hlook.
  - intros j l' Hj Hl' Hnot. rewrite (Hfinal _ _ Hl').
    by destruct Hnot as [-> | ->].
  - intros Hsingle.
    by apply (merge_listeners_single_owned rt listeners gwListeners i l desired).
  - destruct (reconcileGatewayListeners_calls rt listeners ing gwName w w1 gw Hget)
      as (_ & Hissued & _).
    apply Hissued. fold gwListeners.
    rewrite (merge_listeners_from rt listeners gwListeners (S i)) by lia.
    rewrite (merge_state_at_S _ _ _ _ Hi). fold st. fold st'.
    destruct (append_remaining_spec rt (scan_from (S i) (drop (S i) gwListeners) st'))
      as (_ & Hmono & _).
    apply Hmono, scan_from_updated_mono.
    subst st'. unfold scan_body. by rewrite Hlook, Hne.
Qed.

(** *** The listeners of a TLS block share one name *)

Lemma tls_listeners_name (tls : IngressTLS) (ing : Ingress) (l : Listener) :
  l ∈ tls_listeners tls ing ->
  Listener_Name l = listenerPrefix +:+ Ingress_GetUID ing.
Proof.
  unfold tls_listeners. intros Hl.
  apply list_elem_of_fmap in Hl as (h & -> & _). done.
Qed.

Lemma tls_listeners_length (tls : IngressTLS) (ing : Ingress) :
  length (tls_listeners tls ing) = length (IngressTLS_Hosts tls).
Proof. unfold tls_listeners. apply length_fmap. Qed.

(** Of desired listeners that share a name the lookup keeps the last. *)
Lemma build_lmap_same_name (n : string) (listeners : list Listener) :
  (forall l, l ∈ listeners -> Listener_Name l = n) ->
  build_lmap listeners
  = match last listeners with
    | Some l => {[ n := l ]}
    | None => ∅
    end.
Proof.
  unfold build_lmap.
  induction listeners as [|l ls IH] using rev_ind; intros Hn; [done|].
  rewrite foldl_app, last_snoc. simpl.
  rewrite (Hn l) by (apply elem_of_app; right; left).
  rewrite IH by (intros l' Hl'; apply Hn, elem_of_app; by left).
  destruct (last ls).
  - apply insert_singleton_eq.
  - apply insert_empty.
Qed.

Lemma scanned_foreign (lmap : gmap string Listener) (ls : list Listener) :
  (forall l, l ∈ ls -> lmap !! Listener_Name l = None) ->
  scanned lmap ls = ls /\ remaining lmap ls = lmap.
Proof.
  unfold remaining.
  induction ls as [|l ls IH]; intros Hf; simpl; [done|].
  rewrite (Hf l) by left. simpl.
  rewrite (delete_id lmap) by (apply Hf; left).
  destruct IH as [-> ->]; [|done].
  intros l' Hl'. apply Hf. by right.
Qed.

(** Merging the listeners of a TLS block into a gateway that has no entry of
    their name appends one listener, that of the last host, whatever the
    number of hosts. *)
Lemma merge_tls_listeners (rt : GoRuntime) (tls : IngressTLS) (ing : Ingress)
    (gwListeners : list Listener) :
  (forall l, l ∈ gwListeners ->
     Listener_Name l <> listenerPrefix +:+ Ingress_GetUID ing) ->
  ms_update (merge_listeners rt (tls_listeners tls ing) gwListeners)
  = gwListeners ++ option_list (last (tls_listeners tls ing))
  /\ length (ms_update (merge_listeners rt (tls_listeners tls ing) gwListeners))
     = length gwListeners + Nat.min 1 (length (IngressTLS_Hosts tls)).
Proof.
  intros Hforeign.
  assert (ms_update (merge_listeners rt (tls_listeners tls ing) gwListeners)
          = gwListeners ++ option_list (last (tls_listeners tls ing))) as Heq.
  { rewrite merge_listeners_update.
    rewrite (build_lmap_same_name (listenerPrefix +:+ Ingress_GetUID ing))
      by apply tls_listeners_name.
    destruct (last (tls_listeners tls ing)) as [l|] eqn:Hlast.
    - destruct (scanned_foreign {[ listenerPrefix +:+ Ingress_GetUID ing := l ]}
                  gwListeners) as [-> ->].
      { intros l' Hl'. apply lookup_singleton_ne. intros Heq.
        by apply (Hforeign l' Hl'). }
      pose proof (mapiter_perm rt Listener []
                    {[ listenerPrefix +:+ Ingress_GetUID ing := l ]}) as Hp.
      rewrite map_to_list_singleton in Hp.
      apply Permutation_singleton_r in Hp. by rewrite Hp.
    - destruct (scanned_foreign ∅ gwListeners) as [-> ->]; [done|].
      pose proof (mapiter_perm rt Listener [] ∅) as Hp.
      rewrite map_to_list_empty in Hp.
      apply Permutation_nil_r in Hp. by rewrite Hp. }
  split; [done|]. rewrite Heq, length_app. f_equal.
  rewrite <- (tls_listeners_length tls ing).
  destruct (tls_listeners tls ing) as [|l ls] using rev_ind; [done|].
  rewrite last_snoc, length_app, Nat.add_1_r. done.
Qed.

(** Desired listeners of pairwise distinct names, none of them the name of an
    entry of the gateway, are all appended. *)
Lemma build_lmap_list_to_map (listeners : list Listener) :
  build_lmap listeners
  = list_to_map (reverse ((fun l => (Listener_Name l, l)) <$> listeners)).
Proof.
  unfold build_lmap.
  induction listeners as [|l ls IH] using rev_ind; [done|].
  rewrite foldl_app, fmap_app, reverse_app. simpl. by rewrite IH.
Qed.

Lemma merge_distinct_names (rt : GoRuntime) (listeners gwListeners : list Listener) :
  NoDup (Listener_Name <$> listeners) ->
  (forall l, l ∈ gwListeners -> Listener_Name l ∉ (Listener_Name <$> listeners)) ->
  exists added,
    ms_update (merge_listeners rt listeners gwListeners) = gwListeners ++ added
    /\ added ≡ₚ listeners
    /\ length (ms_update (merge_listeners rt listeners gwListeners))
       = length gwListeners + length listeners.
Proof.
  intros Hnd Hforeign.
  rewrite merge_listeners_update.
  destruct (scanned_foreign (build_lmap listeners) gwListeners) as [-> ->].
  { intros l Hl. by apply build_lmap_lookup_None, Hforeign. }
  assert ((mapiter rt [] (build_lmap listeners)).*2 ≡ₚ listeners) as Hp.
  { rewrite mapiter_perm, build_lmap_list_to_map.
    rewrite map_to_list_to_map.
    - rewrite reverse_Permutation, <- list_fmap_compose.
      by rewrite list_fmap_id.
    - rewrite fmap_reverse, <- list_fmap_compose.
      by rewrite reverse_Permutation. }
  eexists. split; [done|]. split; [done|].
  by rewrite length_app, Hp.
Qed.

(** One TLS host: one listener. *)
Example tls_listeners_one_host :
  tls_listeners (ex_tls ["a.example.com"]) (ex_ing [ex_tls ["a.example.com"]])
  = [ex_listener "a.example.com"].
Proof. reflexivity. Qed.

(** C2.  The gateway has one foreign listener; the ingress has a TLS block of two
    hosts.  reconcileTLS derives two listeners, reconcileGatewayListeners
    leaves two listeners in the gateway, not three: the listener of the first
    host is lost. *)
Example reconcileGatewayListeners_two_hosts :
  let tls := ex_tls ["a.example.com"; "b.example.com"] in
  let ing := ex_ing [tls] in
  let r1 := reconcileTLS ex_MakeReferenceGrant ex_ctx tls ing (ex_cluster [] [] [ex_foreign]) in
  let r2 := reconcileGatewayListeners forwardRuntime
              [ex_listener "a.example.com"; ex_listener "b.example.com"]
              ing ex_gwName r1.2 in
  r1.1 = inl [ex_listener "a.example.com"; ex_listener "b.example.com"]
  /\ r2.1 = None
  /\ gateways r2.2 !! ("istio-system", "gw")
     = Some (ex_gateway [ex_foreign; ex_listener "b.example.com"])
  /\ length [ex_foreign; ex_listener "b.example.com"] <> 1 + 2.
Proof.
  repeat split; try (vm_compute; reflexivity). simpl. lia.
Qed.

(** The gateway holds a foreign listener and the ingress's listener for an
    old host; the desired listener is for a new host. *)
Lemma reconcileGatewayListeners_foreign_unchanged_witness :
  let ing := ex_ing [ex_tls ["new.example.com"]] in
  let w := ex_cluster [] [] [ex_foreign; ex_listener "old.example.com"] in
  let w' := (reconcileGatewayListeners forwardRuntime [ex_listener "new.example.com"]
               ing ex_gwName w).2 in
  ms_update (merge_listeners forwardRuntime [ex_listener "new.example.com"]
               [ex_foreign; ex_listener "old.example.com"]) !! 0
  = Some ex_foreign
  /\ (forall ns obj, Gateways_Update ns obj ∈ new_calls w w' ->
        GatewaySpec_Listeners (Gateway_Spec obj) !! 0 = Some ex_foreign)
  /\ (forall gw', gateways w' !! ("istio-system", "gw") = Some gw' ->
        GatewaySpec_Listeners (Gateway_Spec gw') !! 0 = Some ex_foreign).
Proof.
  apply (reconcileGatewayListeners_foreign_unchanged forwardRuntime
           [ex_listener "new.example.com"] (ex_ing [ex_tls ["new.example.com"]])
           ex_gwName
           (ex_cluster [] [] [ex_foreign; ex_listener "old.example.com"])
           (log (Lister_Gateways_Get "istio-system" "gw")
              (ex_cluster [] [] [ex_foreign; ex_listener "old.example.com"]))
           (ex_gateway [ex_foreign; ex_listener "old.example.com"])
           0 ex_foreign).
  - vm_compute. reflexivity.
  - reflexivity.
  - apply (bool_decide_unpack _). vm_compute. exact I.
Defined.

Lemma reconcileGatewayListeners_replace_in_place_witness :
  let listeners := [ex_listener "new.example.com"] in
  let gwListeners := [ex_foreign; ex_listener "old.example.com"] in
  let ing := ex_ing [ex_tls ["new.example.com"]] in
  let w := ex_cluster [] [] gwListeners in
  let w' := (reconcileGatewayListeners forwardRuntime listeners ing ex_gwName w).2 in
  ms_update (merge_listeners forwardRuntime listeners gwListeners)
  = [ex_foreign; ex_listener "new.example.com"]
  /\ ms_update (merge_listeners forwardRuntime listeners gwListeners) !! 1
     = Some (ex_listener "new.example.com")
  /\ Gateways_Update "istio-system"
       (ex_gateway [ex_foreign; ex_listener "new.example.com"]) ∈ new_calls w w'.
Proof.
  pose proof (reconcileGatewayListeners_replace_in_place forwardRuntime
                [ex_listener "new.example.com"] (ex_ing [ex_tls ["new.example.com"]])
                ex_gwName
                (ex_cluster [] [] [ex_foreign; ex_listener "old.example.com"])
                (log (Lister_Gateways_Get "istio-system" "gw")
                   (ex_cluster [] [] [ex_foreign; ex_listener "old.example.com"]))
                (ex_gateway [ex_foreign; ex_listener "old.example.com"])
                1 (ex_listener "old.example.com") (ex_listener "new.example.com"))
    as H.
  simpl in H.
  destruct H as (_ & Hi & _ & Hsingle & Hcall).
  - vm_compute. reflexivity.
  - reflexivity.
  - vm_compute. reflexivity.
  - vm_compute. reflexivity.
  - split; [apply Hsingle; vm_compute; reflexivity|]. split; [exact Hi|]. exact Hcall.
Defined.

(** The lookup entry of a name is used up by the first entry of that name:
    a later entry of the same name is not found by the scan and stays. *)
Example merge_listeners_duplicate_names :
  ms_update (merge_listeners forwardRuntime [ex_listener "new.example.com"]
               [ex_listener "old.example.com"; ex_listener "older.example.com"])
  = [ex_listener "new.example.com"; ex_listener "older.example.com"]
  /\ ms_lmap (merge_state_at [ex_listener "new.example.com"]
                [ex_listener "old.example.com"; ex_listener "older.example.com"] 1)
     !! "kni-uid-1" = None.
Proof. split; vm_compute; reflexivity. Qed.

(* ===================================================================== *)
(** ** The swap-remove loop of clearGatewayListeners *)
(* ===================================================================== *)

(** The loop invariant: when [k] iterations are left, the entries from index
    [k] on have been visited or swapped in and do not carry the name.  The
    index of every iteration is then inside the slice, and the loop ends with
    a permutation of the entries that do not carry the name; it ends with the
    slice it started from when no entry before [k] carries the name. *)
Lemma clear_loop_spec (listenerName : string) (k : nat) :
  forall pre post : list Listener,
    length pre = k ->
    Forall (fun l => Listener_Name l <> listenerName) post ->
    exists r,
      clear_loop listenerName k (pre ++ post) = Some r
      /\ r ≡ₚ others listenerName pre ++ post
      /\ Forall (fun l => Listener_Name l <> listenerName) r
      /\ (Forall (fun l => Listener_Name l <> listenerName) pre -> r = pre ++ post).
Proof.
  induction k as [|i IH]; intros pre post Hlen Hpost.
  - destruct pre; [|done]. simpl. exists post. repeat split; auto.
  - destruct pre as [|x pre _] using rev_ind; [done|].
    rewrite length_app in Hlen. simpl in Hlen.
    assert (i = length pre) as -> by lia.
    simpl. unfold clear_body.
    rewrite <- app_assoc. simpl.
    rewrite list_lookup_middle by done.
    unfold others. rewrite filter_app, filter_cons, filter_nil.
    destruct (String.eqb_spec (Listener_Name x) listenerName) as [Hx|Hx].
    + rewrite decide_False by (intros Hne; by apply Hne).
      rewrite app_nil_r.
      destruct post as [|y post _] using rev_ind.
      * (* the entry is the last one: it is cut off *)
        rewrite length_app. simpl.
        replace (length pre + 1 - 1) with (length pre) by lia.
        rewrite list_lookup_middle by done.
        rewrite list_insert_id by (by apply list_lookup_middle).
        rewrite take_app_length' by done.
        destruct (IH pre [] eq_refl) as (r & Hr & Hperm & Hall & Hsame); [done|].
        rewrite app_nil_r in Hr, Hperm. exists r.
        repeat split; auto.
        -- by rewrite app_nil_r.
        -- intros Hf. apply Forall_app in Hf as [_ Hf].
           rewrite Forall_singleton in Hf. congruence.
      * (* the last entry is swapped in *)
        apply Forall_app in Hpost as [Hpost Hy].
        rewrite Forall_singleton in Hy.
        assert (length (pre ++ x :: post ++ [y]) - 1 = length (pre ++ x :: post))
          as Hlast.
        { rewrite !length_app. simpl. rewrite length_app. simpl. lia. }
        rewrite Hlast.
        replace (pre ++ x :: post ++ [y]) with ((pre ++ x :: post) ++ [y])
          by (by rewrite <- app_assoc).
        rewrite list_lookup_middle by done.
        rewrite insert_app_l by (rewrite length_app; simpl; lia).
        rewrite take_app_length' by (by rewrite length_insert).
        rewrite insert_app_r_alt, Nat.sub_diag by lia. simpl.
        destruct (IH pre (y :: post) eq_refl) as (r & Hr & Hperm & Hall & Hsame).
        { by constructor. }
        exists r. repeat split; auto.
        -- rewrite Hperm. unfold others. f_equiv. apply Permutation_cons_append.
        -- intros Hf. apply Forall_app in Hf as [_ Hf].
           rewrite Forall_singleton in Hf. congruence.
    + rewrite decide_True by done.
      destruct (IH pre (x :: post) eq_refl) as (r & Hr & Hperm & Hall & Hsame).
      { by constructor. }
      exists r. repeat split; auto.
      * rewrite Hperm. unfold others. by rewrite <- app_assoc.
      * intros Hf. apply Forall_app in Hf as [Hf _]. auto.
Qed.

(** The loop of clearGatewayListeners never indexes outside the slice, and
    what it leaves. *)
Lemma clear_loop_total (listenerName : string) (ls : list Listener) :
  exists r,
    clear_loop listenerName (length ls) ls = Some r
    /\ r ≡ₚ others listenerName ls
    /\ Forall (fun l => Listener_Name l <> listenerName) r
    /\ (Forall (fun l => Listener_Name l <> listenerName) ls -> r = ls).
Proof.
  destruct (clear_loop_spec listenerName (length ls) ls [] eq_refl)
    as (r & Hr & Hperm & Hall & Hsame); [done|].
  rewrite app_nil_r in *. by exists r.
Qed.

(** The loop shortens the slice exactly when an entry carries the name. *)
Lemma others_length_eq (listenerName : string) (ls : list Listener) :
  length (others listenerName ls) = length ls ->
  Forall (fun l => Listener_Name l <> listenerName) ls.
Proof.
  unfold others. induction ls as [|l ls IH]; intros Hlen; [done|].
  rewrite filter_cons in Hlen.
  destruct (decide (Listener_Name l <> listenerName)); simpl in Hlen.
  - constructor; [done|]. apply IH. lia.
  - pose proof (length_filter (fun l => Listener_Name l <> listenerName) ls). lia.
Qed.

(** *** clearGatewayListeners on a gateway the lister finds *)

Lemma gwapiclient_Gateways_Update_cases (ns : string) (obj : Gateway) (w : Cluster) :
  (exists err,
      gwapiclient_Gateways_Update ns obj w = (inr err, log (Gateways_Update ns obj) w))
  \/ (exists w2,
         gwapiclient_Gateways_Update ns obj w = (inl obj, w2)
         /\ calls w2 = calls w ++ [Gateways_Update ns obj]
         /\ gateways w2
            = <[(ns, ObjectMeta_Name (Gateway_ObjectMeta obj)) := obj]> (gateways w)).
Proof.
  unfold gwapiclient_Gateways_Update.
  destruct (reactor w _); [left; by eexists|].
  destruct (gateways w !! _); [right|left; by eexists].
  eexists. split; [done|]. done.
Qed.

Lemma clearGatewayListeners_found (ing : Ingress) (gwName : NamespacedName)
    (w w1 : Cluster) (gw : Gateway) :
  gatewayLister_Get (NamespacedName_Namespace gwName) (NamespacedName_Name gwName) w
  = (inl gw, w1) ->
  let listenerName := listenerPrefix +:+ Ingress_GetUID ing in
  let gwListeners := GatewaySpec_Listeners (Gateway_Spec gw) in
  exists ls,
    clear_loop listenerName (length gwListeners) gwListeners = Some ls
    /\ ls ≡ₚ others listenerName gwListeners
    /\ Forall (fun l => Listener_Name l <> listenerName) ls
    /\ (Forall (fun l => Listener_Name l <> listenerName) gwListeners -> ls = gwListeners)
    /\ clearGatewayListeners ing gwName w
       = if negb (Nat.eqb (length ls) (length gwListeners)) then
           match gwapiclient_Gateways_Update
                   (ObjectMeta_Namespace (Gateway_ObjectMeta gw))
                   (Gateway_with_Listeners gw ls) w1 with
           | (inr err, w2) =>
               (Returns (Some (ErrorfW "failed to update Gateway %s/%s: %w"
                                 [ObjectMeta_Namespace (Gateway_ObjectMeta gw);
                                  ObjectMeta_Name (Gateway_ObjectMeta gw)] err)),
                log (Recorder_Eventf "Warning" "GatewayUpdateFailed"
                       "Failed to remove Listener from Gateway %s: %v"
                       [ArgS (NamespacedName_String gwName); ArgE err]) w2)
           | (inl _, w2) => (Returns None, w2)
           end
         else (Returns None, w1).
Proof.
  intros Hget listenerName gwListeners.
  destruct (clear_loop_total listenerName gwListeners)
    as (ls & Hloop & Hperm & Hall & Hsame).
  exists ls. repeat (split; [done|]).
  unfold clearGatewayListeners, mbind, M_bind, mret, M_ret.
  rewrite Hget. simpl. fold listenerName. fold gwListeners. rewrite Hloop.
  destruct (negb _); [|done].
  destruct (gwapiclient_Gateways_Update _ _ w1) as [[?|err] w2]; done.
Qed.

Lemma Gateway_with_Listeners_same (gw : Gateway) :
  Gateway_with_Listeners gw (GatewaySpec_Listeners (Gateway_Spec gw)) = gw.
Proof. by destruct gw as [om [cn ls]]. Qed.

(** C8.  On a gateway the lister finds (and that carries the name it was
    read under), in a store that does not refuse the update of a gateway of
    that namespace, clearGatewayListeners returns nil and leaves in the store
    a gateway that differs from the one found in its listeners only.  None of
    them carries the name [listenerPrefix + UID], and they are a permutation
    of the listeners of the gateway found that do not carry it: they are the
    sequence the backward swap-remove loop ends with, which never indexes
    outside the slice.  The other gateways are as they were.  When a listener
    of the gateway found carries the name, the call is the read followed by
    one write, the update of the gateway to that sequence; when none does,
    the gateway is left as found and the call is the read alone. *)
Theorem clearGatewayListeners_removes_owned
    (ing : Ingress) (gwName : NamespacedName) (w w1 : Cluster) (gw : Gateway) :
  let listenerName := listenerPrefix +:+ Ingress_GetUID ing in
  let gwListeners := GatewaySpec_Listeners (Gateway_Spec gw) in
  let ns := NamespacedName_Namespace gwName in
  let key := (ns, NamespacedName_Name gwName) in
  gatewayLister_Get ns (NamespacedName_Name gwName) w = (inl gw, w1) ->
  (ObjectMeta_Namespace (Gateway_ObjectMeta gw), ObjectMeta_Name (Gateway_ObjectMeta gw))
  = key ->
  (forall obj, reactor w (Gateways_Update ns obj) = None) ->
  let r := clearGatewayListeners ing gwName w in
  exists cleared,
    r.1 = Returns None
    /\ gateways r.2 = <[key := cleared]> (gateways w)
    /\ Gateway_ObjectMeta cleared = Gateway_ObjectMeta gw
    /\ GatewaySpec_GatewayClassName (Gateway_Spec cleared)
       = GatewaySpec_GatewayClassName (Gateway_Spec gw)
    /\ clear_loop listenerName (length gwListeners) gwListeners
       = Some (GatewaySpec_Listeners (Gateway_Spec cleared))
    /\ Forall (fun l => Listener_Name l <> listenerName)
         (GatewaySpec_Listeners (Gateway_Spec cleared))
    /\ GatewaySpec_Listeners (Gateway_Spec cleared)
       ≡ₚ filter (fun l => Listener_Name l <> listenerName) gwListeners
    /\ (Exists (fun l => Listener_Name l = listenerName) gwListeners ->
        new_calls w r.2
        = [Lister_Gateways_Get ns (NamespacedName_Name gwName);
           Gateways_Update ns cleared])
    /\ (Forall (fun l => Listener_Name l <> listenerName) gwListeners ->
        cleared = gw
        /\ new_calls w r.2 = [Lister_Gateways_Get ns (NamespacedName_Name gwName)]).
Proof.
  intros listenerName gwListeners ns key Hget Hkey Haccepts r.
  destruct (clearGatewayListeners_found ing gwName w w1 gw Hget)
    as (ls & Hloop & Hperm & Hall & Hsame & Hrun).
  fold listenerName gwListeners in Hloop, Hperm, Hall, Hsame, Hrun.
  exists (Gateway_with_Listeners gw ls).
  subst r. rewrite Hrun. clear Hrun.
  injection Hkey as Hns Hname.
  apply gatewayLister_Get_inl in Hget as (-> & _ & Hgw). fold ns key in Hgw.
  unfold new_calls.
  destruct (Nat.eqb_spec (length ls) (length gwListeners)) as [Hlen|Hlen]; simpl.
  - (* no entry carries the name: nothing is written *)
    assert (Forall (fun l => Listener_Name l <> listenerName) gwListeners) as Hnone.
    { apply others_length_eq. unfold others. by rewrite <- Hperm. }
    rewrite (Hsame Hnone) in *. rewrite Gateway_with_Listeners_same.
    rewrite drop_app_length. unfold others in Hperm.
    split; [done|]. split; [by rewrite insert_id|].
    do 5 (split; [done|]). split; [|done].
    intros Hsome. apply Exists_exists in Hsome as (l & Hl & Hcarries).
    rewrite Forall_forall in Hnone. by destruct (Hnone l Hl).
  - (* an entry carries the name: the update is issued and accepted *)
    unfold gwapiclient_Gateways_Update. simpl.
    rewrite Hns. fold ns. rewrite Haccepts. rewrite Hname. fold key. rewrite Hgw.
    simpl. unfold others in Hperm.
    do 7 (split; [done|]). split.
    + intros _. by rewrite <- app_assoc, drop_app_length.
    + intros Hnone. by rewrite (Hsame Hnone) in Hlen.
Qed.

(** C9.  On a gateway the lister finds and none of whose listeners carries
    the name [listenerPrefix + UID], the loop of clearGatewayListeners
    leaves the sequence as it is, the call returns nil having only read the
    gateway (it issues no write), and the store's gateways are unchanged. *)
Theorem clearGatewayListeners_noop
    (ing : Ingress) (gwName : NamespacedName) (w w1 : Cluster) (gw : Gateway) :
  let listenerName := listenerPrefix +:+ Ingress_GetUID ing in
  let gwListeners := GatewaySpec_Listeners (Gateway_Spec gw) in
  gatewayLister_Get (NamespacedName_Namespace gwName) (NamespacedName_Name gwName) w
  = (inl gw, w1) ->
  Forall (fun l => Listener_Name l <> listenerName) gwListeners ->
  clear_loop listenerName (length gwListeners) gwListeners = Some gwListeners
  /\ clearGatewayListeners ing gwName w = (Returns None, w1)
  /\ (forall c, c ∈ new_calls w w1 -> is_write c = false)
  /\ gateways w1 = gateways w.
Proof.
  intros listenerName gwListeners Hget Hnone.
  destruct (clearGatewayListeners_found ing gwName w w1 gw Hget)
    as (ls & Hloop & Hperm & Hall & Hsame & Hrun).
  fold listenerName gwListeners in Hloop, Hperm, Hall, Hsame, Hrun.
  rewrite (Hsame Hnone) in *. split; [done|].
  rewrite Nat.eqb_refl in Hrun. simpl in Hrun. split; [done|].
  apply gatewayLister_Get_inl in Hget as (-> & _ & _).
  unfold new_calls. simpl. rewrite drop_app_length. split; [|done].
  intros c Hc. apply list_elem_of_singleton in Hc as ->. done.
Qed.

(** The swap-remove reorders what it keeps: the last entry takes the place
    of the removed one. *)
Example clear_loop_reorders :
  clear_loop "kni-uid-1" 3
    [ex_listener "a.example.com"; ex_foreign; ex_foreign_b]
  = Some [ex_foreign_b; ex_foreign].
Proof. reflexivity. Qed.

(** The gateway holds a listener of the ingress in front of two foreign
    ones: the call updates it to the two foreign listeners, the last of them
    swapped into the place of the listener removed. *)
Lemma clearGatewayListeners_removes_owned_witness :
  let ing := ex_ing [] in
  let gwListeners := [ex_listener "a.example.com"; ex_foreign; ex_foreign_b] in
  let w := ex_cluster [] [] gwListeners in
  let r := clearGatewayListeners ing ex_gwName w in
  r.1 = Returns None
  /\ gateways r.2 !! ("istio-system", "gw") = Some (ex_gateway [ex_foreign_b; ex_foreign])
  /\ new_calls w r.2
     = [Lister_Gateways_Get "istio-system" "gw";
        Gateways_Update "istio-system" (ex_gateway [ex_foreign_b; ex_foreign])].
Proof.
  destruct (clearGatewayListeners_removes_owned (ex_ing []) ex_gwName
              (ex_cluster [] [] [ex_listener "a.example.com"; ex_foreign; ex_foreign_b])
              (log (Lister_Gateways_Get "istio-system" "gw")
                 (ex_cluster [] [] [ex_listener "a.example.com"; ex_foreign; ex_foreign_b]))
              (ex_gateway [ex_listener "a.example.com"; ex_foreign; ex_foreign_b]))
    as (cleared & Hnil & Hstore & Hmeta & Hclass & Hloop & _ & _ & Hcalls & _).
  - vm_compute. reflexivity.
  - reflexivity.
  - reflexivity.
  - destruct cleared as [om [cn ls]]. simpl in Hmeta, Hclass, Hloop.
    injection Hloop as <-. subst om cn.
    split; [exact Hnil|]. split.
    + rewrite Hstore. apply lookup_insert_eq.
    + apply Hcalls. apply Exists_cons_hd. reflexivity.
Defined.

Lemma clearGatewayListeners_noop_witness :
  let ing := ex_ing [] in
  let gwListeners := [ex_foreign; ex_foreign_b] in
  let w := ex_cluster [] [] gwListeners in
  let w1 := log (Lister_Gateways_Get "istio-system" "gw") w in
  clear_loop "kni-uid-1" 2 gwListeners = Some gwListeners
  /\ clearGatewayListeners ing ex_gwName w = (Returns None, w1)
  /\ (forall c, c ∈ new_calls w w1 -> is_write c = false)
  /\ gateways w1 = gateways w.
Proof.
  apply (clearGatewayListeners_noop (ex_ing []) ex_gwName
           (ex_cluster [] [] [ex_foreign; ex_foreign_b])
           (log (Lister_Gateways_Get "istio-system" "gw")
              (ex_cluster [] [] [ex_foreign; ex_foreign_b]))
           (ex_gateway [ex_foreign; ex_foreign_b])).
  - vm_compute. reflexivity.
  - repeat constructor; discriminate.
Defined.

(* ===================================================================== *)
(** ** Converging an HTTPRoute *)
(* ===================================================================== *)

Lemma httprouteLister_Get_inl (ns name : string) (w w1 : Cluster) (r : HTTPRoute) :
  httprouteLister_Get ns name w = (inl r, w1) ->
  w1 = log (Lister_HTTPRoutes_Get ns name) w
  /\ reactor w (Lister_HTTPRoutes_Get ns name) = None
  /\ httproutes w !! (ns, name) = Some r.
Proof.
  unfold httprouteLister_Get.
  destruct (reactor w _); [intros [=]|].
  destruct (httproutes w !! (ns, name)); intros [=]; subst. done.
Qed.

Lemma httprouteLister_Get_faithful (ns name : string) (w : Cluster) :
  reactor w (Lister_HTTPRoutes_Get ns name) = None ->
  httprouteLister_Get ns name w
  = (match httproutes w !! (ns, name) with
     | Some r => inl r
     | None => inr (NewNotFound "httproute" name)
     end, log (Lister_HTTPRoutes_Get ns name) w).
Proof.
  intros Hr. unfold httprouteLister_Get. rewrite Hr.
  by destruct (httproutes w !! (ns, name)).
Qed.

Lemma gwapiclient_HTTPRoutes_Create_inl (ns : string) (obj r : HTTPRoute)
    (w w2 : Cluster) :
  gwapiclient_HTTPRoutes_Create ns obj w = (inl r, w2) ->
  r = obj
  /\ calls w2 = calls w ++ [HTTPRoutes_Create ns obj]
  /\ reactor w2 = reactor w
  /\ httproutes w2
     = <[(ns, ObjectMeta_Name (HTTPRoute_ObjectMeta obj)) := obj]> (httproutes w).
Proof.
  unfold gwapiclient_HTTPRoutes_Create.
  destruct (reactor w _); [intros [=]|].
  destruct (httproutes w !! _); intros [=]; subst. done.
Qed.

Lemma gwapiclient_HTTPRoutes_Update_inl (ns : string) (obj r : HTTPRoute)
    (w w2 : Cluster) :
  gwapiclient_HTTPRoutes_Update ns obj w = (inl r, w2) ->
  r = obj
  /\ calls w2 = calls w ++ [HTTPRoutes_Update ns obj]
  /\ reactor w2 = reactor w
  /\ httproutes w2
     = <[(ns, ObjectMeta_Name (HTTPRoute_ObjectMeta obj)) := obj]> (httproutes w).
Proof.
  unfold gwapiclient_HTTPRoutes_Update.
  destruct (reactor w _); [intros [=]|].
  destruct (httproutes w !! _); intros [=]; subst. done.
Qed.

(** Found and semantically equal: the observed route is returned as it is,
    and nothing is written. *)
Lemma reconcileHTTPRoute_noop (ing : Ingress) (desired observed : HTTPRoute)
    (w w1 : Cluster) :
  httprouteLister_Get (Ingress_Namespace ing)
    (ObjectMeta_Name (HTTPRoute_ObjectMeta desired)) w = (inl observed, w1) ->
  Semantic_DeepEqual (HTTPRoute_Spec observed) (HTTPRoute_Spec desired) = true ->
  Semantic_DeepEqual (ObjectMeta_Annotations (HTTPRoute_ObjectMeta observed))
    (ObjectMeta_Annotations (HTTPRoute_ObjectMeta desired)) = true ->
  Semantic_DeepEqual (ObjectMeta_Labels (HTTPRoute_ObjectMeta observed))
    (ObjectMeta_Labels (HTTPRoute_ObjectMeta desired)) = true ->
  reconcileHTTPRoute ing desired w = (inl observed, w1)
  /\ new_calls w w1
     = [Lister_HTTPRoutes_Get (Ingress_Namespace ing)
          (ObjectMeta_Name (HTTPRoute_ObjectMeta desired))]
  /\ httproutes w1 = httproutes w.
Proof.
  intros Hget Hspec Hann Hlab.
  unfold reconcileHTTPRoute, mbind, M_bind, mret, M_ret.
  rewrite Hget. simpl. rewrite Hspec, Hann, Hlab. simpl. split; [done|].
  apply httprouteLister_Get_inl in Hget as (-> & _ & _).
  unfold new_calls. simpl. by rewrite drop_app_length.
Qed.

(** C3.  reconcileHTTPRoute on a route the lister finds and whose spec,
    annotations and labels are semantically equal to the desired ones returns
    the observed route as it is and issues no create and no update.  Hence a
    second call with the same desired route, on the cluster a successful
    first call leaves (the store holds every route under its own name, the
    lister answers from the store, and the desired route lies in the
    ingress's namespace, as the builder makes it), returns the same route and
    writes nothing. *)
Theorem reconcileHTTPRoute_idempotent
    (ing : Ingress) (desired : HTTPRoute) (w : Cluster) :
  (forall observed w1,
      httprouteLister_Get (Ingress_Namespace ing)
        (ObjectMeta_Name (HTTPRoute_ObjectMeta desired)) w = (inl observed, w1) ->
      Semantic_DeepEqual (HTTPRoute_Spec observed) (HTTPRoute_Spec desired) = true ->
      Semantic_DeepEqual (ObjectMeta_Annotations (HTTPRoute_ObjectMeta observed))
        (ObjectMeta_Annotations (HTTPRoute_ObjectMeta desired)) = true ->
      Semantic_DeepEqual (ObjectMeta_Labels (HTTPRoute_ObjectMeta observed))
        (ObjectMeta_Labels (HTTPRoute_ObjectMeta desired)) = true ->
      reconcileHTTPRoute ing desired w = (inl observed, w1)
      /\ (forall c, c ∈ new_calls w w1 -> is_write c = false)
      /\ httproutes w1 = httproutes w)
  /\ (forall route w1,
        httproutes_wf w ->
        reactor w (Lister_HTTPRoutes_Get (Ingress_Namespace ing)
                     (ObjectMeta_Name (HTTPRoute_ObjectMeta desired))) = None ->
        ObjectMeta_Namespace (HTTPRoute_ObjectMeta desired) = Ingress_Namespace ing ->
        reconcileHTTPRoute ing desired w = (inl route, w1) ->
        exists w2,
          reconcileHTTPRoute ing desired w1 = (inl route, w2)
          /\ (forall c, c ∈ new_calls w1 w2 -> is_write c = false)
          /\ httproutes w2 = httproutes w1).
Proof.
  split.
  - intros observed w1 Hget Hspec Hann Hlab.
    destruct (reconcileHTTPRoute_noop ing desired observed w w1 Hget Hspec Hann Hlab)
      as (Hrun & Hcalls & Hstore).
    split; [done|]. split; [|done].
    intros c Hc. rewrite Hcalls in Hc. by apply list_elem_of_singleton in Hc as ->.
  - intros route w1 Hwf Hfaithful Hns Hrun.
    (* After the first call the store holds [route] under the name the
       lister reads, the lister still answers from the store, and [route]
       equals [desired] in spec, annotations and labels. *)
    assert (reactor w1 (Lister_HTTPRoutes_Get (Ingress_Namespace ing)
                          (ObjectMeta_Name (HTTPRoute_ObjectMeta desired))) = None
            /\ httproutes w1 !! (Ingress_Namespace ing,
                                 ObjectMeta_Name (HTTPRoute_ObjectMeta desired))
               = Some route
            /\ HTTPRoute_Spec route = HTTPRoute_Spec desired
            /\ ObjectMeta_Annotations (HTTPRoute_ObjectMeta route)
               = ObjectMeta_Annotations (HTTPRoute_ObjectMeta desired)
            /\ ObjectMeta_Labels (HTTPRoute_ObjectMeta route)
               = ObjectMeta_Labels (HTTPRoute_ObjectMeta desired))
      as (Hfaithful1 & Hstored & Hspec & Hann & Hlab).
    { revert Hrun. unfold reconcileHTTPRoute, mbind, M_bind, mret, M_ret.
      rewrite (httprouteLister_Get_faithful _ _ _ Hfaithful).
      destruct (httproutes w !! _) as [observed|] eqn:Hlook; simpl.
      - destruct (Hwf _ _ _ Hlook) as [Hons Honame].
        destruct (negb _ || negb _ || negb _) eqn:Hdiff.
        + (* found and different: updated *)
          match goal with
          | |- context [gwapiclient_HTTPRoutes_Update ?ns ?o ?w0] =>
              destruct (gwapiclient_HTTPRoutes_Update ns o w0) as [[updated|err] w2] eqn:Hu
          end; simpl; [|intros [=]].
          intros [= <- <-].
          apply gwapiclient_HTTPRoutes_Update_inl in Hu as (-> & _ & Hreact & Hstore).
          simpl in *. rewrite Hreact, Hstore, Hons, Honame.
          rewrite lookup_insert_eq. done.
        + (* found and equal: untouched *)
          intros [= <- <-]. simpl.
          apply orb_false_elim in Hdiff as [Hdiff Hlab].
          apply orb_false_elim in Hdiff as [Hspec Hann].
          apply negb_false_iff, Semantic_DeepEqual_true in Hspec.
          apply negb_false_iff, Semantic_DeepEqual_true in Hann.
          apply negb_false_iff, Semantic_DeepEqual_true in Hlab.
          done.
      - (* not found: created *)
        match goal with
        | |- context [gwapiclient_HTTPRoutes_Create ?ns ?o ?w0] =>
            destruct (gwapiclient_HTTPRoutes_Create ns o w0) as [[created|err] w2] eqn:Hc
        end; simpl; [|intros [=]].
        intros [= <- <-].
        apply gwapiclient_HTTPRoutes_Create_inl in Hc as (-> & _ & Hreact & Hstore).
        simpl in *. rewrite Hreact, Hstore, Hns.
        rewrite lookup_insert_eq. done. }
    destruct (reconcileHTTPRoute_noop ing desired route w1
                (log (Lister_HTTPRoutes_Get (Ingress_Namespace ing)
                        (ObjectMeta_Name (HTTPRoute_ObjectMeta desired))) w1))
      as (Hrun2 & Hcalls & Hstore).
    { rewrite (httprouteLister_Get_faithful _ _ _ Hfaithful1). by rewrite Hstored. }
    { rewrite Hspec. apply Semantic_DeepEqual_refl. }
    { rewrite Hann. apply Semantic_DeepEqual_refl. }
    { rewrite Hlab. apply Semantic_DeepEqual_refl. }
    eexists. split; [done|]. split; [|done].
    intros c Hc. rewrite Hcalls in Hc. by apply list_elem_of_singleton in Hc as ->.
Qed.

(* ===================================================================== *)
(** ** Converging the ReferenceGrant: ownership *)
(* ===================================================================== *)

(** C4.  When the lister finds the ReferenceGrant of the derived name and
    the ingress does not control it, reconcileTLS returns the error
    "ReferenceGrant ... not owned by ..." after the read and one event: it
    issues no update (no write at all) and leaves the store's grants as they
    were.  Nothing is assumed of the grant's spec: the ownership test decides
    before the specs are compared, whether they are equal or not. *)
Theorem reconcileTLS_not_owned
    (MakeReferenceGrant :
       Context -> Ingress -> PartialObjectMetadata -> PartialObjectMetadata ->
       ReferenceGrant)
    (ctx : Context) (tls : IngressTLS) (ing : Ingress)
    (w w1 : Cluster) (rp : ReferenceGrant) :
  let desired := reconcileTLS_desired MakeReferenceGrant ctx tls ing in
  referenceGrantLister_Get
    (ObjectMeta_Namespace (ReferenceGrant_ObjectMeta desired))
    (ObjectMeta_Name (ReferenceGrant_ObjectMeta desired)) w = (inl rp, w1) ->
  IsControlledBy (ReferenceGrant_ObjectMeta rp) (Ingress_ObjectMeta ing) = false ->
  let r := reconcileTLS MakeReferenceGrant ctx tls ing w in
  r.1 = inr (Errorf "ReferenceGrant %s not owned by %s"
               [ObjectMeta_Name (ReferenceGrant_ObjectMeta rp); Ingress_Name ing])
  /\ new_calls w r.2
     = [Lister_ReferenceGrants_Get
          (ObjectMeta_Namespace (ReferenceGrant_ObjectMeta desired))
          (ObjectMeta_Name (ReferenceGrant_ObjectMeta desired));
        Recorder_Eventf "Warning" "NotOwned"
          "ReferenceGrant %s not owned by this object"
          [ArgS (ObjectMeta_Name (ReferenceGrant_ObjectMeta desired))]]
  /\ (forall c, c ∈ new_calls w r.2 -> is_write c = false)
  /\ referencegrants r.2 = referencegrants w.
Proof.
  intros desired Hget Hnot r.
  assert (r = (inr (Errorf "ReferenceGrant %s not owned by %s"
                      [ObjectMeta_Name (ReferenceGrant_ObjectMeta rp); Ingress_Name ing]),
               log (Recorder_Eventf "Warning" "NotOwned"
                      "ReferenceGrant %s not owned by this object"
                      [ArgS (ObjectMeta_Name (ReferenceGrant_ObjectMeta desired))]) w1))
    as ->.
  { subst r. unfold reconcileTLS, mbind, M_bind, mret, M_ret.
    fold desired. rewrite Hget. simpl. rewrite Hnot. done. }
  assert (w1 = log (Lister_ReferenceGrants_Get
                      (ObjectMeta_Namespace (ReferenceGrant_ObjectMeta desired))
                      (ObjectMeta_Name (ReferenceGrant_ObjectMeta desired))) w) as ->.
  { revert Hget. unfold referenceGrantLister_Get.
    destruct (reactor w _); [intros [=]|].
    destruct (referencegrants w !! _); intros [=]; by subst. }
  assert (forall a b : Call, new_calls w (log b (log a w)) = [a; b]) as Hnew.
  { intros a b. unfold new_calls. simpl. by rewrite <- app_assoc, drop_app_length. }
  simpl. rewrite Hnew. repeat split; try done.
  intros c Hc. apply elem_of_cons in Hc as [->|Hc]; [done|].
  by apply list_elem_of_singleton in Hc as ->.
Qed.

(* ===================================================================== *)
(** ** The redirect route: the TLS precondition *)
(* ===================================================================== *)

Lemma new_calls_log1 (w : Cluster) (a : Call) : new_calls w (log a w) = [a].
Proof. unfold new_calls. simpl. by rewrite drop_app_length. Qed.

Lemma HTTPRoutes_Update_new_calls (ns : string) (obj : HTTPRoute) (w w0 : Cluster)
    (a : Call) (tail : list Call) :
  calls w0 = calls w ++ [a] ->
  forall r w2 w',
    gwapiclient_HTTPRoutes_Update ns obj w0 = (r, w2) ->
    calls w' = calls w2 ++ tail ->
    HTTPRoutes_Update ns obj ∈ new_calls w w'.
Proof.
  intros H0 r w2 w' Hu Hw'. unfold new_calls. rewrite Hw'.
  assert (calls w2 = calls w0 ++ [HTTPRoutes_Update ns obj]) as ->.
  { revert Hu. unfold gwapiclient_HTTPRoutes_Update.
    destruct (reactor _ _); [|destruct (httproutes _ !! _)]; by intros [= <- <-]. }
  rewrite H0, <- !app_assoc, drop_app_length. set_solver.
Qed.

Lemma HTTPRoutes_Create_new_calls (ns : string) (obj : HTTPRoute) (w w0 : Cluster)
    (a : Call) (tail : list Call) :
  calls w0 = calls w ++ [a] ->
  forall r w2 w',
    gwapiclient_HTTPRoutes_Create ns obj w0 = (r, w2) ->
    calls w' = calls w2 ++ tail ->
    HTTPRoutes_Create ns obj ∈ new_calls w w'.
Proof.
  intros H0 r w2 w' Hu Hw'. unfold new_calls. rewrite Hw'.
  assert (calls w2 = calls w0 ++ [HTTPRoutes_Create ns obj]) as ->.
  { revert Hu. unfold gwapiclient_HTTPRoutes_Create.
    destruct (reactor _ _); [|destruct (httproutes _ !! _)]; by intros [= <- <-]. }
  rewrite H0, <- !app_assoc, drop_app_length. set_solver.
Qed.

(** What a write comes back with does not depend on the log. *)
Lemma HTTPRoutes_Update_log (ns : string) (obj : HTTPRoute) (a : Call) (w : Cluster) :
  (gwapiclient_HTTPRoutes_Update ns obj (log a w)).1
  = (gwapiclient_HTTPRoutes_Update ns obj w).1.
Proof.
  unfold gwapiclient_HTTPRoutes_Update. simpl.
  destruct (reactor w _); [done|]. by destruct (httproutes w !! _).
Qed.

Lemma HTTPRoutes_Create_log (ns : string) (obj : HTTPRoute) (a : Call) (w : Cluster) :
  (gwapiclient_HTTPRoutes_Create ns obj (log a w)).1
  = (gwapiclient_HTTPRoutes_Create ns obj w).1.
Proof.
  unfold gwapiclient_HTTPRoutes_Create. simpl.
  destruct (reactor w _); [done|]. by destruct (httproutes w !! _).
Qed.

(** An error of reconcileHTTPRoute is the error of its read, or wraps the
    error of its create or of its update. *)
Lemma reconcileHTTPRoute_error (ing : Ingress) (desired : HTTPRoute)
    (w w' : Cluster) (e : error) :
  reconcileHTTPRoute ing desired w = (inr e, w') -> store_error w w' e.
Proof.
  unfold reconcileHTTPRoute, mbind, M_bind, mret, M_ret.
  destruct (httprouteLister_Get _ _ w) as [[observed|err] w1] eqn:Hget.
  - apply httprouteLister_Get_inl in Hget as (-> & _ & _).
    destruct (negb _ || negb _ || negb _); [|intros [=]].
    match goal with
    | |- context [gwapiclient_HTTPRoutes_Update ?ns ?o ?w0] =>
        destruct (gwapiclient_HTTPRoutes_Update ns o w0) as [[updated|err] w2] eqn:Hu;
        [intros [=]|];
        intros [= <- <-]; exists (HTTPRoutes_Update ns o), err
    end.
    split; [|split].
    + eapply (HTTPRoutes_Update_new_calls _ _ w); [|exact Hu|]; simpl; done.
    + unfold call_error, err_of.
      rewrite <- (HTTPRoutes_Update_log _ _
                    (Lister_HTTPRoutes_Get (Ingress_Namespace ing)
                       (ObjectMeta_Name (HTTPRoute_ObjectMeta desired)))).
      by rewrite Hu.
    + right. by eexists _, _.
  - assert (w1 = log (Lister_HTTPRoutes_Get (Ingress_Namespace ing)
                        (ObjectMeta_Name (HTTPRoute_ObjectMeta desired))) w) as Hw1.
    { revert Hget. unfold httprouteLister_Get.
      destruct (reactor w _); [by intros [=]|].
      destruct (httproutes w !! _); by intros [=]. }
    destruct (IsNotFound err).
    + match goal with
      | |- context [gwapiclient_HTTPRoutes_Create ?ns ?o ?w0] =>
          destruct (gwapiclient_HTTPRoutes_Create ns o w0) as [[created|err'] w2] eqn:Hc;
          [intros [=]|];
          intros [= <- <-]; exists (HTTPRoutes_Create ns o), err'
      end.
      split; [|split].
      * eapply (HTTPRoutes_Create_new_calls _ _ w); [|exact Hc|]; simpl; [|done].
        by rewrite Hw1.
      * unfold call_error, err_of. rewrite Hw1 in Hc.
        rewrite <- (HTTPRoutes_Create_log _ _
                      (Lister_HTTPRoutes_Get (Ingress_Namespace ing)
                         (ObjectMeta_Name (HTTPRoute_ObjectMeta desired)))).
        by rewrite Hc.
      * right. by eexists _, _.
    + intros [= <- <-].
      exists (Lister_HTTPRoutes_Get (Ingress_Namespace ing)
                (ObjectMeta_Name (HTTPRoute_ObjectMeta desired))), err.
      split; [|split].
      * rewrite Hw1, new_calls_log1. set_solver.
      * unfold call_error, err_of. by rewrite Hget.
      * by left.
Qed.

(** A caller of the builder returns what reconcileHTTPRoute returns. *)
Lemma Returns_bind_inv {A : Type} (m : M A) (w w' : Cluster) (a : A) :
  (r ← m; mret (Returns r)) w = (Returns a, w') -> m w = (a, w').
Proof.
  unfold mbind, M_bind, mret, M_ret. destruct (m w) as [a0 w0].
  by intros [= -> ->].
Qed.


(** On a rule without an HTTP block the callers of the builder panic with it,
    before any call to the store; reconcileRedirectHTTPRoute does so only
    past its TLS test. *)
Lemma reconcileWorkloadRoute_without_HTTP
    (LongestHost : list string -> string) (rt : GoRuntime)
    (ctx : Context) (ing : Ingress) (rule : IngressRule) (w : Cluster) :
  IngressRule_HTTP rule = None ->
  reconcileWorkloadRoute LongestHost rt ctx ing rule w = (Panics, w).
Proof.
  intros Hhttp. unfold reconcileWorkloadRoute. cbv zeta.
  by erewrite (proj2 (proj2 (MakeHTTPRoute_without_HTTP _ _ _ _ _ Hhttp))).
Qed.

Lemma reconcileRedirectHTTPRoute_without_HTTP
    (LongestHost : list string -> string) (rt : GoRuntime)
    (ctx : Context) (ing : Ingress) (rule : IngressRule) (w : Cluster) :
  IngressRule_HTTP rule = None ->
  reconcileRedirectHTTPRoute LongestHost rt ctx ing rule w
  = if bool_decide (IngressSpec_TLS (Ingress_Spec ing) = [])
    then (Returns (inr noTLSError), w) else (Panics, w).
Proof.
  intros Hhttp. unfold reconcileRedirectHTTPRoute.
  destruct (IngressSpec_TLS (Ingress_Spec ing)) as [|tls tlss]; simpl; [done|].
  by erewrite (proj2 (proj2 (MakeRedirectHTTPRoute_without_HTTP _ _ _ _ _ Hhttp))).
Qed.

(* ===================================================================== *)
(** ** The theorems at work on the concrete cluster *)
(* ===================================================================== *)

Definition ex_desired : HTTPRoute :=
  match MakeHTTPRoute ex_LongestHost forwardRuntime (ex_ing []) ex_rule ex_ref with
  | Returns (inl route) => route
  | _ => {| HTTPRoute_ObjectMeta := meta0 "" "" "";
                HTTPRoute_Spec := {| HTTPRouteSpec_ParentRefs := [];
                                     HTTPRouteSpec_Hostnames := [];
                                     HTTPRouteSpec_Rules := [] |} |}
  end.

(** The first call creates the route, the second writes nothing. *)
Lemma reconcileHTTPRoute_idempotent_witness :
  let w := ex_cluster [] [] [] in
  let r1 := reconcileHTTPRoute (ex_ing []) ex_desired w in
  r1.1 = inl ex_desired
  /\ HTTPRoutes_Create "ns" ex_desired ∈ new_calls w r1.2
  /\ exists w2,
       reconcileHTTPRoute (ex_ing []) ex_desired r1.2 = (inl ex_desired, w2)
       /\ (forall c, c ∈ new_calls r1.2 w2 -> is_write c = false)
       /\ httproutes w2 = httproutes r1.2.
Proof.
  split; [vm_compute; reflexivity|].
  split; [apply (bool_decide_unpack _); vm_compute; exact I|].
  apply (proj2 (reconcileHTTPRoute_idempotent (ex_ing []) ex_desired
                  (ex_cluster [] [] []))).
  - intros ns name r Hr. simpl in Hr. by rewrite lookup_empty in Hr.
  - reflexivity.
  - reflexivity.
  - vm_compute. reflexivity.
Defined.

Lemma reconcileTLS_not_owned_witness :
  let tls := ex_tls ["a.example.com"] in
  let ing := ex_ing [tls] in
  let w := ex_cluster [] [ex_foreign_grant] [ex_foreign] in
  let r := reconcileTLS ex_MakeReferenceGrant ex_ctx tls ing w in
  r.1 = inr (Errorf "ReferenceGrant %s not owned by %s" ["tls-secret-grant"; "ing"])
  /\ (forall c, c ∈ new_calls w r.2 -> is_write c = false)
  /\ referencegrants r.2 = referencegrants w.
Proof.
  pose proof (reconcileTLS_not_owned ex_MakeReferenceGrant ex_ctx
                (ex_tls ["a.example.com"]) (ex_ing [ex_tls ["a.example.com"]])
                (ex_cluster [] [ex_foreign_grant] [ex_foreign])
                (log (Lister_ReferenceGrants_Get "ns" "tls-secret-grant")
                   (ex_cluster [] [ex_foreign_grant] [ex_foreign]))
                ex_foreign_grant) as H.
  destruct H as (Herr & _ & Hwrites & Hstore).
  - vm_compute. reflexivity.
  - reflexivity.
  - split; [exact Herr|]. split; [exact Hwrites|exact Hstore].
Defined.


(* ===================================================================== *)
(** ** Further properties of the builder *)
(* ===================================================================== *)

Lemma Forall2_imap {A B : Type} (P : A -> B -> Prop) (f : nat -> A -> B) (l : list A) :
  (forall i x, l !! i = Some x -> P x (f i x)) -> Forall2 P l (imap f l).
Proof.
  intros H. apply Forall2_same_length_lookup_2.
  - by rewrite length_imap.
  - intros i x y Hx Hy. rewrite list_lookup_imap, Hx in Hy. simpl in Hy.
    injection Hy as <-. by apply H.
Qed.

Lemma sorted_headers_list (rt : GoRuntime) (s : site) (m : gmap string string) :
  lists_headers m (sort_Sort rt HTTPHeaderList (header_of <$> mapiter rt s m)).
Proof.
  assert (sort_Sort rt HTTPHeaderList (header_of <$> mapiter rt s m)
          ≡ₚ header_of <$> map_to_list m) as Hp.
  { rewrite (sort_Sort_perm rt _ _ _ _ HTTPHeaderList_slice_interface).
    by rewrite mapiter_perm. }
  split.
  - unfold headers_map. symmetry. apply list_to_map_flip.
    rewrite Hp, <- list_fmap_compose.
    rewrite (list_fmap_ext _ id (map_to_list m)); [by rewrite list_fmap_id|].
    by intros i [k v] _.
  - by rewrite Hp, length_fmap, length_map_to_list.
Qed.

Lemma sorted_header_matches_list (rt : GoRuntime) (s : site) (m : gmap string HeaderMatch) :
  let hs := sort_Sort rt HTTPHeaderMatchList (header_match_of <$> mapiter rt s m) in
  header_matches_map hs = m
  /\ length hs = size m
  /\ Forall (fun h => HTTPHeaderMatch_Type h = Some HeaderMatchExact) hs.
Proof.
  intros hs.
  assert (hs ≡ₚ header_match_of <$> map_to_list m) as Hp.
  { subst hs. rewrite (sort_Sort_perm rt _ _ _ _ HTTPHeaderMatchList_slice_interface).
    by rewrite mapiter_perm. }
  split; [|split].
  - unfold header_matches_map. symmetry. apply list_to_map_flip.
    rewrite Hp, <- list_fmap_compose.
    rewrite (list_fmap_ext _ id (map_to_list m)); [by rewrite list_fmap_id|].
    by intros i [k [v]] _.
  - by rewrite Hp, length_fmap, length_map_to_list.
  - rewrite Hp. apply Forall_fmap, Forall_forall. done.
Qed.

Lemma int32_small (x : Z) : (- 2 ^ 31 <= x < 2 ^ 31)%Z -> int32 x = x.
Proof. intros H. unfold int32. rewrite Z.mod_small; lia. Qed.

Lemma string_length_append (s t : string) :
  String.length (s +:+ t) = String.length s + String.length t.
Proof. induction s as [|c s IH]; simpl; [done|]. by rewrite IH. Qed.

Lemma string_append_ne (s t : string) : t <> EmptyString -> s +:+ t <> s.
Proof.
  intros Ht Heq. apply (f_equal String.length) in Heq.
  rewrite string_length_append in Heq. destruct t; [done|]. simpl in Heq. lia.
Qed.

(** X1.  For a rule whose HTTP block is set, both builders return a route.
    MakeHTTPRoute names it by LongestHost of the rule's hosts and
    MakeRedirectHTTPRoute by that name followed by "-redirect", so the two
    routes of a rule never carry the same name.  Both routes lie in the
    ingress's namespace and carry exactly one owner reference, the controller
    reference of the ingress: metav1.IsControlledBy holds of each. *)
Theorem MakeHTTPRoute_identity
    (LongestHost : list string -> string) (rt : GoRuntime)
    (ing : Ingress) (rule : IngressRule) (ref ref' : ParentReference)
    (http : HTTPIngressRuleValue) :
  IngressRule_HTTP rule = Some http ->
  exists route redirect,
    MakeHTTPRoute LongestHost rt ing rule ref = Returns (inl route)
    /\ MakeRedirectHTTPRoute LongestHost rt ing rule ref' = Returns (inl redirect)
    /\ ObjectMeta_Name (HTTPRoute_ObjectMeta route) = LongestHost (IngressRule_Hosts rule)
    /\ ObjectMeta_Name (HTTPRoute_ObjectMeta redirect)
       = ObjectMeta_Name (HTTPRoute_ObjectMeta route) +:+ "-redirect"
    /\ ObjectMeta_Name (HTTPRoute_ObjectMeta redirect)
       <> ObjectMeta_Name (HTTPRoute_ObjectMeta route)
    /\ ObjectMeta_Namespace (HTTPRoute_ObjectMeta route) = Ingress_Namespace ing
    /\ ObjectMeta_Namespace (HTTPRoute_ObjectMeta redirect) = Ingress_Namespace ing
    /\ (exists owner,
          ObjectMeta_OwnerReferences (HTTPRoute_ObjectMeta route) = [owner]
          /\ ObjectMeta_OwnerReferences (HTTPRoute_ObjectMeta redirect) = [owner]
          /\ OwnerReference_Kind owner = "Ingress"
          /\ OwnerReference_Name owner = Ingress_Name ing
          /\ OwnerReference_UID owner = Ingress_GetUID ing
          /\ OwnerReference_Controller owner = Some true)
    /\ IsControlledBy (HTTPRoute_ObjectMeta route) (Ingress_ObjectMeta ing) = true
    /\ IsControlledBy (HTTPRoute_ObjectMeta redirect) (Ingress_ObjectMeta ing) = true.
Proof.
  intros Hhttp.
  unfold MakeHTTPRoute, MakeRedirectHTTPRoute, makeHTTPRouteSpec,
    makeRedirectHTTPRouteSpec, makeHTTPRouteRule, makeRedirectHTTPRouteRule.
  rewrite Hhttp.
  eexists _, _. split; [reflexivity|]. split; [reflexivity|]. simpl.
  split; [done|]. split; [done|]. split; [by apply string_append_ne|].
  split; [done|]. split; [done|]. split.
  - eexists. repeat split; reflexivity.
  - unfold IsControlledBy. simpl. unfold Ingress_GetUID. by rewrite String.eqb_refl.
Qed.

(** X2.  For a rule whose HTTP block is set, both builders give the route
    they return the ingress's labels and the visibility label.  Its value is
    "cluster-local" for a rule of cluster-local visibility and empty for any
    other; it overrides a label of that key on the ingress, and every other
    key is looked up as on the ingress. *)
Theorem MakeHTTPRoute_labels
    (LongestHost : list string -> string) (rt : GoRuntime)
    (ing : Ingress) (rule : IngressRule) (ref ref' : ParentReference)
    (http : HTTPIngressRuleValue) :
  IngressRule_HTTP rule = Some http ->
  exists route redirect,
    MakeHTTPRoute LongestHost rt ing rule ref = Returns (inl route)
    /\ MakeRedirectHTTPRoute LongestHost rt ing rule ref' = Returns (inl redirect)
    /\ ObjectMeta_Labels (HTTPRoute_ObjectMeta redirect)
       = ObjectMeta_Labels (HTTPRoute_ObjectMeta route)
    /\ (IngressRule_Visibility rule = IngressVisibilityClusterLocal ->
        ObjectMeta_Labels (HTTPRoute_ObjectMeta route) !! VisibilityLabelKey
        = Some "cluster-local")
    /\ (IngressRule_Visibility rule <> IngressVisibilityClusterLocal ->
        ObjectMeta_Labels (HTTPRoute_ObjectMeta route) !! VisibilityLabelKey
        = Some EmptyString)
    /\ (forall key, key <> VisibilityLabelKey ->
          ObjectMeta_Labels (HTTPRoute_ObjectMeta route) !! key
          = Ingress_Labels ing !! key).
Proof.
  intros Hhttp.
  unfold MakeHTTPRoute, MakeRedirectHTTPRoute, makeHTTPRouteSpec,
    makeRedirectHTTPRouteSpec, makeHTTPRouteRule, makeRedirectHTTPRouteRule.
  rewrite Hhttp.
  eexists _, _. split; [reflexivity|]. split; [reflexivity|]. simpl.
  split; [done|]. unfold kmap_Union.
  split; [|split].
  - intros ->. rewrite lookup_union_l' by (rewrite lookup_singleton_eq; eauto).
    by rewrite lookup_singleton_eq.
  - intros Hne. rewrite lookup_union_l' by (rewrite lookup_singleton_eq; eauto).
    rewrite lookup_singleton_eq.
    by destruct (String.eqb_spec (IngressRule_Visibility rule) IngressVisibilityClusterLocal).
  - intros key Hne. apply lookup_union_r. by apply lookup_singleton_ne.
Qed.

(** X3.  For a rule whose HTTP block is set, both builders copy the
    ingress's annotations to the route they return, except the
    last-applied-configuration annotation, which a route never carries. *)
Theorem MakeHTTPRoute_annotations
    (LongestHost : list string -> string) (rt : GoRuntime)
    (ing : Ingress) (rule : IngressRule) (ref ref' : ParentReference)
    (http : HTTPIngressRuleValue) :
  IngressRule_HTTP rule = Some http ->
  exists route redirect,
    MakeHTTPRoute LongestHost rt ing rule ref = Returns (inl route)
    /\ MakeRedirectHTTPRoute LongestHost rt ing rule ref' = Returns (inl redirect)
    /\ ObjectMeta_Annotations (HTTPRoute_ObjectMeta redirect)
       = ObjectMeta_Annotations (HTTPRoute_ObjectMeta route)
    /\ ObjectMeta_Annotations (HTTPRoute_ObjectMeta route) !! LastAppliedConfigAnnotation
       = None
    /\ (forall key, key <> LastAppliedConfigAnnotation ->
          ObjectMeta_Annotations (HTTPRoute_ObjectMeta route) !! key
          = Ingress_GetAnnotations ing !! key).
Proof.
  intros Hhttp.
  unfold MakeHTTPRoute, MakeRedirectHTTPRoute, makeHTTPRouteSpec,
    makeRedirectHTTPRouteSpec, makeHTTPRouteRule, makeRedirectHTTPRouteRule.
  rewrite Hhttp.
  eexists _, _. split; [reflexivity|]. split; [reflexivity|]. simpl.
  split; [done|]. unfold kmap_Filter. split.
  - apply map_lookup_filter_None. right. intros v _ H. simpl in H.
    discriminate H.
  - intros key Hne. rewrite map_lookup_filter.
    destruct (Ingress_GetAnnotations ing !! key) as [v|]; [|done]. simpl.
    rewrite option_guard_True; [done|]. simpl. by apply String.eqb_neq.
Qed.

(** X4.  On a rule whose HTTP block is set, makeHTTPRouteRule returns one rule
    per path, in order, and in each rule one backend per split, in order.
    The backend names the split's service (kind Service, core group) and
    carries no namespace: the split's ServiceNamespace is dropped.  Its
    weight is the split's percentage converted to int32, which is the
    percentage itself within the int32 range. *)
Theorem makeHTTPRouteRule_backends (rt : GoRuntime) (rule : IngressRule)
    (http : HTTPIngressRuleValue) :
  IngressRule_HTTP rule = Some http ->
  exists rules,
    makeHTTPRouteRule rt rule = Returns rules
    /\ Forall2 (fun path r =>
                  Forall2 backend_of_split (HTTPIngressPath_Splits path)
                    (HTTPRouteRule_BackendRefs r))
         (HTTPIngressRuleValue_Paths http) rules.
Proof.
  intros Hhttp. unfold makeHTTPRouteRule. rewrite Hhttp.
  eexists. split; [reflexivity|]. apply Forall2_imap. intros i path _. simpl.
  apply Forall2_imap. intros j split _.
  unfold backend_of_split. simpl. repeat split; try done.
  intros Hp. unfold pointer_Int32. by rewrite int32_small.
Qed.

(** X5.  The header lists of the rules makeHTTPRouteRule returns, on a rule
    whose HTTP block is set, lose and repeat nothing.  A path whose
    AppendHeaders is nil gets no filter; any other path, one with an empty map included,
    gets one RequestHeaderModifier filter whose Set list holds every entry of
    the map exactly once.  Every backend has one such filter, for the
    AppendHeaders of its split. *)
Theorem makeHTTPRouteRule_headers (rt : GoRuntime) (rule : IngressRule)
    (http : HTTPIngressRuleValue) :
  IngressRule_HTTP rule = Some http ->
  exists rules,
    makeHTTPRouteRule rt rule = Returns rules
    /\ Forall2 (fun path r =>
                  match HTTPIngressPath_AppendHeaders path with
                  | None => HTTPRouteRule_Filters r = []
                  | Some m =>
                      exists hs, HTTPRouteRule_Filters r = [header_modifier hs]
                                 /\ lists_headers m hs
                  end
                  /\ Forall2 (fun split b =>
                                exists hs,
                                  HTTPBackendRef_Filters b = [header_modifier hs]
                                  /\ lists_headers
                                       (IngressBackendSplit_AppendHeaders split) hs)
                       (HTTPIngressPath_Splits path) (HTTPRouteRule_BackendRefs r))
         (HTTPIngressRuleValue_Paths http) rules.
Proof.
  intros Hhttp. unfold makeHTTPRouteRule. rewrite Hhttp.
  eexists. split; [reflexivity|].
  apply Forall2_imap. intros i path _. simpl. split.
  - destruct (HTTPIngressPath_AppendHeaders path) as [m|]; [|done].
    eexists. split; [reflexivity|]. apply sorted_headers_list.
  - apply Forall2_imap. intros j split _. simpl.
    eexists. split; [reflexivity|]. apply sorted_headers_list.
Qed.

(** X6.  matchesFromRulePath yields exactly one match.  Its path match is a
    PathPrefix match on the path, or on "/" when the path is empty, so the
    value is never empty; its header matches are Exact matches, one for every
    entry of the path's Headers and no other. *)
Theorem matchesFromRulePath_match (rt : GoRuntime) (s : site) (path : HTTPIngressPath) :
  exists value hs,
    matchesFromRulePath rt s path
    = [ {| HTTPRouteMatch_Path :=
             Some {| HTTPPathMatch_Type := Some PathMatchPathPrefix;
                     HTTPPathMatch_Value := Some value |};
           HTTPRouteMatch_Headers := hs |} ]
    /\ value <> EmptyString
    /\ (HTTPIngressPath_Path path = EmptyString -> value = "/")
    /\ (HTTPIngressPath_Path path <> EmptyString -> value = HTTPIngressPath_Path path)
    /\ header_matches_map hs = HTTPIngressPath_Headers path
    /\ length hs = size (HTTPIngressPath_Headers path)
    /\ Forall (fun h => HTTPHeaderMatch_Type h = Some HeaderMatchExact) hs.
Proof.
  unfold matchesFromRulePath.
  destruct (sorted_header_matches_list rt s (HTTPIngressPath_Headers path))
    as (Hmap & Hlen & Hexact).
  eexists _, _. split; [reflexivity|].
  split; [|split; [|split]]; [| | |done].
  - destruct (String.eqb_spec (HTTPIngressPath_Path path) EmptyString); done.
  - intros ->. done.
  - intros Hne. by destruct (String.eqb_spec (HTTPIngressPath_Path path) EmptyString).
Qed.

(** X7.  For a rule whose HTTP block is set, the redirect route mirrors the
    workload route of the same rule, whatever the runtimes: both carry the
    rule's hosts and the one parent reference they were given, they have the
    same number of rules and, rule by rule, the same matches.  A redirect
    rule has no backend and exactly one filter, the redirect to https on
    port 443 with status 301. *)
Theorem MakeRedirectHTTPRoute_mirrors
    (LongestHost : list string -> string) (rt1 rt2 : GoRuntime)
    (ing : Ingress) (rule : IngressRule) (ref ref' : ParentReference)
    (http : HTTPIngressRuleValue) :
  IngressRule_HTTP rule = Some http ->
  exists route redirect,
    MakeHTTPRoute LongestHost rt1 ing rule ref = Returns (inl route)
    /\ MakeRedirectHTTPRoute LongestHost rt2 ing rule ref' = Returns (inl redirect)
    /\ HTTPRouteSpec_Hostnames (HTTPRoute_Spec route) = IngressRule_Hosts rule
    /\ HTTPRouteSpec_Hostnames (HTTPRoute_Spec redirect) = IngressRule_Hosts rule
    /\ HTTPRouteSpec_ParentRefs (HTTPRoute_Spec route) = [ref]
    /\ HTTPRouteSpec_ParentRefs (HTTPRoute_Spec redirect) = [ref']
    /\ Forall2 (fun r r' =>
                  HTTPRouteRule_Matches r' = HTTPRouteRule_Matches r
                  /\ HTTPRouteRule_Filters r' = [redirect_filter]
                  /\ HTTPRouteRule_BackendRefs r' = [])
         (HTTPRouteSpec_Rules (HTTPRoute_Spec route))
         (HTTPRouteSpec_Rules (HTTPRoute_Spec redirect)).
Proof.
  intros Hhttp.
  unfold MakeHTTPRoute, MakeRedirectHTTPRoute, makeHTTPRouteSpec,
    makeRedirectHTTPRouteSpec, makeHTTPRouteRule, makeRedirectHTTPRouteRule.
  rewrite Hhttp.
  eexists _, _. split; [reflexivity|]. split; [reflexivity|]. simpl.
  repeat (split; [done|]).
  apply Forall2_same_length_lookup_2; [by rewrite !length_imap|].
  intros i r r' Hr Hr'. rewrite list_lookup_imap in Hr, Hr'.
  destruct (HTTPIngressRuleValue_Paths http !! i) as [path|]; [|done].
  simpl in Hr, Hr'. injection Hr as <-. injection Hr' as <-. simpl.
  split; [|done]. apply matchesFromRulePath_runtime_independent.
Qed.

Lemma makeHTTPRouteRule_blank_unread (rt : GoRuntime) (rule : IngressRule) :
  makeHTTPRouteRule rt (blank_unread rule) = makeHTTPRouteRule rt rule.
Proof.
  unfold makeHTTPRouteRule. simpl.
  destruct (IngressRule_HTTP rule) as [http|]; [|done]. simpl.
  f_equal. rewrite imap_fmap.
  apply imap_ext. intros i path _. simpl. by rewrite imap_fmap.
Qed.

Lemma makeRedirectHTTPRouteRule_blank_unread (rt : GoRuntime) (rule : IngressRule) :
  makeRedirectHTTPRouteRule rt (blank_unread rule) = makeRedirectHTTPRouteRule rt rule.
Proof.
  unfold makeRedirectHTTPRouteRule. simpl.
  destruct (IngressRule_HTTP rule) as [http|]; [|done]. simpl.
  by rewrite imap_fmap.
Qed.

(** X8.  The builders read neither a path's RewriteHost nor a backend's
    ServiceNamespace: blanking them in the rule leaves both results as they
    are, the route returned or, for a rule without an HTTP block, the
    panic. *)
Theorem MakeHTTPRoute_unread_fields
    (LongestHost : list string -> string) (rt : GoRuntime)
    (ing : Ingress) (rule : IngressRule) (ref : ParentReference) :
  MakeHTTPRoute LongestHost rt ing (blank_unread rule) ref
  = MakeHTTPRoute LongestHost rt ing rule ref
  /\ MakeRedirectHTTPRoute LongestHost rt ing (blank_unread rule) ref
     = MakeRedirectHTTPRoute LongestHost rt ing rule ref.
Proof.
  unfold MakeHTTPRoute, MakeRedirectHTTPRoute, makeHTTPRouteSpec,
    makeRedirectHTTPRouteSpec.
  by rewrite makeHTTPRouteRule_blank_unread, makeRedirectHTTPRouteRule_blank_unread.
Qed.

(** *** Less and Swap *)

Section sort_interface_by_name.

Context {A : Type} (key : A -> string) (I : sort_Interface A).
Hypothesis Less_eq : forall h i j,
  Less I h i j = match h !! i, h !! j with
                 | Some x, Some y => Returns (string_gt (key x) (key y))
                 | _, _ => Panics
                 end.
Hypothesis Swap_eq : forall h i j,
  Swap I h i j = match h !! i, h !! j with
                 | Some x, Some y => Returns (<[i := y]> (<[j := x]> h))
                 | _, _ => Panics
                 end.

Lemma Less_by_name_order (h : list A) : orders_by_name key (Less I) h.
Proof.
  split; [|split; [|split; [|split; [|split]]]].
  - intros i j. rewrite Less_eq.
    destruct (h !! i) as [x|] eqn:Hi; [destruct (h !! j) as [y|] eqn:Hj|].
    + apply lookup_lt_Some in Hi, Hj. split; [done|]. intros H. by destruct H.
    + apply lookup_ge_None in Hj. split; [|done]. intros _. lia.
    + apply lookup_ge_None in Hi. split; [|done]. intros _. lia.
  - intros i j x y Hi Hj. rewrite Less_eq, Hi, Hj. split; congruence.
  - intros i. rewrite Less_eq. destruct (h !! i) as [x|]; [|done].
    rewrite string_gt_irrefl. done.
  - intros i j. rewrite !Less_eq.
    destruct (h !! i) as [x|], (h !! j) as [y|]; try done.
    intros [= H]. by rewrite (string_gt_asym _ _ H).
  - intros i j k. rewrite !Less_eq.
    destruct (h !! i) as [x|], (h !! j) as [y|], (h !! k) as [z|]; try done.
    intros [= H1] [= H2]. by rewrite (string_gt_trans _ _ _ H1 H2).
  - intros i j x y Hi Hj. rewrite !Less_eq, Hi, Hj.
    intros [= H1] [= H2]. by apply string_gt_total.
Qed.

Lemma Swap_by_name_exchanges (h : list A) (i j : nat) : exchanges (Swap I) h i j.
Proof.
  split.
  - intros Hout. rewrite Swap_eq.
    destruct (h !! i) as [x|] eqn:Hx; [destruct (h !! j) as [y|] eqn:Hy|]; try done.
    apply lookup_lt_Some in Hx, Hy. by destruct Hout.
  - intros [Hi Hj].
    destruct (lookup_lt_is_Some_2 h i Hi) as [x Hx].
    destruct (lookup_lt_is_Some_2 h j Hj) as [y Hy].
    assert (<[i := y]> (<[j := x]> h) !! i = Some y) as Hi'.
    { apply list_lookup_insert_eq. by rewrite length_insert. }
    assert (<[i := y]> (<[j := x]> h) !! j = Some (if decide (i = j) then y else x))
      as Hj'.
    { destruct (decide (i = j)) as [->|Hne]; [done|].
      rewrite list_lookup_insert_ne by done. by apply list_lookup_insert_eq. }
    exists (<[i := y]> (<[j := x]> h)).
    split; [by rewrite Swap_eq, Hx, Hy|].
    split; [by rewrite !length_insert|].
    split; [by rewrite Hy|].
    split; [rewrite Hj', Hx; destruct (decide (i = j)) as [->|]; congruence|].
    split; [intros k Hki Hkj; by rewrite !list_lookup_insert_ne|].
    split; [by apply Permutation_insert_swap|].
    rewrite Swap_eq, Hi', Hj'. f_equal.
    apply list_eq. intros k.
    destruct (decide (k = i)) as [->|Hki].
    + rewrite list_lookup_insert_eq by (by rewrite !length_insert).
      destruct (decide (i = j)) as [->|]; congruence.
    + rewrite list_lookup_insert_ne by done.
      destruct (decide (k = j)) as [->|Hkj].
      * rewrite list_lookup_insert_eq by (by rewrite !length_insert). done.
      * by rewrite !list_lookup_insert_ne.
Qed.

End sort_interface_by_name.

(** X9.  Less of HTTPHeaderList and of HTTPHeaderMatchList panics exactly
    when an index lies outside the slice; inside, it is the strict order of
    the names, greater first: irreflexive, asymmetric and transitive, and two
    entries neither of which is less than the other carry the same name. *)
Theorem Less_orders_by_name :
  (forall h, orders_by_name HTTPHeader_Name HTTPHeaderList_Less h)
  /\ (forall h, orders_by_name HTTPHeaderMatch_Name HTTPHeaderMatchList_Less h).
Proof.
  split; intros h.
  - exact (Less_by_name_order HTTPHeader_Name HTTPHeaderList (fun _ _ _ => eq_refl) h).
  - exact (Less_by_name_order HTTPHeaderMatch_Name HTTPHeaderMatchList
             (fun _ _ _ => eq_refl) h).
Qed.

(** X10.  Swap of HTTPHeaderList and of HTTPHeaderMatchList panics exactly
    when an index lies outside the slice; inside, it exchanges the two
    entries and nothing else: the length and the other entries stay, the
    result is a permutation of the slice, and swapping again restores it. *)
Theorem Swap_exchanges :
  (forall h i j, exchanges HTTPHeaderList_Swap h i j)
  /\ (forall h i j, exchanges HTTPHeaderMatchList_Swap h i j).
Proof.
  split; intros h i j.
  - exact (Swap_by_name_exchanges HTTPHeaderList (fun _ _ _ => eq_refl) h i j).
  - exact (Swap_by_name_exchanges HTTPHeaderMatchList (fun _ _ _ => eq_refl) h i j).
Qed.

(* ===================================================================== *)
(** ** Further properties of reconcileHTTPRoute and its callers *)
(* ===================================================================== *)

Lemma new_calls_log2 (w : Cluster) (a b : Call) : new_calls w (log b (log a w)) = [a; b].
Proof. unfold new_calls. simpl. by rewrite <- app_assoc, drop_app_length. Qed.

Lemma new_calls_log3 (w : Cluster) (a b c : Call) :
  new_calls w (log c (log b (log a w))) = [a; b; c].
Proof. unfold new_calls. simpl. by rewrite <- !app_assoc, drop_app_length. Qed.

Lemma httprouteLister_Get_cases (ns name : string) (w : Cluster) :
  httprouteLister_Get ns name w
  = (match reactor w (Lister_HTTPRoutes_Get ns name) with
     | Some err => inr err
     | None => match httproutes w !! (ns, name) with
               | Some r => inl r
               | None => inr (NewNotFound "httproute" name)
               end
     end, log (Lister_HTTPRoutes_Get ns name) w).
Proof.
  unfold httprouteLister_Get. destruct (reactor w _); [done|].
  by destruct (httproutes w !! _).
Qed.

Lemma in_sync_test (observed desired : HTTPRoute) :
  negb (Semantic_DeepEqual (HTTPRoute_Spec observed) (HTTPRoute_Spec desired))
  || negb (Semantic_DeepEqual (ObjectMeta_Annotations (HTTPRoute_ObjectMeta observed))
             (ObjectMeta_Annotations (HTTPRoute_ObjectMeta desired)))
  || negb (Semantic_DeepEqual (ObjectMeta_Labels (HTTPRoute_ObjectMeta observed))
             (ObjectMeta_Labels (HTTPRoute_ObjectMeta desired)))
  = negb (bool_decide (HTTPRoute_in_sync observed desired)).
Proof.
  unfold Semantic_DeepEqual.
  destruct (bool_decide_reflect (HTTPRoute_in_sync observed desired)) as [(-> & -> & ->)|Hn].
  - by rewrite !bool_decide_eq_true_2.
  - simpl. unfold HTTPRoute_in_sync in Hn.
    repeat case_bool_decide; simpl; try done. tauto.
Qed.

(** reconcileHTTPRoute, by what the lister and the write come back with. *)
Lemma reconcileHTTPRoute_run (ing : Ingress) (desired : HTTPRoute) (w : Cluster) :
  let ns := Ingress_Namespace ing in
  let name := ObjectMeta_Name (HTTPRoute_ObjectMeta desired) in
  let w1 := log (Lister_HTTPRoutes_Get ns name) w in
  reconcileHTTPRoute ing desired w
  = match (httprouteLister_Get ns name w).1 with
    | inr err =>
        if IsNotFound err then
          match gwapiclient_HTTPRoutes_Create
                  (ObjectMeta_Namespace (HTTPRoute_ObjectMeta desired)) desired w1 with
          | (inr err', w2) =>
              (inr (ErrorfW "failed to create HTTPRoute: %w" [] err'),
               log (Recorder_Eventf "Warning" "CreationFailed"
                      "Failed to create HTTPRoute: %v" [ArgE err']) w2)
          | (inl httpRoute, w2) =>
              (inl httpRoute,
               log (Recorder_Eventf "Normal" "Created" "Created HTTPRoute %q"
                      [ArgS (ObjectMeta_Name (HTTPRoute_ObjectMeta httpRoute))]) w2)
          end
        else (inr err, w1)
    | inl observed =>
        if bool_decide (HTTPRoute_in_sync observed desired) then (inl observed, w1)
        else
          match gwapiclient_HTTPRoutes_Update
                  (ObjectMeta_Namespace (HTTPRoute_ObjectMeta observed))
                  (HTTPRoute_origin observed desired) w1 with
          | (inr err', w2) =>
              (inr (ErrorfW "failed to update HTTPRoute: %w" [] err'),
               log (Recorder_Eventf "Warning" "UpdateFailed"
                      "Failed to update HTTPRoute: %v" [ArgE err']) w2)
          | (inl updated, w2) => (inl updated, w2)
          end
    end.
Proof.
  intros ns name w1.
  unfold reconcileHTTPRoute, mbind, M_bind, mret, M_ret.
  fold ns name. rewrite (httprouteLister_Get_cases ns name w). fold w1. simpl.
  destruct (match reactor w _ with Some err => _ | None => _ end) as [observed|err].
  - rewrite in_sync_test.
    destruct (bool_decide (HTTPRoute_in_sync observed desired)); simpl; [done|].
    fold (HTTPRoute_origin observed desired).
    by destruct (gwapiclient_HTTPRoutes_Update _ _ w1) as [[?|?] ?].
  - destruct (IsNotFound err); [|done].
    by destruct (gwapiclient_HTTPRoutes_Create _ _ w1) as [[?|?] ?].
Qed.

Lemma gwapiclient_HTTPRoutes_Create_inr (ns : string) (obj : HTTPRoute) (err : error)
    (w w2 : Cluster) :
  gwapiclient_HTTPRoutes_Create ns obj w = (inr err, w2) ->
  w2 = log (HTTPRoutes_Create ns obj) w.
Proof.
  unfold gwapiclient_HTTPRoutes_Create.
  destruct (reactor w _); [by intros [= <- <-]|].
  destruct (httproutes w !! _) eqn:H; intros [=]; by subst.
Qed.

Lemma gwapiclient_HTTPRoutes_Update_inr (ns : string) (obj : HTTPRoute) (err : error)
    (w w2 : Cluster) :
  gwapiclient_HTTPRoutes_Update ns obj w = (inr err, w2) ->
  w2 = log (HTTPRoutes_Update ns obj) w.
Proof.
  unfold gwapiclient_HTTPRoutes_Update.
  destruct (reactor w _); [by intros [= <- <-]|].
  destruct (httproutes w !! _) eqn:H; intros [=]; by subst.
Qed.

Lemma gwapiclient_HTTPRoutes_Create_inl_log (ns : string) (obj r : HTTPRoute)
    (w w2 : Cluster) :
  gwapiclient_HTTPRoutes_Create ns obj w = (inl r, w2) ->
  r = obj
  /\ w2 = log (HTTPRoutes_Create ns obj)
            {| httproutes := <[(ns, ObjectMeta_Name (HTTPRoute_ObjectMeta obj)) := obj]>
                               (httproutes w);
               referencegrants := referencegrants w;
               gateways := gateways w;
               reactor := reactor w;
               calls := calls w |}.
Proof.
  unfold gwapiclient_HTTPRoutes_Create.
  destruct (reactor w _); [intros [=]|].
  destruct (httproutes w !! _); intros [=]; by subst.
Qed.

Lemma gwapiclient_HTTPRoutes_Update_inl_log (ns : string) (obj r : HTTPRoute)
    (w w2 : Cluster) :
  gwapiclient_HTTPRoutes_Update ns obj w = (inl r, w2) ->
  r = obj
  /\ w2 = log (HTTPRoutes_Update ns obj)
            {| httproutes := <[(ns, ObjectMeta_Name (HTTPRoute_ObjectMeta obj)) := obj]>
                               (httproutes w);
               referencegrants := referencegrants w;
               gateways := gateways w;
               reactor := reactor w;
               calls := calls w |}.
Proof.
  unfold gwapiclient_HTTPRoutes_Update.
  destruct (reactor w _); [intros [=]|].
  destruct (httproutes w !! _); intros [=]; by subst.
Qed.

(** A route reconcileHTTPRoute returns agrees with the desired one, and the
    store holds it. *)
Lemma reconcileHTTPRoute_returns (ing : Ingress) (desired route : HTTPRoute)
    (w w' : Cluster) :
  reconcileHTTPRoute ing desired w = (inl route, w') ->
  HTTPRoute_in_sync route desired
  /\ exists ns name, httproutes w' !! (ns, name) = Some route.
Proof.
  rewrite reconcileHTTPRoute_run. cbv zeta.
  rewrite httprouteLister_Get_cases. simpl.
  destruct (reactor w _) as [err|].
  { destruct (IsNotFound err); [|done].
    destruct (gwapiclient_HTTPRoutes_Create _ _ _) as [[r|err'] w2] eqn:Hc; [|done].
    intros [= <- <-].
    apply gwapiclient_HTTPRoutes_Create_inl_log in Hc as [-> ->].
    split; [done|]. simpl. eexists _, _. apply lookup_insert_eq. }
  destruct (httproutes w !! _) as [observed|] eqn:Hlook.
  - destruct (bool_decide_reflect (HTTPRoute_in_sync observed desired)) as [Hs|Hs].
    + intros [= <- <-]. split; [done|]. simpl. by eexists _, _.
    + destruct (gwapiclient_HTTPRoutes_Update _ _ _) as [[r|err'] w2] eqn:Hu; [|done].
      intros [= <- <-].
      apply gwapiclient_HTTPRoutes_Update_inl_log in Hu as [-> ->].
      split; [done|]. simpl. eexists _, _. apply lookup_insert_eq.
  - simpl.
    destruct (gwapiclient_HTTPRoutes_Create _ _ _) as [[r|err'] w2] eqn:Hc; [|done].
    intros [= <- <-].
    apply gwapiclient_HTTPRoutes_Create_inl_log in Hc as [-> ->].
    split; [done|]. simpl. eexists _, _. apply lookup_insert_eq.
Qed.

(** X11.  A route reconcileHTTPRoute returns agrees with the desired route in
    spec, annotations and labels, whether it was found in sync, created or
    updated, and the store holds it after the call. *)
Theorem reconcileHTTPRoute_converges (ing : Ingress) (desired route : HTTPRoute)
    (w w' : Cluster) :
  reconcileHTTPRoute ing desired w = (inl route, w') ->
  HTTPRoute_Spec route = HTTPRoute_Spec desired
  /\ ObjectMeta_Annotations (HTTPRoute_ObjectMeta route)
     = ObjectMeta_Annotations (HTTPRoute_ObjectMeta desired)
  /\ ObjectMeta_Labels (HTTPRoute_ObjectMeta route)
     = ObjectMeta_Labels (HTTPRoute_ObjectMeta desired)
  /\ exists ns name, httproutes w' !! (ns, name) = Some route.
Proof.
  intros Hrun. destruct (reconcileHTTPRoute_returns _ _ _ _ _ Hrun) as [(?&?&?) ?].
  done.
Qed.

(** X12.  When the lister does not find the route, reconcileHTTPRoute issues
    one create of the desired route in the desired route's namespace.  If the
    store accepts it, the call returns the desired route after a Normal
    "Created" event and the store holds the route under a key that was free;
    if not, the call returns the store's error wrapped in "failed to create
    HTTPRoute" after a Warning "CreationFailed" event and the store's routes
    are as they were. *)
Theorem reconcileHTTPRoute_creates (ing : Ingress) (desired : HTTPRoute)
    (w : Cluster) (err : error) :
  let ns := Ingress_Namespace ing in
  let name := ObjectMeta_Name (HTTPRoute_ObjectMeta desired) in
  let dns := ObjectMeta_Namespace (HTTPRoute_ObjectMeta desired) in
  (httprouteLister_Get ns name w).1 = inr err ->
  IsNotFound err = true ->
  let r := reconcileHTTPRoute ing desired w in
  (forall route, r.1 = inl route ->
     route = desired
     /\ new_calls w r.2
        = [Lister_HTTPRoutes_Get ns name;
           HTTPRoutes_Create dns desired;
           Recorder_Eventf "Normal" "Created" "Created HTTPRoute %q" [ArgS name]]
     /\ httproutes r.2 = <[(dns, name) := desired]> (httproutes w)
     /\ httproutes w !! (dns, name) = None)
  /\ (forall e, r.1 = inr e ->
        exists err',
          e = ErrorfW "failed to create HTTPRoute: %w" [] err'
          /\ new_calls w r.2
             = [Lister_HTTPRoutes_Get ns name;
                HTTPRoutes_Create dns desired;
                Recorder_Eventf "Warning" "CreationFailed"
                  "Failed to create HTTPRoute: %v" [ArgE err']]
          /\ httproutes r.2 = httproutes w).
Proof.
  intros ns name dns Hget Hnf r. subst r.
  rewrite reconcileHTTPRoute_run. cbv zeta. fold ns name dns.
  rewrite Hget, Hnf.
  destruct (gwapiclient_HTTPRoutes_Create _ _ _) as [[r|err'] w2] eqn:Hc; simpl.
  - split; [|by intros e [=]]. intros route [= <-].
    pose proof Hc as Hc'.
    apply gwapiclient_HTTPRoutes_Create_inl_log in Hc as [-> ->].
    split; [done|]. split; [apply new_calls_log3|]. split; [done|].
    revert Hc'. subst ns name dns. unfold gwapiclient_HTTPRoutes_Create. simpl.
    destruct (reactor w _); [done|].
    by destruct (httproutes w !! _).
  - split; [by intros route [=]|]. intros e [= <-].
    pose proof (gwapiclient_HTTPRoutes_Create_inr _ _ _ _ _ Hc) as ->.
    exists err'. split; [done|]. split; [apply new_calls_log3|done].
Qed.

(** X13.  When the lister finds a route that differs from the desired one in
    spec, annotations or labels, reconcileHTTPRoute updates it whoever
    controls it: the object it sends keeps the observed route's name,
    namespace, UID, resource version and owner references and takes the
    desired spec, annotations and labels.  If the store accepts the update
    the call returns that object and the store holds it, with no event; if
    not, the call returns the wrapped error after a Warning "UpdateFailed"
    event and the store's routes are as they were. *)
Theorem reconcileHTTPRoute_updates (ing : Ingress) (desired observed : HTTPRoute)
    (w : Cluster) :
  let ns := Ingress_Namespace ing in
  let name := ObjectMeta_Name (HTTPRoute_ObjectMeta desired) in
  let ons := ObjectMeta_Namespace (HTTPRoute_ObjectMeta observed) in
  let origin := HTTPRoute_origin observed desired in
  (httprouteLister_Get ns name w).1 = inl observed ->
  ~ HTTPRoute_in_sync observed desired ->
  let r := reconcileHTTPRoute ing desired w in
  (ObjectMeta_Name (HTTPRoute_ObjectMeta origin)
   = ObjectMeta_Name (HTTPRoute_ObjectMeta observed)
   /\ ObjectMeta_Namespace (HTTPRoute_ObjectMeta origin) = ons
   /\ ObjectMeta_UID (HTTPRoute_ObjectMeta origin)
      = ObjectMeta_UID (HTTPRoute_ObjectMeta observed)
   /\ ObjectMeta_ResourceVersion (HTTPRoute_ObjectMeta origin)
      = ObjectMeta_ResourceVersion (HTTPRoute_ObjectMeta observed)
   /\ ObjectMeta_OwnerReferences (HTTPRoute_ObjectMeta origin)
      = ObjectMeta_OwnerReferences (HTTPRoute_ObjectMeta observed)
   /\ HTTPRoute_in_sync origin desired)
  /\ (forall route, r.1 = inl route ->
        route = origin
        /\ new_calls w r.2
           = [Lister_HTTPRoutes_Get ns name; HTTPRoutes_Update ons origin]
        /\ httproutes r.2
           = <[(ons, ObjectMeta_Name (HTTPRoute_ObjectMeta observed)) := origin]>
               (httproutes w))
  /\ (forall e, r.1 = inr e ->
        exists err',
          e = ErrorfW "failed to update HTTPRoute: %w" [] err'
          /\ new_calls w r.2
             = [Lister_HTTPRoutes_Get ns name;
                HTTPRoutes_Update ons origin;
                Recorder_Eventf "Warning" "UpdateFailed"
                  "Failed to update HTTPRoute: %v" [ArgE err']]
          /\ httproutes r.2 = httproutes w).
Proof.
  intros ns name ons origin Hget Hdiff r. subst r.
  split; [done|].
  rewrite reconcileHTTPRoute_run. cbv zeta. fold ns name.
  rewrite Hget. rewrite bool_decide_eq_false_2 by done. fold ons origin.
  destruct (gwapiclient_HTTPRoutes_Update _ _ _) as [[r|err'] w2] eqn:Hu; simpl.
  - split; [|by intros e [=]]. intros route [= <-].
    apply gwapiclient_HTTPRoutes_Update_inl_log in Hu as [-> ->].
    split; [done|]. split; [apply new_calls_log2|done].
  - split; [by intros route [=]|]. intros e [= <-].
    pose proof (gwapiclient_HTTPRoutes_Update_inr _ _ _ _ _ Hu) as ->.
    exists err'. split; [done|]. split; [apply new_calls_log3|done].
Qed.

(** X14.  Whenever reconcileHTTPRoute returns an error, the error is the one
    a call of the run came back with or wraps it, the store's routes are as
    they were, and the run ends with a Warning event unless the error is the
    lister's own, returned right after the read. *)
Theorem reconcileHTTPRoute_failure (ing : Ingress) (desired : HTTPRoute)
    (w : Cluster) (e : error) :
  let r := reconcileHTTPRoute ing desired w in
  r.1 = inr e ->
  store_error w r.2 e
  /\ httproutes r.2 = httproutes w
  /\ ((exists reason messageFmt args,
         last (calls r.2) = Some (Recorder_Eventf "Warning" reason messageFmt args))
      \/ new_calls w r.2
         = [Lister_HTTPRoutes_Get (Ingress_Namespace ing)
              (ObjectMeta_Name (HTTPRoute_ObjectMeta desired))]).
Proof.
  intros r He.
  assert (store_error w r.2 e) as Hse.
  { apply (reconcileHTTPRoute_error ing desired). subst r.
    destruct (reconcileHTTPRoute ing desired w) as [res w'].
    simpl in He. by subst. }
  split; [done|]. clear Hse. revert He. subst r.
  rewrite reconcileHTTPRoute_run. cbv zeta.
  destruct ((httprouteLister_Get _ _ w).1) as [observed|err].
  - destruct (bool_decide _); [done|].
    destruct (gwapiclient_HTTPRoutes_Update _ _ _) as [[r|err'] w2] eqn:Hu; [done|].
    pose proof (gwapiclient_HTTPRoutes_Update_inr _ _ _ _ _ Hu) as ->.
    simpl. intros _. split; [done|]. left. eexists _, _, _. by rewrite last_snoc.
  - destruct (IsNotFound err).
    + destruct (gwapiclient_HTTPRoutes_Create _ _ _) as [[r|err'] w2] eqn:Hc; [done|].
      pose proof (gwapiclient_HTTPRoutes_Create_inr _ _ _ _ _ Hc) as ->.
      simpl. intros _. split; [done|]. left. eexists _, _, _. by rewrite last_snoc.
    + simpl. intros _. split; [done|]. right. apply new_calls_log1.
Qed.

(** X15.  A route reconcileWorkloadRoute returns has exactly one parent
    reference: the gateway configured for the rule's visibility.  For an
    ingress with the Redirected HTTP option and a rule of external
    visibility the reference names the section "kni-" followed by the
    ingress's UID, which is the name of every listener reconcileTLS derives
    for the ingress; in every other case it names no section. *)
Theorem reconcileWorkloadRoute_parent
    (LongestHost : list string -> string) (rt : GoRuntime)
    (ctx : Context) (ing : Ingress) (rule : IngressRule)
    (w w' : Cluster) (route : HTTPRoute) :
  reconcileWorkloadRoute LongestHost rt ctx ing rule w = (Returns (inl route), w') ->
  let gateway := GatewayConfig_Gateway (Context_Gateways ctx (IngressRule_Visibility rule)) in
  let redirected :=
    IngressSpec_HTTPOption (Ingress_Spec ing) = HTTPOptionRedirected
    /\ IngressRule_Visibility rule = IngressVisibilityExternalIP in
  exists ref,
    HTTPRouteSpec_ParentRefs (HTTPRoute_Spec route) = [ref]
    /\ ParentReference_Group ref = Some GroupVersion_Group
    /\ ParentReference_Kind ref = Some "Gateway"
    /\ ParentReference_Namespace ref = Some (NamespacedName_Namespace gateway)
    /\ ParentReference_Name ref = NamespacedName_Name gateway
    /\ (redirected ->
        ParentReference_SectionName ref = Some (listenerPrefix +:+ Ingress_GetUID ing)
        /\ forall tls l, l ∈ tls_listeners tls ing ->
             ParentReference_SectionName ref = Some (Listener_Name l))
    /\ (~ redirected -> ParentReference_SectionName ref = None).
Proof.
  intros Hrun gateway redirected.
  unfold reconcileWorkloadRoute in Hrun. cbv zeta in Hrun.
  destruct (IngressRule_HTTP rule) as [http|] eqn:Hhttp.
  2: { erewrite (proj2 (proj2 (MakeHTTPRoute_without_HTTP _ _ _ _ _ Hhttp))) in Hrun.
       discriminate Hrun. }
  match type of Hrun with
  | context [MakeHTTPRoute ?lh ?r ?i ?ru ?g] =>
      destruct (MakeHTTPRoute_with_HTTP lh r i ru g http Hhttp)
        as (rules & meta & _ & _ & Hmk); rewrite Hmk in Hrun
  end.
  apply Returns_bind_inv in Hrun.
  apply reconcileHTTPRoute_returns in Hrun as [(Hspec & _ & _) _].
  rewrite Hspec. simpl. eexists. split; [reflexivity|]. simpl.
  repeat (split; [done|]).
  destruct (String.eqb_spec (IngressSpec_HTTPOption (Ingress_Spec ing))
              HTTPOptionRedirected) as [Ho|Ho];
    destruct (String.eqb_spec (IngressRule_Visibility rule)
                IngressVisibilityExternalIP) as [Hv|Hv]; simpl; subst redirected.
  - split; [|tauto]. intros _. split; [done|].
    intros tls l Hl. by rewrite (tls_listeners_name tls ing l Hl).
  - split; [|done]. intros [_ ?]. done.
  - split; [|done]. intros [? _]. done.
  - split; [|done]. intros [? _]. done.
Qed.

(** X16.  reconcileRedirectHTTPRoute returns a route only for an ingress with
    a TLS block.  The route has exactly one parent reference, the HTTP
    listener of the gateway configured for the rule's visibility; it carries
    the rule's hosts, and each of its rules is a redirect without
    backends. *)
Theorem reconcileRedirectHTTPRoute_parent
    (LongestHost : list string -> string) (rt : GoRuntime)
    (ctx : Context) (ing : Ingress) (rule : IngressRule)
    (w w' : Cluster) (route : HTTPRoute) :
  reconcileRedirectHTTPRoute LongestHost rt ctx ing rule w
  = (Returns (inl route), w') ->
  let gatewayConfig := Context_Gateways ctx (IngressRule_Visibility rule) in
  IngressSpec_TLS (Ingress_Spec ing) <> []
  /\ (exists ref,
        HTTPRouteSpec_ParentRefs (HTTPRoute_Spec route) = [ref]
        /\ ParentReference_Group ref = Some GroupVersion_Group
        /\ ParentReference_Kind ref = Some "Gateway"
        /\ ParentReference_Namespace ref
           = Some (NamespacedName_Namespace (GatewayConfig_Gateway gatewayConfig))
        /\ ParentReference_Name ref
           = NamespacedName_Name (GatewayConfig_Gateway gatewayConfig)
        /\ ParentReference_SectionName ref
           = Some (GatewayConfig_HTTPListenerName gatewayConfig))
  /\ HTTPRouteSpec_Hostnames (HTTPRoute_Spec route) = IngressRule_Hosts rule
  /\ Forall (fun r => HTTPRouteRule_Filters r = [redirect_filter]
                      /\ HTTPRouteRule_BackendRefs r = [])
       (HTTPRouteSpec_Rules (HTTPRoute_Spec route)).
Proof.
  intros Hrun gatewayConfig. unfold reconcileRedirectHTTPRoute in Hrun.
  destruct (IngressSpec_TLS (Ingress_Spec ing)) as [|tls tlss] eqn:Htls;
    simpl in Hrun; [done|].
  destruct (IngressRule_HTTP rule) as [http|] eqn:Hhttp.
  2: { erewrite (proj2 (proj2 (MakeRedirectHTTPRoute_without_HTTP _ _ _ _ _ Hhttp)))
         in Hrun. discriminate Hrun. }
  match type of Hrun with
  | context [MakeRedirectHTTPRoute ?lh ?r ?i ?ru ?g] =>
      destruct (MakeRedirectHTTPRoute_with_HTTP lh r i ru g http Hhttp)
        as (rules & meta & Hrules & _ & Hmk); rewrite Hmk in Hrun
  end.
  apply Returns_bind_inv in Hrun.
  apply reconcileHTTPRoute_returns in Hrun as [(Hspec & _ & _) _].
  rewrite Hspec. simpl. split; [done|]. split; [by eexists|]. split; [done|].
  unfold makeRedirectHTTPRouteRule in Hrules. rewrite Hhttp in Hrules.
  injection Hrules as <-. apply Forall_forall. intros r Hr.
  apply list_elem_of_lookup in Hr as [i Hr]. rewrite list_lookup_imap in Hr.
  destruct (HTTPIngressRuleValue_Paths http !! i); [|done].
  simpl in Hr. by injection Hr as <-.
Qed.

(* ===================================================================== *)
(** ** Further properties of reconcileTLS *)
(* ===================================================================== *)

Lemma referenceGrantLister_Get_cases (ns name : string) (w : Cluster) :
  referenceGrantLister_Get ns name w
  = (match reactor w (Lister_ReferenceGrants_Get ns name) with
     | Some err => inr err
     | None => match referencegrants w !! (ns, name) with
               | Some r => inl r
               | None => inr (NewNotFound "referencegrant" name)
               end
     end, log (Lister_ReferenceGrants_Get ns name) w).
Proof.
  unfold referenceGrantLister_Get. destruct (reactor w _); [done|].
  by destruct (referencegrants w !! _).
Qed.

Lemma gwapiclient_ReferenceGrants_Create_inr (ns : string) (obj : ReferenceGrant)
    (err : error) (w w2 : Cluster) :
  gwapiclient_ReferenceGrants_Create ns obj w = (inr err, w2) ->
  w2 = log (ReferenceGrants_Create ns obj) w.
Proof.
  unfold gwapiclient_ReferenceGrants_Create.
  destruct (reactor w _); [by intros [= <- <-]|].
  destruct (referencegrants w !! _) eqn:H; intros [=]; by subst.
Qed.

Lemma gwapiclient_ReferenceGrants_Update_inr (ns : string) (obj : ReferenceGrant)
    (err : error) (w w2 : Cluster) :
  gwapiclient_ReferenceGrants_Update ns obj w = (inr err, w2) ->
  w2 = log (ReferenceGrants_Update ns obj) w.
Proof.
  unfold gwapiclient_ReferenceGrants_Update.
  destruct (reactor w _); [by intros [= <- <-]|].
  destruct (referencegrants w !! _) eqn:H; intros [=]; by subst.
Qed.

Lemma gwapiclient_ReferenceGrants_Create_inl (ns : string) (obj r : ReferenceGrant)
    (w w2 : Cluster) :
  gwapiclient_ReferenceGrants_Create ns obj w = (inl r, w2) ->
  r = obj
  /\ w2 = log (ReferenceGrants_Create ns obj)
            {| httproutes := httproutes w;
               referencegrants :=
                 <[(ns, ObjectMeta_Name (ReferenceGrant_ObjectMeta obj)) := obj]>
                   (referencegrants w);
               gateways := gateways w;
               reactor := reactor w;
               calls := calls w |}.
Proof.
  unfold gwapiclient_ReferenceGrants_Create.
  destruct (reactor w _); [intros [=]|].
  destruct (referencegrants w !! _); intros [=]; by subst.
Qed.

Lemma gwapiclient_ReferenceGrants_Update_inl (ns : string) (obj r : ReferenceGrant)
    (w w2 : Cluster) :
  gwapiclient_ReferenceGrants_Update ns obj w = (inl r, w2) ->
  r = obj
  /\ w2 = log (ReferenceGrants_Update ns obj)
            {| httproutes := httproutes w;
               referencegrants :=
                 <[(ns, ObjectMeta_Name (ReferenceGrant_ObjectMeta obj)) := obj]>
                   (referencegrants w);
               gateways := gateways w;
               reactor := reactor w;
               calls := calls w |}.
Proof.
  unfold gwapiclient_ReferenceGrants_Update.
  destruct (reactor w _); [intros [=]|].
  destruct (referencegrants w !! _); intros [=]; by subst.
Qed.

Lemma ReferenceGrants_Create_log (ns : string) (obj : ReferenceGrant) (a : Call)
    (w : Cluster) :
  (gwapiclient_ReferenceGrants_Create ns obj (log a w)).1
  = (gwapiclient_ReferenceGrants_Create ns obj w).1.
Proof.
  unfold gwapiclient_ReferenceGrants_Create. simpl.
  destruct (reactor w _); [done|]. by destruct (referencegrants w !! _).
Qed.

Lemma ReferenceGrants_Update_log (ns : string) (obj : ReferenceGrant) (a : Call)
    (w : Cluster) :
  (gwapiclient_ReferenceGrants_Update ns obj (log a w)).1
  = (gwapiclient_ReferenceGrants_Update ns obj w).1.
Proof.
  unfold gwapiclient_ReferenceGrants_Update. simpl.
  destruct (reactor w _); [done|]. by destruct (referencegrants w !! _).
Qed.

Lemma tls_listeners_serve (tls : IngressTLS) (ing : Ingress) :
  Listener_Hostname <$> tls_listeners tls ing = Some <$> IngressTLS_Hosts tls
  /\ Forall (serves_tls tls ing) (tls_listeners tls ing).
Proof.
  unfold tls_listeners. split.
  - rewrite <- list_fmap_compose. by apply list_fmap_ext.
  - apply Forall_fmap, Forall_forall. intros h _. unfold serves_tls. simpl.
    repeat split; try done. eexists _, _, _. repeat split; reflexivity.
Qed.

Lemma reconcileTLS_run
    (MakeReferenceGrant :
       Context -> Ingress -> PartialObjectMetadata -> PartialObjectMetadata ->
       ReferenceGrant)
    (ctx : Context) (tls : IngressTLS) (ing : Ingress) (w : Cluster) :
  let desired := reconcileTLS_desired MakeReferenceGrant ctx tls ing in
  let dns := ObjectMeta_Namespace (ReferenceGrant_ObjectMeta desired) in
  let dname := ObjectMeta_Name (ReferenceGrant_ObjectMeta desired) in
  let w1 := log (Lister_ReferenceGrants_Get dns dname) w in
  reconcileTLS MakeReferenceGrant ctx tls ing w
  = match (referenceGrantLister_Get dns dname w).1 with
    | inl rp => reconcileTLS_owned desired tls ing rp w1
    | inr err =>
        if IsNotFound err then
          match gwapiclient_ReferenceGrants_Create dns desired w1 with
          | (inr err', w2) =>
              (inr (ErrorfW "failed to create ReferenceGrant: %w" [] err'),
               log (Recorder_Eventf "Warning" "CreationFailed"
                      "Failed to create ReferenceGrant: %v" [ArgE err']) w2)
          | (inl rp, w2) => reconcileTLS_owned desired tls ing rp w2
          end
        else (inr err, w1)
    end.
Proof.
  intros desired dns dname w1.
  assert (forall rp w0,
    (if negb (IsControlledBy (ReferenceGrant_ObjectMeta rp) (Ingress_ObjectMeta ing))
     then
       (inr (Errorf "ReferenceGrant %s not owned by %s"
               [ObjectMeta_Name (ReferenceGrant_ObjectMeta rp); Ingress_Name ing]),
        log (Recorder_Eventf "Warning" "NotOwned"
               "ReferenceGrant %s not owned by this object" [ArgS dname]) w0)
     else if negb (Semantic_DeepEqual (ReferenceGrant_Spec rp) (ReferenceGrant_Spec desired))
     then
       match gwapiclient_ReferenceGrants_Update
               (ObjectMeta_Namespace (ReferenceGrant_ObjectMeta rp))
               {| ReferenceGrant_ObjectMeta := ReferenceGrant_ObjectMeta rp;
                  ReferenceGrant_Spec := ReferenceGrant_Spec desired |} w0 with
       | (inr err, w2) =>
           (inr (ErrorfW "failed to update ReferenceGrant: %w" [] err),
            log (Recorder_Eventf "Warning" "UpdateFailed"
                   "Failed to update ReferenceGrant: %v" [ArgE err]) w2)
       | (inl _, w2) => (inl (tls_listeners tls ing), w2)
       end
     else (inl (tls_listeners tls ing), w0)) = reconcileTLS_owned desired tls ing rp w0) as Howned.
  { intros rp w0. unfold reconcileTLS_owned, Semantic_DeepEqual, notOwnedError. fold dname.
    destruct (IsControlledBy _ _); simpl; [|done].
    by destruct (bool_decide _). }
  unfold reconcileTLS, mbind, M_bind, mret, M_ret.
  fold desired. fold dns dname.
  rewrite (referenceGrantLister_Get_cases dns dname w). fold w1. simpl.
  destruct (match reactor w _ with Some err => _ | None => _ end) as [rp|err].
  - rewrite <- Howned.
    destruct (negb (IsControlledBy _ _)); [done|].
    destruct (negb (Semantic_DeepEqual _ _)); [|done].
    by destruct (gwapiclient_ReferenceGrants_Update _ _ w1) as [[?|?] ?].
  - destruct (IsNotFound err); [|done].
    destruct (gwapiclient_ReferenceGrants_Create _ _ w1) as [[rp|?] w2]; [|done].
    rewrite <- Howned.
    destruct (negb (IsControlledBy _ _)); [done|].
    destruct (negb (Semantic_DeepEqual _ _)); [|done].
    by destruct (gwapiclient_ReferenceGrants_Update _ _ w2) as [[?|?] ?].
Qed.

(** X17.  When reconcileTLS returns listeners there is one per host of the TLS
    block, in the order of the hosts.  Each carries the ingress's listener
    name, terminates TLS on port 443 with the block's secret and admits
    routes from the ingress's namespace only.  The store then holds a
    ReferenceGrant that the ingress controls and whose spec is the desired
    one. *)
Theorem reconcileTLS_returns
    (MakeReferenceGrant :
       Context -> Ingress -> PartialObjectMetadata -> PartialObjectMetadata ->
       ReferenceGrant)
    (ctx : Context) (tls : IngressTLS) (ing : Ingress)
    (w w' : Cluster) (ls : list Listener) :
  let desired := reconcileTLS_desired MakeReferenceGrant ctx tls ing in
  reconcileTLS MakeReferenceGrant ctx tls ing w = (inl ls, w') ->
  length ls = length (IngressTLS_Hosts tls)
  /\ Listener_Hostname <$> ls = Some <$> IngressTLS_Hosts tls
  /\ Forall (serves_tls tls ing) ls
  /\ exists ns name rp,
       referencegrants w' !! (ns, name) = Some rp
       /\ IsControlledBy (ReferenceGrant_ObjectMeta rp) (Ingress_ObjectMeta ing) = true
       /\ ReferenceGrant_Spec rp = ReferenceGrant_Spec desired.
Proof.
  intros desired Hrun.
  set (dns := ObjectMeta_Namespace (ReferenceGrant_ObjectMeta desired)).
  set (dname := ObjectMeta_Name (ReferenceGrant_ObjectMeta desired)).
  assert (forall rp w0 ns name,
            referencegrants w0 !! (ns, name) = Some rp ->
            reconcileTLS_owned desired tls ing rp w0 = (inl ls, w') ->
            ls = tls_listeners tls ing
            /\ exists ns name rp,
                 referencegrants w' !! (ns, name) = Some rp
                 /\ IsControlledBy (ReferenceGrant_ObjectMeta rp)
                      (Ingress_ObjectMeta ing) = true
                 /\ ReferenceGrant_Spec rp = ReferenceGrant_Spec desired) as Howned.
  { intros rp w0 ns name Hrp. unfold reconcileTLS_owned.
    destruct (IsControlledBy _ _) eqn:Hc; [|done].
    destruct (bool_decide_reflect (ReferenceGrant_Spec rp = ReferenceGrant_Spec desired))
      as [Hs|Hs].
    - intros [= <- <-]. split; [done|]. by exists ns, name, rp.
    - destruct (gwapiclient_ReferenceGrants_Update _ _ _) as [[r|err] w2] eqn:Hu;
        [|done].
      intros [= <- <-].
      apply gwapiclient_ReferenceGrants_Update_inl in Hu as [-> ->].
      split; [done|]. simpl. eexists _, _, _. split; [apply lookup_insert_eq|].
      done. }
  assert (ls = tls_listeners tls ing
          /\ exists ns name rp,
               referencegrants w' !! (ns, name) = Some rp
               /\ IsControlledBy (ReferenceGrant_ObjectMeta rp)
                    (Ingress_ObjectMeta ing) = true
               /\ ReferenceGrant_Spec rp = ReferenceGrant_Spec desired) as [-> Hgrant].
  { revert Hrun. rewrite reconcileTLS_run. cbv zeta. fold desired. fold dns dname.
    rewrite referenceGrantLister_Get_cases. simpl.
    destruct (reactor w _) as [err|].
    - destruct (IsNotFound err); [|done].
      destruct (gwapiclient_ReferenceGrants_Create _ _ _) as [[r|err'] w2] eqn:Hc;
        [|done].
      apply gwapiclient_ReferenceGrants_Create_inl in Hc as [-> ->].
      apply (Howned _ _ dns dname). simpl. apply lookup_insert_eq.
    - destruct (referencegrants w !! (dns, dname)) as [rp|] eqn:Hrp.
      + by apply (Howned _ _ dns dname).
      + simpl.
        destruct (gwapiclient_ReferenceGrants_Create _ _ _) as [[r|err'] w2] eqn:Hc;
          [|done].
        apply gwapiclient_ReferenceGrants_Create_inl in Hc as [-> ->].
        apply (Howned _ _ dns dname). simpl. apply lookup_insert_eq. }
  destruct (tls_listeners_serve tls ing) as [Hhosts Hserve].
  split; [apply tls_listeners_length|]. done.
Qed.

(** X18.  reconcileTLS is idempotent on a store that holds every grant under
    its own name and whose lister answers from the store: after a call that
    returned listeners, a second call returns the same listeners having only
    read the grant. *)
Theorem reconcileTLS_idempotent
    (MakeReferenceGrant :
       Context -> Ingress -> PartialObjectMetadata -> PartialObjectMetadata ->
       ReferenceGrant)
    (ctx : Context) (tls : IngressTLS) (ing : Ingress)
    (w w1 : Cluster) (ls : list Listener) :
  let desired := reconcileTLS_desired MakeReferenceGrant ctx tls ing in
  let dns := ObjectMeta_Namespace (ReferenceGrant_ObjectMeta desired) in
  let dname := ObjectMeta_Name (ReferenceGrant_ObjectMeta desired) in
  referencegrants_wf w ->
  reactor w (Lister_ReferenceGrants_Get dns dname) = None ->
  reconcileTLS MakeReferenceGrant ctx tls ing w = (inl ls, w1) ->
  reconcileTLS MakeReferenceGrant ctx tls ing w1
  = (inl ls, log (Lister_ReferenceGrants_Get dns dname) w1).
Proof.
  intros desired dns dname Hwf Hreact Hrun.
  (* after the first call the store holds, under the derived name, a grant the
     ingress controls and whose spec is the desired one *)
  assert (ls = tls_listeners tls ing
          /\ reactor w1 = reactor w
          /\ exists rp,
               referencegrants w1 !! (dns, dname) = Some rp
               /\ IsControlledBy (ReferenceGrant_ObjectMeta rp)
                    (Ingress_ObjectMeta ing) = true
               /\ ReferenceGrant_Spec rp = ReferenceGrant_Spec desired)
    as (-> & Hreact1 & rp & Hrp & Hc & Hs).
  { assert (forall rp w0,
              referencegrants w0 !! (dns, dname) = Some rp ->
              ObjectMeta_Namespace (ReferenceGrant_ObjectMeta rp) = dns ->
              ObjectMeta_Name (ReferenceGrant_ObjectMeta rp) = dname ->
              reactor w0 = reactor w ->
              reconcileTLS_owned desired tls ing rp w0 = (inl ls, w1) ->
              ls = tls_listeners tls ing
              /\ reactor w1 = reactor w
              /\ exists rp,
                   referencegrants w1 !! (dns, dname) = Some rp
                   /\ IsControlledBy (ReferenceGrant_ObjectMeta rp)
                        (Ingress_ObjectMeta ing) = true
                   /\ ReferenceGrant_Spec rp = ReferenceGrant_Spec desired) as Howned.
    { intros rp w0 Hrp Hns Hname Hr0. unfold reconcileTLS_owned.
      destruct (IsControlledBy _ _) eqn:Hc; [|done].
      destruct (bool_decide_reflect
                  (ReferenceGrant_Spec rp = ReferenceGrant_Spec desired)) as [Hs|Hs].
      - intros [= <- <-]. split; [done|]. split; [done|]. by exists rp.
      - destruct (gwapiclient_ReferenceGrants_Update _ _ _) as [[r|err] w2] eqn:Hu;
          [|done].
        intros [= <- <-].
        apply gwapiclient_ReferenceGrants_Update_inl in Hu as [-> ->].
        split; [done|]. split; [done|]. simpl. rewrite Hns, Hname.
        eexists. split; [apply lookup_insert_eq|]. done. }
    revert Hrun. rewrite reconcileTLS_run. cbv zeta. fold desired. fold dns dname.
    rewrite referenceGrantLister_Get_cases, Hreact. simpl.
    destruct (referencegrants w !! (dns, dname)) as [rp|] eqn:Hrp.
    - destruct (Hwf _ _ _ Hrp) as [Hns Hname]. by apply Howned.
    - simpl.
      destruct (gwapiclient_ReferenceGrants_Create _ _ _) as [[r|err'] w2] eqn:Hc;
        [|done].
      apply gwapiclient_ReferenceGrants_Create_inl in Hc as [-> ->].
      apply Howned; try done. simpl. apply lookup_insert_eq. }
  rewrite reconcileTLS_run. cbv zeta. fold desired. fold dns dname.
  rewrite referenceGrantLister_Get_cases, Hreact1, Hreact, Hrp. simpl.
  unfold reconcileTLS_owned. rewrite Hc. by rewrite bool_decide_eq_true_2.
Qed.

(** X19.  An error of reconcileTLS is either the not-owned error, for a grant
    the ingress does not control and after a Warning "NotOwned" event, or the
    error a call of the run came back with, as it is or wrapped. *)
Theorem reconcileTLS_error
    (MakeReferenceGrant :
       Context -> Ingress -> PartialObjectMetadata -> PartialObjectMetadata ->
       ReferenceGrant)
    (ctx : Context) (tls : IngressTLS) (ing : Ingress)
    (w : Cluster) (e : error) :
  let desired := reconcileTLS_desired MakeReferenceGrant ctx tls ing in
  let dns := ObjectMeta_Namespace (ReferenceGrant_ObjectMeta desired) in
  let dname := ObjectMeta_Name (ReferenceGrant_ObjectMeta desired) in
  let r := reconcileTLS MakeReferenceGrant ctx tls ing w in
  r.1 = inr e ->
  (exists rp,
      e = notOwnedError rp ing
      /\ IsControlledBy (ReferenceGrant_ObjectMeta rp) (Ingress_ObjectMeta ing) = false
      /\ last (calls r.2)
         = Some (Recorder_Eventf "Warning" "NotOwned"
                   "ReferenceGrant %s not owned by this object" [ArgS dname]))
  \/ store_error w r.2 e.
Proof.
  intros desired dns dname r. subst r. rewrite reconcileTLS_run. cbv zeta.
  fold desired. fold dns dname.
  destruct ((referenceGrantLister_Get dns dname w).1) as [rp|err] eqn:Hget.
  - unfold reconcileTLS_owned. destruct (IsControlledBy _ _) eqn:Hc.
    + destruct (bool_decide _); [done|].
      destruct (gwapiclient_ReferenceGrants_Update _ _ _) as [[r|err] w2] eqn:Hu;
        [done|].
      pose proof (gwapiclient_ReferenceGrants_Update_inr _ _ _ _ _ Hu) as ->.
      simpl. intros [= <-]. right.
      match type of Hu with
      | gwapiclient_ReferenceGrants_Update ?n ?o _ = _ =>
          exists (ReferenceGrants_Update n o), err
      end.
      split; [|split].
      * rewrite new_calls_log3. set_solver.
      * unfold call_error, err_of.
        rewrite <- (ReferenceGrants_Update_log _ _ (Lister_ReferenceGrants_Get dns dname)).
        by rewrite Hu.
      * right. by eexists _, _.
    + simpl. intros [= <-]. left. exists rp. split; [done|]. split; [done|].
      by rewrite last_snoc.
  - destruct (IsNotFound err) eqn:Hnf.
    + destruct (gwapiclient_ReferenceGrants_Create _ _ _) as [[rp|err'] w2] eqn:Hc.
      * apply gwapiclient_ReferenceGrants_Create_inl in Hc as [-> ->].
        unfold reconcileTLS_owned. destruct (IsControlledBy _ _) eqn:Hcb.
        -- by rewrite bool_decide_eq_true_2.
        -- simpl. intros [= <-]. left. exists desired. split; [done|].
           split; [done|]. by rewrite last_snoc.
      * pose proof (gwapiclient_ReferenceGrants_Create_inr _ _ _ _ _ Hc) as ->.
        simpl. intros [= <-]. right.
        exists (ReferenceGrants_Create dns desired), err'.
        split; [|split].
        -- rewrite new_calls_log3. set_solver.
        -- unfold call_error, err_of.
           rewrite <- (ReferenceGrants_Create_log _ _
                         (Lister_ReferenceGrants_Get dns dname)).
           by rewrite Hc.
        -- right. by eexists _, _.
    + simpl. intros [= <-]. right.
      exists (Lister_ReferenceGrants_Get dns dname), err. split; [|split].
      * rewrite new_calls_log1. set_solver.
      * unfold call_error, err_of. by rewrite Hget.
      * by left.
Qed.

(* ===================================================================== *)
(** ** Further properties of reconcileGatewayListeners *)
(* ===================================================================== *)

Lemma build_lmap_named (listeners : list Listener) : lmap_named (build_lmap listeners).
Proof.
  unfold build_lmap.
  induction listeners as [|l ls IH] using rev_ind; intros n x; simpl.
  - by rewrite lookup_empty.
  - rewrite foldl_app. simpl. rewrite lookup_insert.
    case_decide as Hn; [intros [= <-]; done|]. apply IH.
Qed.

Lemma build_lmap_elem (listeners : list Listener) (n : string) (l : Listener) :
  build_lmap listeners !! n = Some l -> l ∈ listeners.
Proof.
  unfold build_lmap.
  induction listeners as [|x ls IH] using rev_ind; simpl.
  - by rewrite lookup_empty.
  - rewrite foldl_app. simpl. rewrite lookup_insert.
    case_decide as Hn.
    + intros [= <-]. apply elem_of_app. right. by left.
    + intros H. apply elem_of_app. left. by apply IH.
Qed.

Lemma build_lmap_NoDup (listeners : list Listener) (l : Listener) :
  NoDup (Listener_Name <$> listeners) -> l ∈ listeners ->
  build_lmap listeners !! Listener_Name l = Some l.
Proof.
  intros Hnd Hl. rewrite build_lmap_list_to_map.
  apply elem_of_list_to_map.
  - rewrite fmap_reverse, <- list_fmap_compose.
    by rewrite reverse_Permutation.
  - rewrite elem_of_reverse. apply list_elem_of_fmap. by exists l.
Qed.

Lemma lmap_named_delete (lmap : gmap string Listener) (n : string) :
  lmap_named lmap -> lmap_named (delete n lmap).
Proof.
  intros H k l Hk. apply lookup_delete_Some in Hk as [_ Hk]. by apply H.
Qed.

Lemma lmap_named_remaining (lmap : gmap string Listener) (ls : list Listener) :
  lmap_named lmap -> lmap_named (remaining lmap ls).
Proof.
  intros H n l. rewrite remaining_lookup. destruct (bool_decide _); [done|]. apply H.
Qed.

(** What the scan puts at an index carries the name of what was there. *)
Lemma scanned_names (lmap : gmap string Listener) (ls : list Listener) :
  lmap_named lmap -> Listener_Name <$> scanned lmap ls = Listener_Name <$> ls.
Proof.
  revert lmap. induction ls as [|l ls IH]; intros lmap Hn; simpl; [done|].
  rewrite IH by (by apply lmap_named_delete). f_equal.
  destruct (lmap !! Listener_Name l) as [d|] eqn:Hd; simpl; [|done].
  by apply Hn.
Qed.

(** The flag of the scan: set exactly when the scan changes an entry. *)
Lemma scan_from_updated (ls : list Listener) :
  forall (i : nat) (st : merge_state),
    ms_updated (scan_from i ls st)
    = ms_updated st || bool_decide (scanned (ms_lmap st) ls <> ls).
Proof.
  induction ls as [|l ls IH]; intros i st; simpl.
  - by rewrite orb_false_r.
  - rewrite IH. unfold scan_body.
    destruct (ms_lmap st !! Listener_Name l) as [d|] eqn:Hd; simpl.
    + destruct (Semantic_DeepEqual l d) eqn:Heq; simpl.
      * apply Semantic_DeepEqual_true in Heq as <-. f_equal.
        apply bool_decide_ext. split; intros H Heq; apply H; congruence.
      * apply Semantic_DeepEqual_false in Heq.
        rewrite (bool_decide_eq_true_2 (d :: _ <> l :: ls)) by congruence.
        by rewrite orb_true_r.
    + rewrite (delete_id (ms_lmap st)) by done. f_equal.
      apply bool_decide_ext. split; intros H Heq; apply H; congruence.
Qed.

Lemma append_remaining_updated (rt : GoRuntime) (st : merge_state) :
  ms_updated (append_remaining rt st)
  = ms_updated st || bool_decide (ms_lmap st <> ∅).
Proof.
  destruct (append_remaining_spec rt st) as (_ & Hmono & Hne & Hnil).
  destruct (decide (ms_lmap st = ∅)) as [He|Hne'].
  - rewrite bool_decide_eq_false_2 by (intros H; by apply H).
    rewrite orb_false_r. apply Hnil.
    pose proof (mapiter_perm rt Listener [] (ms_lmap st)) as Hp.
    rewrite He in Hp |- *. rewrite map_to_list_empty in Hp.
    by apply Permutation_nil_r in Hp.
  - rewrite bool_decide_eq_true_2 by done. rewrite orb_true_r. apply Hne.
    intros Hnil'. apply Hne'.
    pose proof (mapiter_perm rt Listener [] (ms_lmap st)) as Hp.
    rewrite Hnil' in Hp. symmetry in Hp. apply Permutation_nil_r in Hp.
    by apply map_to_list_empty_iff.
Qed.

Lemma merge_listeners_updated (rt : GoRuntime) (listeners gwListeners : list Listener) :
  ms_updated (merge_listeners rt listeners gwListeners)
  = bool_decide (scanned (build_lmap listeners) gwListeners <> gwListeners)
    || bool_decide (remaining (build_lmap listeners) gwListeners <> ∅).
Proof.
  unfold merge_listeners. rewrite append_remaining_updated, scan_from_updated. simpl.
  f_equal.
  edestruct (scan_from_spec gwListeners 0
               {| ms_lmap := build_lmap listeners;
                  ms_update := gwListeners;
                  ms_updated := false |} [] []) as (H1 & _).
  - simpl. by rewrite app_nil_r.
  - done.
  - by rewrite H1.
Qed.

Lemma appended_nil (rt : GoRuntime) (m : gmap string Listener) :
  (mapiter rt [] m).*2 = [] <-> m = ∅.
Proof.
  pose proof (mapiter_perm rt Listener [] m) as Hp. split.
  - intros H. apply fmap_nil_inv in H. rewrite H in Hp.
    symmetry in Hp. apply Permutation_nil_r in Hp.
    by apply map_to_list_empty_iff.
  - intros ->. rewrite map_to_list_empty in Hp.
    apply Permutation_nil_r in Hp. by rewrite Hp.
Qed.

(** The flag is set exactly when the merged sequence differs. *)
Lemma merge_listeners_updated_iff_changed
    (rt : GoRuntime) (listeners gwListeners : list Listener) :
  ms_updated (merge_listeners rt listeners gwListeners) = true
  <-> ms_update (merge_listeners rt listeners gwListeners) <> gwListeners.
Proof.
  rewrite merge_listeners_updated, merge_listeners_update.
  rewrite orb_true_iff, !bool_decide_eq_true.
  split.
  - intros [Hs|Hr] Heq.
    + apply Hs. apply (f_equal (take (length gwListeners))) in Heq.
      rewrite take_app_length' in Heq by (by rewrite scanned_length).
      by rewrite firstn_all in Heq.
    + apply Hr. apply (appended_nil rt).
      apply (f_equal length) in Heq. rewrite length_app, scanned_length in Heq.
      apply nil_length_inv. lia.
  - intros Hne.
    destruct (decide (remaining (build_lmap listeners) gwListeners = ∅)) as [He|Hr];
      [|by right].
    left. intros Hs. apply Hne. rewrite Hs.
    rewrite (proj2 (appended_nil rt _) He). by rewrite app_nil_r.
Qed.

Lemma first_occurrence (n : string) (ls : list Listener) :
  n ∈ (Listener_Name <$> ls) ->
  exists i g, ls !! i = Some g /\ Listener_Name g = n
              /\ n ∉ (Listener_Name <$> take i ls).
Proof.
  induction ls as [|x ls IH]; simpl; [by intros ?%elem_of_nil|].
  intros Hin.
  destruct (decide (Listener_Name x = n)) as [Hx|Hx].
  - exists 0, x. repeat split; try done. simpl. apply not_elem_of_nil.
  - apply elem_of_cons in Hin as [Hin|Hin]; [congruence|].
    destruct (IH Hin) as (i & g & Hi & Hg & Hnot).
    exists (S i), g. repeat split; try done. simpl.
    intros [?|?]%elem_of_cons; [congruence|done].
Qed.

Lemma merged_lookup_scanned (rt : GoRuntime) (listeners gwListeners : list Listener)
    (i : nat) (g : Listener) :
  gwListeners !! i = Some g ->
  ms_update (merge_listeners rt listeners gwListeners) !! i
  = Some (default g (remaining (build_lmap listeners) (take i gwListeners)
                       !! Listener_Name g)).
Proof.
  intros Hi. rewrite merge_listeners_update.
  rewrite lookup_app_l by (rewrite scanned_length; by apply lookup_lt_Some in Hi).
  by apply scanned_lookup.
Qed.

Lemma merged_lookup_name (rt : GoRuntime) (listeners gwListeners : list Listener)
    (i : nat) (g l : Listener) :
  gwListeners !! i = Some g ->
  ms_update (merge_listeners rt listeners gwListeners) !! i = Some l ->
  Listener_Name l = Listener_Name g /\ (l = g \/ l ∈ listeners).
Proof.
  intros Hi. rewrite (merged_lookup_scanned _ _ _ _ _ Hi). intros [= <-].
  destruct (remaining _ _ !! _) as [d|] eqn:Hd; simpl; [|by auto].
  split.
  - by apply (lmap_named_remaining _ _ (build_lmap_named listeners)) in Hd.
  - right. rewrite remaining_lookup in Hd. destruct (bool_decide _); [done|].
    by apply build_lmap_elem in Hd.
Qed.

Lemma merged_lookup_appended (rt : GoRuntime) (listeners gwListeners : list Listener)
    (i : nat) (l : Listener) :
  length gwListeners <= i ->
  ms_update (merge_listeners rt listeners gwListeners) !! i = Some l ->
  exists k,
    mapiter rt [] (remaining (build_lmap listeners) gwListeners) !! k
    = Some (Listener_Name l, l)
    /\ i = length gwListeners + k
    /\ remaining (build_lmap listeners) gwListeners !! Listener_Name l = Some l.
Proof.
  intros Hi. rewrite merge_listeners_update.
  rewrite lookup_app_r by (by rewrite scanned_length).
  rewrite scanned_length, list_lookup_fmap.
  destruct (mapiter rt [] _ !! (i - length gwListeners)) as [[n x]|] eqn:Hk; [|done].
  simpl. intros [= ->].
  assert (remaining (build_lmap listeners) gwListeners !! n = Some l) as Hl.
  { apply elem_of_map_to_list. rewrite <- (mapiter_perm rt _ []).
    by apply list_elem_of_lookup_2 in Hk. }
  pose proof (lmap_named_remaining _ _ (build_lmap_named listeners) _ _ Hl) as <-.
  exists (i - length gwListeners). split; [done|]. split; [lia|done].
Qed.

Lemma merge_listeners_first (rt : GoRuntime) (listeners gwListeners : list Listener)
    (n : string) (l : Listener) :
  build_lmap listeners !! n = Some l ->
  first_of_name (ms_update (merge_listeners rt listeners gwListeners)) l.
Proof.
  intros Hl.
  pose proof (build_lmap_named listeners _ _ Hl) as Hn.
  destruct (decide (n ∈ (Listener_Name <$> gwListeners))) as [Hin|Hnin].
  - destruct (first_occurrence _ _ Hin) as (i & g & Hi & Hg & Hfirst).
    exists i. split.
    + rewrite (merged_lookup_scanned _ _ _ _ _ Hi), remaining_lookup, Hg.
      rewrite bool_decide_eq_false_2 by done. by rewrite Hl.
    + intros j l' Hj Hl'.
      destruct (lookup_lt_is_Some_2 gwListeners j) as [g' Hg'];
        [apply lookup_lt_Some in Hi; lia|].
      destruct (merged_lookup_name _ _ _ _ _ _ Hg' Hl') as [-> _].
      rewrite Hn. intros Heq. apply Hfirst. rewrite <- Heq.
      apply list_elem_of_fmap. exists g'. split; [done|].
      apply list_elem_of_lookup. exists j. by rewrite lookup_take_lt.
  - assert (remaining (build_lmap listeners) gwListeners !! n = Some l) as Hrem.
    { rewrite remaining_lookup. by rewrite bool_decide_eq_false_2. }
    assert ((n, l) ∈ mapiter rt [] (remaining (build_lmap listeners) gwListeners))
      as Hel.
    { rewrite (mapiter_perm rt _ []). by apply elem_of_map_to_list. }
    apply list_elem_of_lookup in Hel as [k Hk].
    exists (length gwListeners + k). split.
    + rewrite merge_listeners_update.
      rewrite lookup_app_r by (rewrite scanned_length; lia).
      rewrite scanned_length, list_lookup_fmap.
      replace (length gwListeners + k - length gwListeners) with k by lia.
      by rewrite Hk.
    + intros j l' Hj Hl'. rewrite Hn.
      destruct (decide (j < length gwListeners)) as [Hlt|Hge].
      * destruct (lookup_lt_is_Some_2 gwListeners j Hlt) as [g' Hg'].
        destruct (merged_lookup_name _ _ _ _ _ _ Hg' Hl') as [-> _].
        intros Heq. apply Hnin. rewrite <- Heq.
        apply list_elem_of_fmap. exists g'. split; [done|].
        by apply list_elem_of_lookup_2 in Hg'.
      * assert (length gwListeners <= j) as Hge' by lia.
        destruct (merged_lookup_appended _ _ _ _ _ Hge' Hl')
          as (k' & Hk' & Hjk & _).
        intros Heq. rewrite Heq in Hk'.
        assert (NoDup (mapiter rt [] (remaining (build_lmap listeners) gwListeners)).*1)
          as Hnd.
        { rewrite (mapiter_perm rt _ []). apply NoDup_fst_map_to_list. }
        assert (k' = k); [|lia].
        apply (NoDup_lookup _ _ _ n Hnd); rewrite list_lookup_fmap.
        -- by rewrite Hk'.
        -- by rewrite Hk.
Qed.

(** X20.  After the merge of reconcileGatewayListeners every listener of the
    lookup built from the desired listeners (for each name the last desired
    listener of that name) is in the merged sequence, as the first entry of
    its name.  When the desired listeners have pairwise distinct names this
    holds of every desired listener. *)
Theorem merge_listeners_installs
    (rt : GoRuntime) (listeners gwListeners : list Listener) :
  let merged := ms_update (merge_listeners rt listeners gwListeners) in
  (forall n l, build_lmap listeners !! n = Some l -> first_of_name merged l)
  /\ (NoDup (Listener_Name <$> listeners) ->
      forall l, l ∈ listeners -> first_of_name merged l).
Proof.
  intros merged. split.
  - intros n l. apply merge_listeners_first.
  - intros Hnd l Hl. apply (merge_listeners_first _ _ _ (Listener_Name l)).
    by apply build_lmap_NoDup.
Qed.

(** X21.  The merge of reconcileGatewayListeners removes and renames nothing.
    The merged sequence is at least as long as the gateway's; every index of
    the gateway holds an entry of the name it held, the gateway's own or a
    desired listener; and every entry beyond is a desired listener whose name
    the gateway did not have. *)
Theorem merge_listeners_keeps_entries
    (rt : GoRuntime) (listeners gwListeners : list Listener) :
  let merged := ms_update (merge_listeners rt listeners gwListeners) in
  length gwListeners <= length merged
  /\ Listener_Name <$> take (length gwListeners) merged = Listener_Name <$> gwListeners
  /\ (forall i g, gwListeners !! i = Some g ->
        exists l, merged !! i = Some l
                  /\ Listener_Name l = Listener_Name g
                  /\ (l = g \/ l ∈ listeners))
  /\ (forall i l, length gwListeners <= i -> merged !! i = Some l ->
        l ∈ listeners /\ Listener_Name l ∉ (Listener_Name <$> gwListeners)).
Proof.
  intros merged. subst merged. split; [|split; [|split]].
  - rewrite merge_listeners_update, length_app, scanned_length. lia.
  - rewrite merge_listeners_update.
    rewrite take_app_length' by (by rewrite scanned_length).
    apply scanned_names, build_lmap_named.
  - intros i g Hi. rewrite (merged_lookup_scanned _ _ _ _ _ Hi).
    eexists. split; [done|].
    apply (merged_lookup_name rt listeners gwListeners i g); [done|].
    by apply merged_lookup_scanned.
  - intros i l Hi Hl.
    destruct (merged_lookup_appended _ _ _ _ _ Hi Hl) as (k & _ & _ & Hrem).
    rewrite remaining_lookup in Hrem.
    destruct (bool_decide _) eqn:Hin; [done|].
    apply bool_decide_eq_false in Hin. split; [|done].
    by apply build_lmap_elem in Hrem.
Qed.

(** Merging the same listeners into the merged sequence changes nothing. *)
Lemma merge_listeners_fixpoint
    (rt1 rt2 : GoRuntime) (listeners gwListeners : list Listener) :
  let merged := ms_update (merge_listeners rt1 listeners gwListeners) in
  ms_update (merge_listeners rt2 listeners merged) = merged
  /\ ms_updated (merge_listeners rt2 listeners merged) = false.
Proof.
  intros merged.
  assert (ms_update (merge_listeners rt2 listeners merged) = merged) as Hsame.
  { rewrite merge_listeners_update.
    assert (remaining (build_lmap listeners) merged = ∅) as ->.
    { apply map_eq. intros n. rewrite remaining_lookup, lookup_empty.
      destruct (bool_decide _) eqn:Hin; [done|].
      apply bool_decide_eq_false in Hin.
      destruct (build_lmap listeners !! n) as [l|] eqn:Hl; [|done].
      exfalso. apply Hin.
      destruct (merge_listeners_first rt1 listeners gwListeners n l Hl)
        as (i & Hi & _).
      apply list_elem_of_fmap. exists l.
      split; [by rewrite (build_lmap_named listeners _ _ Hl)|].
      by apply list_elem_of_lookup_2 in Hi. }
    rewrite (proj2 (appended_nil rt2 ∅) eq_refl), app_nil_r.
    apply list_eq. intros i.
    destruct (merged !! i) as [x|] eqn:Hx.
    - rewrite (scanned_lookup _ _ _ _ Hx), remaining_lookup. f_equal.
      destruct (bool_decide _) eqn:Hin; [done|].
      apply bool_decide_eq_false in Hin.
      destruct (build_lmap listeners !! Listener_Name x) as [d|] eqn:Hd; [|done].
      simpl.
      pose proof (build_lmap_named listeners _ _ Hd) as Hdn.
      destruct (merge_listeners_first rt1 listeners gwListeners _ d Hd)
        as (i0 & Hi0 & Hfirst).
      fold merged in Hi0, Hfirst.
      destruct (lt_eq_lt_dec i0 i) as [[Hlt|Heq]|Hgt].
      + exfalso. apply Hin. rewrite <- Hdn.
        apply list_elem_of_fmap. exists d. split; [done|].
        apply list_elem_of_lookup. exists i0. by rewrite lookup_take_lt.
      + subst i0. congruence.
      + exfalso. by apply (Hfirst i x Hgt Hx).
    - apply lookup_ge_None. rewrite scanned_length. by apply lookup_ge_None. }
  split; [done|].
  destruct (ms_updated (merge_listeners rt2 listeners merged)) eqn:Hupd; [|done].
  by apply merge_listeners_updated_iff_changed in Hupd.
Qed.

(** The flag of the merge does not depend on the runtime. *)
Lemma merge_listeners_updated_rt (rt1 rt2 : GoRuntime) (listeners gwListeners : list Listener) :
  ms_updated (merge_listeners rt1 listeners gwListeners)
  = ms_updated (merge_listeners rt2 listeners gwListeners).
Proof. by rewrite !merge_listeners_updated. Qed.

Lemma merge_no_listeners (rt : GoRuntime) (gwListeners : list Listener) :
  ms_update (merge_listeners rt [] gwListeners) = gwListeners
  /\ ms_updated (merge_listeners rt [] gwListeners) = false.
Proof.
  assert (ms_update (merge_listeners rt [] gwListeners) = gwListeners) as Hsame.
  { rewrite merge_listeners_update.
    destruct (scanned_foreign (build_lmap []) gwListeners) as [-> ->]; [done|].
    rewrite (proj2 (appended_nil rt _)) by done. by rewrite app_nil_r. }
  split; [done|].
  destruct (ms_updated _) eqn:Hupd; [|done].
  by apply merge_listeners_updated_iff_changed in Hupd.
Qed.

Lemma gatewayLister_Get_cases (ns name : string) (w : Cluster) :
  gatewayLister_Get ns name w
  = (match reactor w (Lister_Gateways_Get ns name) with
     | Some err => inr err
     | None => match gateways w !! (ns, name) with
               | Some gw => inl gw
               | None => inr (NewNotFound "gateway" name)
               end
     end, log (Lister_Gateways_Get ns name) w).
Proof.
  unfold gatewayLister_Get. destruct (reactor w _); [done|].
  by destruct (gateways w !! _).
Qed.

Lemma gwapiclient_Gateways_Update_inl (ns : string) (obj r : Gateway) (w w2 : Cluster) :
  gwapiclient_Gateways_Update ns obj w = (inl r, w2) ->
  r = obj
  /\ calls w2 = calls w ++ [Gateways_Update ns obj]
  /\ reactor w2 = reactor w
  /\ gateways w2 = <[(ns, ObjectMeta_Name (Gateway_ObjectMeta obj)) := obj]> (gateways w)
  /\ is_Some (gateways w !! (ns, ObjectMeta_Name (Gateway_ObjectMeta obj))).
Proof.
  unfold gwapiclient_Gateways_Update.
  destruct (reactor w _); [intros [=]|].
  destruct (gateways w !! _) eqn:H; intros [=]; subst. simpl. repeat split; eauto.
Qed.

Lemma gwapiclient_Gateways_Update_inr (ns : string) (obj : Gateway) (err : error)
    (w w2 : Cluster) :
  gwapiclient_Gateways_Update ns obj w = (inr err, w2) ->
  w2 = log (Gateways_Update ns obj) w.
Proof.
  unfold gwapiclient_Gateways_Update.
  destruct (reactor w _); [by intros [= <- <-]|].
  destruct (gateways w !! _) eqn:H; intros [=]; by subst.
Qed.

Lemma gwapiclient_Gateways_Update_accepted (ns : string) (obj g : Gateway) (w : Cluster) :
  reactor w (Gateways_Update ns obj) = None ->
  gateways w !! (ns, ObjectMeta_Name (Gateway_ObjectMeta obj)) = Some g ->
  gwapiclient_Gateways_Update ns obj w
  = (inl obj,
     log (Gateways_Update ns obj)
       {| httproutes := httproutes w;
          referencegrants := referencegrants w;
          gateways := <[(ns, ObjectMeta_Name (Gateway_ObjectMeta obj)) := obj]> (gateways w);
          reactor := reactor w;
          calls := calls w |}).
Proof. intros Hr Hg. unfold gwapiclient_Gateways_Update. by rewrite Hr, Hg. Qed.

Lemma Gateways_Update_log (ns : string) (obj : Gateway) (a : Call) (w : Cluster) :
  (gwapiclient_Gateways_Update ns obj (log a w)).1
  = (gwapiclient_Gateways_Update ns obj w).1.
Proof.
  unfold gwapiclient_Gateways_Update. simpl.
  destruct (reactor w _); [done|]. by destruct (gateways w !! _).
Qed.

(** reconcileGatewayListeners, by what the lister and the update come back
    with. *)
Lemma reconcileGatewayListeners_run (rt : GoRuntime) (listeners : list Listener)
    (ing : Ingress) (gwName : NamespacedName) (w : Cluster) :
  let ns := NamespacedName_Namespace gwName in
  let name := NamespacedName_Name gwName in
  let w1 := log (Lister_Gateways_Get ns name) w in
  reconcileGatewayListeners rt listeners ing gwName w
  = match (gatewayLister_Get ns name w).1 with
    | inr err =>
        if IsNotFound err then
          (Some (gatewayMissingError gwName err),
           log (Recorder_Eventf "Warning" "GatewayMissing" "Unable to update Gateway %s"
                  [ArgS (NamespacedName_String gwName)]) w1)
        else (Some err, w1)
    | inl gw =>
        let st := merge_listeners rt listeners (GatewaySpec_Listeners (Gateway_Spec gw)) in
        let update := Gateway_with_Listeners gw (ms_update st) in
        if ms_updated st then
          match gwapiclient_Gateways_Update
                  (ObjectMeta_Namespace (Gateway_ObjectMeta gw)) update w1 with
          | (inr err, w2) =>
              (Some (ErrorfW "failed to update Gateway %s/%s: %w"
                       [ObjectMeta_Namespace (Gateway_ObjectMeta gw);
                        ObjectMeta_Name (Gateway_ObjectMeta gw)] err),
               log (Recorder_Eventf "Warning" "GatewayUpdateFailed"
                      "Failed to update Gateway %s: %v"
                      [ArgS (NamespacedName_String gwName); ArgE err]) w2)
          | (inl _, w2) => (None, w2)
          end
        else (None, w1)
    end.
Proof.
  intros ns name w1.
  unfold reconcileGatewayListeners, mbind, M_bind, mret, M_ret.
  fold ns name. rewrite (gatewayLister_Get_cases ns name w). fold w1. simpl.
  destruct (match reactor w _ with Some err => _ | None => _ end) as [gw|err].
  - destruct (ms_updated _); [|done].
    by destruct (gwapiclient_Gateways_Update _ _ w1) as [[?|?] ?].
  - by destruct (IsNotFound err).
Qed.

(** X22.  On a gateway the lister finds, reconcileGatewayListeners issues the
    update exactly when the merged sequence differs from the gateway's
    listeners: the flag of the merge is set in that case only; when the
    sequence is the same the call returns nil after the read alone. *)
Theorem reconcileGatewayListeners_writes_iff_changed
    (rt : GoRuntime) (listeners : list Listener) (ing : Ingress)
    (gwName : NamespacedName) (w w1 : Cluster) (gw : Gateway) :
  gatewayLister_Get (NamespacedName_Namespace gwName) (NamespacedName_Name gwName) w
  = (inl gw, w1) ->
  let gwListeners := GatewaySpec_Listeners (Gateway_Spec gw) in
  let st := merge_listeners rt listeners gwListeners in
  let r := reconcileGatewayListeners rt listeners ing gwName w in
  (ms_updated st = true <-> ms_update st <> gwListeners)
  /\ (ms_update st = gwListeners ->
      r = (None, w1) /\ forall c, c ∈ new_calls w r.2 -> is_write c = false)
  /\ (ms_update st <> gwListeners ->
      Gateways_Update (ObjectMeta_Namespace (Gateway_ObjectMeta gw))
        (Gateway_with_Listeners gw (ms_update st)) ∈ new_calls w r.2).
Proof.
  intros Hget gwListeners st r.
  pose proof (merge_listeners_updated_iff_changed rt listeners gwListeners) as Hiff.
  fold st in Hiff. split; [done|].
  destruct (reconcileGatewayListeners_calls rt listeners ing gwName w w1 gw Hget)
    as (Hwrites & Hissued & _).
  fold gwListeners st in Hwrites, Hissued. split.
  - intros Hsame.
    assert (ms_updated st = false) as Hupd.
    { destruct (ms_updated st); [|done]. exfalso. by apply Hiff. }
    split.
    + subst r. rewrite (reconcileGatewayListeners_found rt _ _ _ _ _ _ Hget).
      fold gwListeners st. by rewrite Hupd.
    + intros c Hc. destruct (is_write c) eqn:Hw; [|done].
      destruct (Hwrites c Hc Hw) as [Htrue _]. congruence.
  - intros Hne. apply Hissued. by apply Hiff.
Qed.

(** X23.  reconcileGatewayListeners is idempotent on a store that holds every
    gateway under its own name: after a call that returned nil, a second call
    with the same listeners, under any runtime, returns nil having only read
    the gateway.  Merging the listeners into the merged sequence changes
    nothing and leaves the flag unset. *)
Theorem reconcileGatewayListeners_idempotent
    (rt1 rt2 : GoRuntime) (listeners : list Listener) (ing : Ingress)
    (gwName : NamespacedName) (w w1 : Cluster) :
  gateways_wf w ->
  reconcileGatewayListeners rt1 listeners ing gwName w = (None, w1) ->
  reconcileGatewayListeners rt2 listeners ing gwName w1
  = (None, log (Lister_Gateways_Get (NamespacedName_Namespace gwName)
                  (NamespacedName_Name gwName)) w1)
  /\ (forall gwListeners,
        let merged := ms_update (merge_listeners rt1 listeners gwListeners) in
        ms_update (merge_listeners rt2 listeners merged) = merged
        /\ ms_updated (merge_listeners rt2 listeners merged) = false).
Proof.
  intros Hwf Hrun. split; [|intros G; apply merge_listeners_fixpoint].
  rewrite reconcileGatewayListeners_run in Hrun.
  rewrite reconcileGatewayListeners_run.
  set (ns := NamespacedName_Namespace gwName) in *.
  set (name := NamespacedName_Name gwName) in *.
  rewrite gatewayLister_Get_cases in Hrun. simpl in Hrun.
  destruct (reactor w (Lister_Gateways_Get ns name)) as [err|] eqn:Hreact.
  { by destruct (IsNotFound err). }
  destruct (gateways w !! (ns, name)) as [gw|] eqn:Hgw; [|done].
  destruct (Hwf _ _ _ Hgw) as [Hns Hname].
  set (G := GatewaySpec_Listeners (Gateway_Spec gw)) in *.
  destruct (ms_updated (merge_listeners rt1 listeners G)) eqn:Hupd.
  - destruct (gwapiclient_Gateways_Update _ _ _) as [[r|err] w2] eqn:Hu; [|done].
    injection Hrun as <-.
    apply gwapiclient_Gateways_Update_inl in Hu as (_ & _ & Hreact2 & Hstore & _).
    simpl in Hreact2, Hstore. rewrite Hns, Hname in Hstore.
    rewrite gatewayLister_Get_cases. simpl.
    rewrite Hreact2, Hreact, Hstore, lookup_insert_eq. simpl.
    destruct (merge_listeners_fixpoint rt1 rt2 listeners G) as [_ ->]. done.
  - injection Hrun as <-.
    rewrite gatewayLister_Get_cases. simpl. rewrite Hreact, Hgw. fold G.
    by rewrite (merge_listeners_updated_rt rt2 rt1), Hupd.
Qed.

(** X24.  With no desired listener, which is what a TLS block without hosts
    derives, reconcileGatewayListeners writes nothing on any cluster and
    leaves the store's gateways as they are; on a gateway the lister finds it
    returns nil after the read alone. *)
Theorem reconcileGatewayListeners_no_listeners
    (rt : GoRuntime) (ing : Ingress) (gwName : NamespacedName) (w : Cluster) :
  let r := reconcileGatewayListeners rt [] ing gwName w in
  (forall c, c ∈ new_calls w r.2 -> is_write c = false)
  /\ gateways r.2 = gateways w
  /\ (forall gw,
        (gatewayLister_Get (NamespacedName_Namespace gwName)
           (NamespacedName_Name gwName) w).1 = inl gw ->
        r = (None, log (Lister_Gateways_Get (NamespacedName_Namespace gwName)
                          (NamespacedName_Name gwName)) w))
  /\ (forall tls, IngressTLS_Hosts tls = [] -> tls_listeners tls ing = []).
Proof.
  intros r. subst r. rewrite reconcileGatewayListeners_run. cbv zeta.
  destruct ((gatewayLister_Get _ _ w).1) as [gw|err] eqn:Hget.
  - destruct (merge_no_listeners rt (GatewaySpec_Listeners (Gateway_Spec gw)))
      as [_ ->]. simpl.
    rewrite new_calls_log1. split; [|split; [done|split]].
    + intros c ->%list_elem_of_singleton. done.
    + by intros gw' [= <-].
    + intros tls Hh. unfold tls_listeners. by rewrite Hh.
  - split; [|split; [|split]].
    + destruct (IsNotFound err); simpl.
      * rewrite new_calls_log2. intros c Hc.
        apply elem_of_cons in Hc as [->|Hc]; [done|].
        by apply list_elem_of_singleton in Hc as ->.
      * rewrite new_calls_log1. by intros c ->%list_elem_of_singleton.
    + by destruct (IsNotFound err).
    + intros gw [=].
    + intros tls Hh. unfold tls_listeners. by rewrite Hh.
Qed.

(** X25.  When the lister fails, reconcileGatewayListeners leaves the store's
    gateways as they are.  For a gateway that is not found it records a
    Warning "GatewayMissing" event and returns an error that wraps the
    lister's, so apierrs.IsNotFound still holds of it; any other error of the
    lister is returned as it is, with no event. *)
Theorem reconcileGatewayListeners_lister_error
    (rt : GoRuntime) (listeners : list Listener) (ing : Ingress)
    (gwName : NamespacedName) (w : Cluster) (err : error) :
  let ns := NamespacedName_Namespace gwName in
  let name := NamespacedName_Name gwName in
  (gatewayLister_Get ns name w).1 = inr err ->
  let r := reconcileGatewayListeners rt listeners ing gwName w in
  (IsNotFound err = true ->
   r.1 = Some (gatewayMissingError gwName err)
   /\ IsNotFound (gatewayMissingError gwName err) = true
   /\ new_calls w r.2
      = [Lister_Gateways_Get ns name;
         Recorder_Eventf "Warning" "GatewayMissing" "Unable to update Gateway %s"
           [ArgS (NamespacedName_String gwName)]])
  /\ (IsNotFound err = false ->
      r.1 = Some err /\ new_calls w r.2 = [Lister_Gateways_Get ns name])
  /\ gateways r.2 = gateways w.
Proof.
  intros ns name Hget r. subst r.
  rewrite reconcileGatewayListeners_run. fold ns name. rewrite Hget.
  destruct (IsNotFound err) eqn:Hnf; simpl.
  - split; [|split; [by intros [=]|done]].
    intros _. split; [done|]. split; [done|]. apply new_calls_log2.
  - split; [by intros [=]|]. split; [|done].
    intros _. split; [done|]. apply new_calls_log1.
Qed.

(** X26.  Whenever reconcileGatewayListeners returns an error, the error is
    the one a call of the run came back with or wraps it, the store's
    gateways are as they were, and the run ends with a Warning event unless
    it consists of the read alone. *)
Theorem reconcileGatewayListeners_error
    (rt : GoRuntime) (listeners : list Listener) (ing : Ingress)
    (gwName : NamespacedName) (w : Cluster) (e : error) :
  let r := reconcileGatewayListeners rt listeners ing gwName w in
  r.1 = Some e ->
  store_error w r.2 e
  /\ gateways r.2 = gateways w
  /\ ((exists reason messageFmt args,
         last (calls r.2) = Some (Recorder_Eventf "Warning" reason messageFmt args))
      \/ new_calls w r.2
         = [Lister_Gateways_Get (NamespacedName_Namespace gwName)
              (NamespacedName_Name gwName)]).
Proof.
  intros r. subst r. rewrite reconcileGatewayListeners_run. cbv zeta.
  set (ns := NamespacedName_Namespace gwName).
  set (name := NamespacedName_Name gwName).
  destruct ((gatewayLister_Get ns name w).1) as [gw|err] eqn:Hget.
  - destruct (ms_updated _); [|done].
    destruct (gwapiclient_Gateways_Update _ _ _) as [[r|err] w2] eqn:Hu; [done|].
    simpl. intros [= <-].
    pose proof (gwapiclient_Gateways_Update_inr _ _ _ _ _ Hu) as ->.
    split; [|split; [done|]].
    + match type of Hu with
      | gwapiclient_Gateways_Update ?n ?o _ = _ => exists (Gateways_Update n o), err
      end.
      split; [|split].
      * rewrite new_calls_log3. set_solver.
      * unfold call_error, err_of.
        rewrite <- (Gateways_Update_log _ _ (Lister_Gateways_Get ns name)).
        by rewrite Hu.
      * right. by eexists _, _.
    + left. eexists _, _, _. simpl. by rewrite last_snoc.
  - destruct (IsNotFound err) eqn:Hnf; simpl; intros [= <-].
    + split; [|split; [done|]].
      * exists (Lister_Gateways_Get ns name), err. split; [|split].
        -- rewrite new_calls_log2. set_solver.
        -- unfold call_error, err_of. by rewrite Hget.
        -- right. by eexists _, _.
      * left. eexists _, _, _. simpl. by rewrite last_snoc.
    + split; [|split; [done|]].
      * exists (Lister_Gateways_Get ns name), err. split; [|split].
        -- rewrite new_calls_log1. set_solver.
        -- unfold call_error, err_of. by rewrite Hget.
        -- by left.
      * right. apply new_calls_log1.
Qed.

(* ===================================================================== *)
(** ** Further properties of clearGatewayListeners *)
(* ===================================================================== *)

Lemma clearGatewayListeners_run (ing : Ingress) (gwName : NamespacedName) (w : Cluster) :
  let ns := NamespacedName_Namespace gwName in
  let name := NamespacedName_Name gwName in
  let w1 := log (Lister_Gateways_Get ns name) w in
  clearGatewayListeners ing gwName w
  = match (gatewayLister_Get ns name w).1 with
    | inr err => if IsNotFound err then (Returns None, w1) else (Returns (Some err), w1)
    | inl gw =>
        let gwListeners := GatewaySpec_Listeners (Gateway_Spec gw) in
        match clear_loop (listenerPrefix +:+ Ingress_GetUID ing)
                (length gwListeners) gwListeners with
        | None => (Panics, w1)
        | Some ls =>
            if negb (Nat.eqb (length ls) (length gwListeners)) then
              match gwapiclient_Gateways_Update
                      (ObjectMeta_Namespace (Gateway_ObjectMeta gw))
                      (Gateway_with_Listeners gw ls) w1 with
              | (inr err, w2) =>
                  (Returns (Some (ErrorfW "failed to update Gateway %s/%s: %w"
                                    [ObjectMeta_Namespace (Gateway_ObjectMeta gw);
                                     ObjectMeta_Name (Gateway_ObjectMeta gw)] err)),
                   log (Recorder_Eventf "Warning" "GatewayUpdateFailed"
                          "Failed to remove Listener from Gateway %s: %v"
                          [ArgS (NamespacedName_String gwName); ArgE err]) w2)
              | (inl _, w2) => (Returns None, w2)
              end
            else (Returns None, w1)
        end
    end.
Proof.
  intros ns name w1.
  unfold clearGatewayListeners, mbind, M_bind, mret, M_ret.
  fold ns name. rewrite (gatewayLister_Get_cases ns name w). fold w1. simpl.
  destruct (match reactor w _ with Some err => _ | None => _ end) as [gw|err].
  - destruct (clear_loop _ _ _) as [ls|]; [|done].
    destruct (negb _); [|done].
    by destruct (gwapiclient_Gateways_Update _ _ w1) as [[?|?] ?].
  - by destruct (IsNotFound err).
Qed.

(** Entries of the name at the end of the slice are cut off one by one: the
    entries before them keep their places. *)
Lemma clear_loop_suffix (listenerName : string) (ls suffix : list Listener) :
  Forall (fun l => Listener_Name l <> listenerName) ls ->
  Forall (fun l => Listener_Name l = listenerName) suffix ->
  clear_loop listenerName (length (ls ++ suffix)) (ls ++ suffix) = Some ls.
Proof.
  intros Hls. induction suffix as [|x suffix IH] using rev_ind; intros Hsuf.
  - rewrite app_nil_r.
    destruct (clear_loop_total listenerName ls) as (r & Hr & _ & _ & Hsame).
    by rewrite Hr, (Hsame Hls).
  - apply Forall_app in Hsuf as [Hsuf Hx]. rewrite Forall_singleton in Hx.
    rewrite app_assoc, length_app, Nat.add_1_r. simpl.
    unfold clear_body.
    rewrite list_lookup_middle by done.
    rewrite (proj2 (String.eqb_eq _ _) Hx).
    rewrite length_app, Nat.add_1_r. simpl. rewrite Nat.sub_0_r.
    rewrite list_lookup_middle by done.
    rewrite list_insert_id by (by apply list_lookup_middle).
    rewrite take_app_length. by apply IH.
Qed.

(** X27.  When the lister fails, clearGatewayListeners issues no call but the
    read and leaves the store's gateways as they are: a gateway that is not
    found is nothing to clean up and the call returns nil; any other error of
    the lister is returned as it is. *)
Theorem clearGatewayListeners_lister_error
    (ing : Ingress) (gwName : NamespacedName) (w : Cluster) (err : error) :
  let ns := NamespacedName_Namespace gwName in
  let name := NamespacedName_Name gwName in
  (gatewayLister_Get ns name w).1 = inr err ->
  let r := clearGatewayListeners ing gwName w in
  (IsNotFound err = true -> r.1 = Returns None)
  /\ (IsNotFound err = false -> r.1 = Returns (Some err))
  /\ new_calls w r.2 = [Lister_Gateways_Get ns name]
  /\ gateways r.2 = gateways w.
Proof.
  intros ns name Hget r. subst r.
  rewrite clearGatewayListeners_run. fold ns name. rewrite Hget.
  destruct (IsNotFound err) eqn:Hnf; simpl.
  - split; [done|]. split; [by intros [=]|]. split; [apply new_calls_log1|done].
  - split; [by intros [=]|]. split; [done|]. split; [apply new_calls_log1|done].
Qed.

(** X28.  clearGatewayListeners never panics, on any cluster.  The only write
    it issues is an update of the gateway the lister found with strictly
    fewer listeners.  An error it returns is the one a call of the run came
    back with or wraps it, and the store's gateways are then as they
    were. *)
Theorem clearGatewayListeners_never_panics
    (ing : Ingress) (gwName : NamespacedName) (w : Cluster) :
  let r := clearGatewayListeners ing gwName w in
  r.1 <> Panics
  /\ (forall c, c ∈ new_calls w r.2 -> is_write c = true ->
        exists gw ls,
          (gatewayLister_Get (NamespacedName_Namespace gwName)
             (NamespacedName_Name gwName) w).1 = inl gw
          /\ c = Gateways_Update (ObjectMeta_Namespace (Gateway_ObjectMeta gw))
                   (Gateway_with_Listeners gw ls)
          /\ length ls < length (GatewaySpec_Listeners (Gateway_Spec gw)))
  /\ (forall e, r.1 = Returns (Some e) ->
        store_error w r.2 e /\ gateways r.2 = gateways w).
Proof.
  intros r. subst r. rewrite clearGatewayListeners_run. cbv zeta.
  set (ns := NamespacedName_Namespace gwName).
  set (name := NamespacedName_Name gwName).
  set (listenerName := listenerPrefix +:+ Ingress_GetUID ing).
  destruct ((gatewayLister_Get ns name w).1) as [gw|err] eqn:Hget.
  - set (G := GatewaySpec_Listeners (Gateway_Spec gw)).
    destruct (clear_loop_total listenerName G) as (ls & Hloop & Hperm & _ & _).
    rewrite Hloop.
    assert (length ls <= length G) as Hle.
    { rewrite Hperm. unfold others. apply length_filter. }
    destruct (Nat.eqb_spec (length ls) (length G)) as [Hlen|Hlen]; simpl.
    + split; [done|]. split; [|done].
      rewrite new_calls_log1. by intros c ->%list_elem_of_singleton.
    + destruct (gwapiclient_Gateways_Update _ _ _) as [[r|err] w2] eqn:Hu; simpl.
      * split; [done|]. split; [|done].
        apply gwapiclient_Gateways_Update_inl in Hu as (_ & Hcalls & _).
        unfold new_calls. rewrite Hcalls. simpl.
        rewrite <- app_assoc, drop_app_length.
        intros c Hc Hw. apply elem_of_cons in Hc as [->|Hc]; [done|].
        apply list_elem_of_singleton in Hc as ->.
        exists gw, ls. split; [done|]. split; [done|]. fold G. lia.
      * pose proof (gwapiclient_Gateways_Update_inr _ _ _ _ _ Hu) as ->.
        split; [done|]. rewrite new_calls_log3. split.
        -- intros c Hc Hw. apply elem_of_cons in Hc as [->|Hc]; [done|].
           apply elem_of_cons in Hc as [->|Hc];
             [|by apply list_elem_of_singleton in Hc as ->].
           exists gw, ls. split; [done|]. split; [done|]. fold G. lia.
        -- intros e [= <-]. split; [|done].
           exists (Gateways_Update (ObjectMeta_Namespace (Gateway_ObjectMeta gw))
                     (Gateway_with_Listeners gw ls)), err.
           split; [|split].
           ++ rewrite new_calls_log3. set_solver.
           ++ unfold call_error, err_of.
              rewrite <- (Gateways_Update_log _ _ (Lister_Gateways_Get ns name)).
              by rewrite Hu.
           ++ right. by eexists _, _.
  - destruct (IsNotFound err) eqn:Hnf; simpl.
    + split; [done|]. split; [|done].
      rewrite new_calls_log1. by intros c ->%list_elem_of_singleton.
    + split; [done|]. rewrite new_calls_log1. split.
      * by intros c ->%list_elem_of_singleton.
      * intros e [= <-]. split; [|done].
        exists (Lister_Gateways_Get ns name), err. split; [|split].
        -- rewrite new_calls_log1. set_solver.
        -- unfold call_error, err_of. by rewrite Hget.
        -- by left.
Qed.

(** X29.  clearGatewayListeners is idempotent on a store that holds every
    gateway under its own name: after a call that returned nil, a second call
    returns nil having only read the gateway. *)
Theorem clearGatewayListeners_idempotent
    (ing : Ingress) (gwName : NamespacedName) (w w1 : Cluster) :
  gateways_wf w ->
  clearGatewayListeners ing gwName w = (Returns None, w1) ->
  clearGatewayListeners ing gwName w1
  = (Returns None,
     log (Lister_Gateways_Get (NamespacedName_Namespace gwName)
            (NamespacedName_Name gwName)) w1).
Proof.
  intros Hwf Hrun.
  rewrite clearGatewayListeners_run in Hrun. cbv zeta in Hrun.
  rewrite clearGatewayListeners_run. cbv zeta.
  set (ns := NamespacedName_Namespace gwName) in *.
  set (name := NamespacedName_Name gwName) in *.
  set (listenerName := listenerPrefix +:+ Ingress_GetUID ing) in *.
  rewrite gatewayLister_Get_cases in Hrun. simpl in Hrun.
  rewrite gatewayLister_Get_cases. simpl.
  destruct (reactor w (Lister_Gateways_Get ns name)) as [err|] eqn:Hreact.
  { destruct (IsNotFound err) eqn:Hnf; [|done].
    injection Hrun as <-. simpl. by rewrite Hreact, Hnf. }
  destruct (gateways w !! (ns, name)) as [gw|] eqn:Hgw.
  - destruct (Hwf _ _ _ Hgw) as [Hns Hname].
    set (G := GatewaySpec_Listeners (Gateway_Spec gw)) in *.
    destruct (clear_loop_total listenerName G) as (ls & Hloop & _ & Hall & Hsame).
    rewrite Hloop in Hrun.
    destruct (clear_loop_total listenerName ls) as (ls' & Hloop' & _ & _ & Hsame').
    rewrite (Hsame' Hall) in Hloop'.
    destruct (Nat.eqb (length ls) (length G)) eqn:Hlen; simpl in Hrun.
    + injection Hrun as <-. simpl. rewrite Hreact, Hgw. fold G.
      rewrite Hloop, Hlen. done.
    + destruct (gwapiclient_Gateways_Update _ _ _) as [[r|err] w2] eqn:Hu; [|done].
      injection Hrun as <-.
      apply gwapiclient_Gateways_Update_inl in Hu as (_ & _ & Hreact2 & Hstore & _).
      simpl in Hreact2, Hstore. rewrite Hns, Hname in Hstore.
      rewrite Hreact2, Hreact, Hstore, lookup_insert_eq. simpl.
      by rewrite Hloop', Nat.eqb_refl.
  - simpl in Hrun. injection Hrun as <-. simpl. by rewrite Hreact, Hgw.
Qed.

(** X30.  On a store that accepts every call, for a gateway that holds no
    listener of the ingress, installing the listeners of a TLS block with
    reconcileGatewayListeners and then calling clearGatewayListeners restores
    the store's gateways: the first call leaves the gateway's listeners
    followed by the listener of the block's last host (none for a block
    without hosts), the second leaves the gateway as it was, order
    included. *)
Theorem clearGatewayListeners_undoes_reconcile
    (rt : GoRuntime) (tls : IngressTLS) (ing : Ingress)
    (gwName : NamespacedName) (w : Cluster) (gw : Gateway) :
  let key := (NamespacedName_Namespace gwName, NamespacedName_Name gwName) in
  let gwListeners := GatewaySpec_Listeners (Gateway_Spec gw) in
  gateways w !! key = Some gw ->
  (ObjectMeta_Namespace (Gateway_ObjectMeta gw), ObjectMeta_Name (Gateway_ObjectMeta gw))
  = key ->
  (forall c, reactor w c = None) ->
  Forall (fun l => Listener_Name l <> listenerPrefix +:+ Ingress_GetUID ing) gwListeners ->
  let r1 := reconcileGatewayListeners rt (tls_listeners tls ing) ing gwName w in
  let r2 := clearGatewayListeners ing gwName r1.2 in
  r1.1 = None
  /\ gateways r1.2 !! key
     = Some (Gateway_with_Listeners gw
               (gwListeners ++ option_list (last (tls_listeners tls ing))))
  /\ r2.1 = Returns None
  /\ gateways r2.2 = gateways w.
Proof.
  intros key G Hgw Hkey Hreact Hforeign r1 r2.
  injection Hkey as Hns Hname.
  set (ns := NamespacedName_Namespace gwName) in *.
  set (name := NamespacedName_Name gwName) in *.
  set (listenerName := listenerPrefix +:+ Ingress_GetUID ing) in *.
  destruct (merge_tls_listeners rt tls ing G) as [Hmerged _].
  { intros l Hl. rewrite Forall_forall in Hforeign. by apply Hforeign. }
  set (added := option_list (last (tls_listeners tls ing))) in *.
  assert (Forall (fun l => Listener_Name l = listenerName) added) as Hadded.
  { subst added. destruct (last (tls_listeners tls ing)) as [l|] eqn:Hlast; [|done].
    apply Forall_singleton. apply (tls_listeners_name tls ing).
    apply last_Some in Hlast as [l' ->]. apply elem_of_app. right. by left. }
  pose proof (clear_loop_suffix listenerName G added Hforeign Hadded) as Hloop.
  (* the first call *)
  assert (r1 = if bool_decide (added = [])
               then (None, log (Lister_Gateways_Get ns name) w)
               else (None,
                     log (Gateways_Update ns (Gateway_with_Listeners gw (G ++ added)))
                       {| httproutes := httproutes w;
                          referencegrants := referencegrants w;
                          gateways := <[key := Gateway_with_Listeners gw (G ++ added)]>
                                        (gateways w);
                          reactor := reactor w;
                          calls := calls w ++ [Lister_Gateways_Get ns name] |}))
    as Hr1.
  { subst r1. rewrite reconcileGatewayListeners_run. cbv zeta. fold ns name.
    rewrite gatewayLister_Get_cases, Hreact. fold key. rewrite Hgw. simpl.
    fold G. rewrite Hmerged.
    destruct (ms_updated (merge_listeners rt (tls_listeners tls ing) G)) eqn:Hupd.
    - apply merge_listeners_updated_iff_changed in Hupd. rewrite Hmerged in Hupd.
      rewrite bool_decide_eq_false_2
        by (intros He; apply Hupd; rewrite He; apply app_nil_r).
      rewrite (gwapiclient_Gateways_Update_accepted _ _ gw); simpl;
        rewrite ?Hns, ?Hname; done.
    - rewrite bool_decide_eq_true_2; [done|].
      destruct (decide (added = [])) as [|Hne]; [done|]. exfalso.
      assert (ms_updated (merge_listeners rt (tls_listeners tls ing) G) = true);
        [|congruence].
      apply merge_listeners_updated_iff_changed. rewrite Hmerged.
      intros Heq. apply Hne. apply (f_equal length) in Heq.
      rewrite length_app in Heq. apply nil_length_inv. lia. }
  subst r2. rewrite Hr1. clear Hr1 r1.
  rewrite clearGatewayListeners_run. cbv zeta. fold ns name listenerName.
  rewrite gatewayLister_Get_cases.
  destruct (decide (added = [])) as [He|Hne].
  - rewrite bool_decide_eq_true_2 by done. simpl.
    rewrite Hreact. fold key. rewrite Hgw. fold G.
    rewrite He, app_nil_r in Hloop |- *. rewrite Hloop, Nat.eqb_refl. simpl.
    by rewrite Gateway_with_Listeners_same.
  - rewrite bool_decide_eq_false_2 by done. simpl.
    rewrite Hreact. fold key. rewrite lookup_insert_eq. simpl.
    rewrite Hloop.
    assert (Nat.eqb (length G) (length (G ++ added)) = false) as ->.
    { apply Nat.eqb_neq. rewrite length_app. destruct added; [done|]. simpl. lia. }
    simpl.
    rewrite (gwapiclient_Gateways_Update_accepted _ _
               (Gateway_with_Listeners gw (G ++ added))); simpl;
      rewrite ?Hns, ?Hname; [|done|fold key; by rewrite lookup_insert_eq].
    simpl. fold key. split; [done|]. split; [done|]. split; [done|].
    rewrite insert_insert_eq. apply insert_id. rewrite Hgw. f_equal.
    subst G. by destruct gw as [om [cn ls]].
Qed.

(* ===================================================================== *)
(** ** The further properties at work on the concrete cluster *)
(* ===================================================================== *)

(** The routes of the example rule. *)
Lemma MakeHTTPRoute_identity_witness :
  exists route redirect,
    MakeHTTPRoute ex_LongestHost forwardRuntime (ex_ing []) ex_rule ex_ref
    = Returns (inl route)
    /\ MakeRedirectHTTPRoute ex_LongestHost forwardRuntime (ex_ing []) ex_rule ex_ref
       = Returns (inl redirect)
    /\ ObjectMeta_Name (HTTPRoute_ObjectMeta route) = "a.example.com"
    /\ ObjectMeta_Name (HTTPRoute_ObjectMeta redirect) = "a.example.com-redirect"
    /\ ObjectMeta_Namespace (HTTPRoute_ObjectMeta route) = "ns"
    /\ IsControlledBy (HTTPRoute_ObjectMeta route) (Ingress_ObjectMeta (ex_ing []))
       = true.
Proof.
  destruct (MakeHTTPRoute_identity ex_LongestHost forwardRuntime (ex_ing []) ex_rule
              ex_ref ex_ref ex_http eq_refl)
    as (route & redirect & Hroute & Hredirect & Hname & Hrname & _ & Hns & _ & _
        & Hcontrolled & _).
  exists route, redirect.
  split; [exact Hroute|]. split; [exact Hredirect|]. split; [exact Hname|].
  split; [by rewrite Hrname, Hname|]. split; [exact Hns|exact Hcontrolled].
Defined.

(** The rule is of external visibility: the stale visibility label of the
    ingress is overridden by the empty one, the other label is kept. *)
Lemma MakeHTTPRoute_labels_witness :
  exists route,
    MakeHTTPRoute ex_LongestHost forwardRuntime ex_labelled_ing ex_rule ex_ref
    = Returns (inl route)
    /\ Ingress_Labels ex_labelled_ing !! VisibilityLabelKey = Some "cluster-local"
    /\ ObjectMeta_Labels (HTTPRoute_ObjectMeta route) !! VisibilityLabelKey
       = Some EmptyString
    /\ ObjectMeta_Labels (HTTPRoute_ObjectMeta route) !! "app" = Some "demo".
Proof.
  destruct (MakeHTTPRoute_labels ex_LongestHost forwardRuntime ex_labelled_ing ex_rule
              ex_ref ex_ref ex_http eq_refl)
    as (route & redirect & Hroute & _ & _ & _ & Hexternal & Hother).
  exists route. split; [exact Hroute|]. split; [vm_compute; reflexivity|].
  split; [by apply Hexternal|].
  rewrite Hother by done. vm_compute. reflexivity.
Defined.

(** The annotation kubectl leaves on the ingress is not on the route; the
    other one is. *)
Lemma MakeHTTPRoute_annotations_witness :
  exists route,
    MakeHTTPRoute ex_LongestHost forwardRuntime ex_labelled_ing ex_rule ex_ref
    = Returns (inl route)
    /\ Ingress_GetAnnotations ex_labelled_ing !! LastAppliedConfigAnnotation = Some "{}"
    /\ ObjectMeta_Annotations (HTTPRoute_ObjectMeta route) !! LastAppliedConfigAnnotation
       = None
    /\ ObjectMeta_Annotations (HTTPRoute_ObjectMeta route) !! "note" = Some "keep".
Proof.
  destruct (MakeHTTPRoute_annotations ex_LongestHost forwardRuntime ex_labelled_ing
              ex_rule ex_ref ex_ref ex_http eq_refl)
    as (route & redirect & Hroute & _ & _ & Hnone & Hother).
  exists route. split; [exact Hroute|]. split; [vm_compute; reflexivity|].
  split; [exact Hnone|].
  rewrite Hother by done. vm_compute. reflexivity.
Defined.

(** The one path of the example rule has one split: one rule with one
    backend, the split's service at its percentage. *)
Lemma makeHTTPRouteRule_backends_witness :
  exists r b,
    makeHTTPRouteRule forwardRuntime ex_rule = Returns [r]
    /\ HTTPRouteRule_BackendRefs r = [b]
    /\ BackendObjectReference_Name
         (BackendRef_BackendObjectReference (HTTPBackendRef_BackendRef b)) = "svc1"
    /\ BackendObjectReference_Namespace
         (BackendRef_BackendObjectReference (HTTPBackendRef_BackendRef b)) = None
    /\ BackendRef_Weight (HTTPBackendRef_BackendRef b) = Some 100%Z.
Proof.
  destruct (makeHTTPRouteRule_backends forwardRuntime ex_rule ex_http eq_refl)
    as (rules & Hrules & Hall).
  apply Forall2_cons_inv_l in Hall as (r & rules' & Hsplits & Hrest & ->).
  apply Forall2_nil_inv_l in Hrest as ->.
  apply Forall2_cons_inv_l in Hsplits as (b & bs & Hb & Hrest & Hbs).
  apply Forall2_nil_inv_l in Hrest as ->.
  destruct Hb as (Hname & _ & _ & Hns & _ & Hweight).
  exists r, b. split; [exact Hrules|]. split; [exact Hbs|].
  split; [exact Hname|]. split; [exact Hns|].
  apply Hweight. simpl. lia.
Defined.

(** The path of the example rule appends two headers and its split three:
    each list holds them all. *)
Lemma makeHTTPRouteRule_headers_witness :
  exists r b hs hs',
    makeHTTPRouteRule forwardRuntime ex_rule = Returns [r]
    /\ HTTPRouteRule_Filters r = [header_modifier hs]
    /\ headers_map hs = {[ "x" := "1"; "y" := "2" ]}
    /\ length hs = 2
    /\ HTTPRouteRule_BackendRefs r = [b]
    /\ HTTPBackendRef_Filters b = [header_modifier hs']
    /\ headers_map hs' = {[ "a" := "1"; "c" := "3"; "b" := "2" ]}
    /\ length hs' = 3.
Proof.
  destruct (makeHTTPRouteRule_headers forwardRuntime ex_rule ex_http eq_refl)
    as (rules & Hrules & Hall).
  apply Forall2_cons_inv_l in Hall as (r & rules' & [Hfilters Hsplits] & Hrest & ->).
  apply Forall2_nil_inv_l in Hrest as ->.
  simpl in Hfilters. destruct Hfilters as (hs & Hfilter & Hmap & Hlen).
  apply Forall2_cons_inv_l in Hsplits as (b & bs & Hb & Hrest & Hbs).
  apply Forall2_nil_inv_l in Hrest as ->.
  destruct Hb as (hs' & Hfilter' & Hmap' & Hlen').
  exists r, b, hs, hs'. split; [exact Hrules|]. split; [exact Hfilter|].
  split; [exact Hmap|]. split; [exact Hlen|]. split; [exact Hbs|].
  split; [exact Hfilter'|]. split; [exact Hmap'|exact Hlen'].
Defined.

(** The redirect route of the example rule, built under another runtime than
    the workload route. *)
Lemma MakeRedirectHTTPRoute_mirrors_witness :
  exists route redirect r r',
    MakeHTTPRoute ex_LongestHost forwardRuntime (ex_ing []) ex_rule ex_ref
    = Returns (inl route)
    /\ MakeRedirectHTTPRoute ex_LongestHost backwardRuntime (ex_ing []) ex_rule ex_ref
       = Returns (inl redirect)
    /\ HTTPRouteSpec_Hostnames (HTTPRoute_Spec redirect) = ["a.example.com"]
    /\ HTTPRouteSpec_ParentRefs (HTTPRoute_Spec redirect) = [ex_ref]
    /\ HTTPRouteSpec_Rules (HTTPRoute_Spec route) = [r]
    /\ HTTPRouteSpec_Rules (HTTPRoute_Spec redirect) = [r']
    /\ HTTPRouteRule_Matches r' = HTTPRouteRule_Matches r
    /\ HTTPRouteRule_Filters r' = [redirect_filter]
    /\ HTTPRouteRule_BackendRefs r' = [].
Proof.
  destruct (MakeRedirectHTTPRoute_mirrors ex_LongestHost forwardRuntime backwardRuntime
              (ex_ing []) ex_rule ex_ref ex_ref ex_http eq_refl)
    as (route & redirect & Hroute & Hredirect & _ & Hhosts & _ & Hrefs & Hall).
  assert (exists r, HTTPRouteSpec_Rules (HTTPRoute_Spec route) = [r]) as [r Hr].
  { assert (Returns (inl route)
            = MakeHTTPRoute ex_LongestHost forwardRuntime (ex_ing []) ex_rule ex_ref)
      as Heq by (by rewrite Hroute).
    injection Heq as ->. by eexists. }
  rewrite Hr in Hall.
  apply Forall2_cons_inv_l in Hall as (r' & rules' & (Hmatches & Hfilters & Hbackends)
                                       & Hrest & Hr').
  apply Forall2_nil_inv_l in Hrest as ->.
  exists route, redirect, r, r'. split; [exact Hroute|]. split; [exact Hredirect|].
  split; [exact Hhosts|]. split; [exact Hrefs|]. split; [exact Hr|].
  split; [exact Hr'|]. split; [exact Hmatches|]. split; [exact Hfilters|exact Hbackends].
Defined.

(** The stale route is brought to the desired spec. *)
Lemma reconcileHTTPRoute_converges_witness :
  let r := reconcileHTTPRoute (ex_ing []) ex_desired (ex_cluster [ex_stale] [] []) in
  exists route,
    r.1 = inl route
    /\ HTTPRoute_Spec route = HTTPRoute_Spec ex_desired
    /\ ObjectMeta_Annotations (HTTPRoute_ObjectMeta route)
       = ObjectMeta_Annotations (HTTPRoute_ObjectMeta ex_desired)
    /\ ObjectMeta_Labels (HTTPRoute_ObjectMeta route)
       = ObjectMeta_Labels (HTTPRoute_ObjectMeta ex_desired)
    /\ exists ns name, httproutes r.2 !! (ns, name) = Some route.
Proof.
  eexists. split; [vm_compute; reflexivity|].
  eapply (reconcileHTTPRoute_converges (ex_ing []) ex_desired _
            (ex_cluster [ex_stale] [] [])).
  vm_compute. reflexivity.
Defined.

Lemma reconcileHTTPRoute_creates_witness :
  let w := ex_cluster [] [] [] in
  let r := reconcileHTTPRoute (ex_ing []) ex_desired w in
  r.1 = inl ex_desired
  /\ new_calls w r.2
     = [Lister_HTTPRoutes_Get "ns" "a.example.com";
        HTTPRoutes_Create "ns" ex_desired;
        Recorder_Eventf "Normal" "Created" "Created HTTPRoute %q" [ArgS "a.example.com"]]
  /\ httproutes r.2 = <[("ns", "a.example.com") := ex_desired]> (httproutes w).
Proof.
  split; [vm_compute; reflexivity|].
  destruct (reconcileHTTPRoute_creates (ex_ing []) ex_desired (ex_cluster [] [] [])
              (NewNotFound "httproute" "a.example.com")) as [Hok _].
  - vm_compute. reflexivity.
  - reflexivity.
  - destruct (Hok ex_desired) as (_ & Hcalls & Hstore & _).
    + vm_compute. reflexivity.
    + split; [exact Hcalls|exact Hstore].
Defined.

(** The stale route is controlled by another ingress: it is updated all the
    same, and keeps its UID and its owner. *)
Lemma reconcileHTTPRoute_updates_witness :
  let w := ex_cluster [ex_stale] [] [] in
  let r := reconcileHTTPRoute (ex_ing []) ex_desired w in
  let origin := HTTPRoute_origin ex_stale ex_desired in
  r.1 = inl origin
  /\ ObjectMeta_UID (HTTPRoute_ObjectMeta origin) = "route-uid"
  /\ IsControlledBy (HTTPRoute_ObjectMeta origin) (Ingress_ObjectMeta (ex_ing [])) = false
  /\ new_calls w r.2
     = [Lister_HTTPRoutes_Get "ns" "a.example.com"; HTTPRoutes_Update "ns" origin]
  /\ httproutes r.2 !! ("ns", "a.example.com") = Some origin.
Proof.
  split; [vm_compute; reflexivity|]. split; [reflexivity|]. split; [reflexivity|].
  destruct (reconcileHTTPRoute_updates (ex_ing []) ex_desired ex_stale
              (ex_cluster [ex_stale] [] [])) as (_ & Hok & _).
  - vm_compute. reflexivity.
  - intros (Hspec & _). vm_compute in Hspec. discriminate Hspec.
  - destruct (Hok (HTTPRoute_origin ex_stale ex_desired)) as (_ & Hcalls & Hstore).
    + vm_compute. reflexivity.
    + split; [exact Hcalls|]. rewrite Hstore. apply lookup_insert_eq.
Defined.

(** The store refuses the create. *)
Lemma reconcileHTTPRoute_failure_witness :
  let r := reconcileHTTPRoute (ex_ing []) ex_desired ex_refusing_cluster in
  let e := ErrorfW "failed to create HTTPRoute: %w" []
             (StatusError "InternalError" "etcd unavailable") in
  r.1 = inr e
  /\ store_error ex_refusing_cluster r.2 e
  /\ httproutes r.2 = httproutes ex_refusing_cluster.
Proof.
  split; [vm_compute; reflexivity|].
  destruct (reconcileHTTPRoute_failure (ex_ing []) ex_desired ex_refusing_cluster
              (ErrorfW "failed to create HTTPRoute: %w" []
                 (StatusError "InternalError" "etcd unavailable")))
    as (Hse & Hstore & _).
  - vm_compute. reflexivity.
  - split; [exact Hse|exact Hstore].
Defined.

Lemma reconcileWorkloadRoute_parent_witness :
  let r := reconcileWorkloadRoute ex_LongestHost forwardRuntime ex_ctx
             ex_redirected_ing ex_rule (ex_cluster [] [] [ex_foreign]) in
  exists route ref,
    r.1 = Returns (inl route)
    /\ HTTPRouteSpec_ParentRefs (HTTPRoute_Spec route) = [ref]
    /\ ParentReference_Name ref = "gw"
    /\ ParentReference_SectionName ref = Some "kni-uid-1"
    /\ Forall (fun l => ParentReference_SectionName ref = Some (Listener_Name l))
         (tls_listeners (ex_tls ["a.example.com"]) ex_redirected_ing).
Proof.
  destruct (reconcileWorkloadRoute_parent ex_LongestHost forwardRuntime ex_ctx
              ex_redirected_ing ex_rule (ex_cluster [] [] [ex_foreign])
              (reconcileWorkloadRoute ex_LongestHost forwardRuntime ex_ctx
                 ex_redirected_ing ex_rule (ex_cluster [] [] [ex_foreign])).2
              match (reconcileWorkloadRoute ex_LongestHost forwardRuntime ex_ctx
                       ex_redirected_ing ex_rule (ex_cluster [] [] [ex_foreign])).1 with
              | Returns (inl route) => route
              | _ => ex_desired
              end)
    as (ref & Hrefs & _ & _ & _ & Hname & Hsection & _).
  - vm_compute. reflexivity.
  - destruct Hsection as [Hsec Hall]; [by split|].
    eexists _, ref. split; [vm_compute; reflexivity|].
    split; [exact Hrefs|]. split; [exact Hname|]. split; [exact Hsec|].
    apply Forall_forall. intros l Hl. by apply (Hall (ex_tls ["a.example.com"])).
Defined.

Lemma reconcileRedirectHTTPRoute_parent_witness :
  let r := reconcileRedirectHTTPRoute ex_LongestHost forwardRuntime ex_ctx
             (ex_ing [ex_tls ["a.example.com"]]) ex_rule (ex_cluster [] [] [ex_foreign]) in
  exists route ref,
    r.1 = Returns (inl route)
    /\ HTTPRouteSpec_ParentRefs (HTTPRoute_Spec route) = [ref]
    /\ ParentReference_Name ref = "gw"
    /\ ParentReference_SectionName ref = Some "http"
    /\ Forall (fun r => HTTPRouteRule_Filters r = [redirect_filter]
                        /\ HTTPRouteRule_BackendRefs r = [])
         (HTTPRouteSpec_Rules (HTTPRoute_Spec route)).
Proof.
  destruct (reconcileRedirectHTTPRoute_parent ex_LongestHost forwardRuntime ex_ctx
              (ex_ing [ex_tls ["a.example.com"]]) ex_rule (ex_cluster [] [] [ex_foreign])
              (reconcileRedirectHTTPRoute ex_LongestHost forwardRuntime ex_ctx
                 (ex_ing [ex_tls ["a.example.com"]]) ex_rule
                 (ex_cluster [] [] [ex_foreign])).2
              match (reconcileRedirectHTTPRoute ex_LongestHost forwardRuntime ex_ctx
                       (ex_ing [ex_tls ["a.example.com"]]) ex_rule
                       (ex_cluster [] [] [ex_foreign])).1 with
              | Returns (inl route) => route
              | _ => ex_desired
              end)
    as (_ & (ref & Hrefs & _ & _ & _ & Hname & Hsection) & _ & Hrules).
  - vm_compute. reflexivity.
  - eexists _, ref. split; [vm_compute; reflexivity|].
    split; [exact Hrefs|]. split; [exact Hname|]. split; [exact Hsection|exact Hrules].
Defined.

Lemma reconcileTLS_returns_witness :
  let tls := ex_tls ["a.example.com"; "b.example.com"] in
  let ing := ex_ing [tls] in
  let r := reconcileTLS ex_MakeReferenceGrant ex_ctx tls ing
             (ex_cluster [] [] [ex_foreign]) in
  exists ls,
    r.1 = inl ls
    /\ length ls = 2
    /\ Listener_Hostname <$> ls = [Some "a.example.com"; Some "b.example.com"]
    /\ Forall (serves_tls tls ing) ls
    /\ exists ns name rp,
         referencegrants r.2 !! (ns, name) = Some rp
         /\ IsControlledBy (ReferenceGrant_ObjectMeta rp) (Ingress_ObjectMeta ing) = true.
Proof.
  eexists. split; [vm_compute; reflexivity|].
  destruct (reconcileTLS_returns ex_MakeReferenceGrant ex_ctx
              (ex_tls ["a.example.com"; "b.example.com"])
              (ex_ing [ex_tls ["a.example.com"; "b.example.com"]])
              (ex_cluster [] [] [ex_foreign])
              (reconcileTLS ex_MakeReferenceGrant ex_ctx
                 (ex_tls ["a.example.com"; "b.example.com"])
                 (ex_ing [ex_tls ["a.example.com"; "b.example.com"]])
                 (ex_cluster [] [] [ex_foreign])).2
              [ex_listener "a.example.com"; ex_listener "b.example.com"])
    as (Hlen & Hhosts & Hserve & ns & name & rp & Hrp & Hc & _).
  - vm_compute. reflexivity.
  - split; [exact Hlen|]. split; [exact Hhosts|]. split; [exact Hserve|].
    exists ns, name, rp. split; [exact Hrp|exact Hc].
Defined.

(** The first call creates the grant, the second only reads it. *)
Lemma reconcileTLS_idempotent_witness :
  let tls := ex_tls ["a.example.com"] in
  let ing := ex_ing [tls] in
  let w := ex_cluster [] [] [ex_foreign] in
  let r1 := reconcileTLS ex_MakeReferenceGrant ex_ctx tls ing w in
  r1.1 = inl [ex_listener "a.example.com"]
  /\ ReferenceGrants_Create "ns" (reconcileTLS_desired ex_MakeReferenceGrant ex_ctx tls ing)
     ∈ new_calls w r1.2
  /\ reconcileTLS ex_MakeReferenceGrant ex_ctx tls ing r1.2
     = (inl [ex_listener "a.example.com"],
        log (Lister_ReferenceGrants_Get "ns" "tls-secret-grant") r1.2).
Proof.
  split; [vm_compute; reflexivity|].
  split; [apply (bool_decide_unpack _); vm_compute; exact I|].
  apply (reconcileTLS_idempotent ex_MakeReferenceGrant ex_ctx
           (ex_tls ["a.example.com"]) (ex_ing [ex_tls ["a.example.com"]])
           (ex_cluster [] [] [ex_foreign])).
  - intros ns name rg Hrg. simpl in Hrg. by rewrite lookup_empty in Hrg.
  - reflexivity.
  - vm_compute. reflexivity.
Defined.

(** The store refuses the create of the grant. *)
Lemma reconcileTLS_error_witness :
  let tls := ex_tls ["a.example.com"] in
  let ing := ex_ing [tls] in
  let r := reconcileTLS ex_MakeReferenceGrant ex_ctx tls ing ex_refusing_cluster in
  let e := ErrorfW "failed to create ReferenceGrant: %w" []
             (StatusError "InternalError" "etcd unavailable") in
  r.1 = inr e /\ store_error ex_refusing_cluster r.2 e.
Proof.
  split; [vm_compute; reflexivity|].
  destruct (reconcileTLS_error ex_MakeReferenceGrant ex_ctx
              (ex_tls ["a.example.com"]) (ex_ing [ex_tls ["a.example.com"]])
              ex_refusing_cluster
              (ErrorfW "failed to create ReferenceGrant: %w" []
                 (StatusError "InternalError" "etcd unavailable")))
    as [(rp & Hne & _)|Hse].
  - vm_compute. reflexivity.
  - discriminate Hne.
  - exact Hse.
Defined.

(** The gateway already holds the desired listener: only the read.  It
    holds the listener of another host: the update is issued. *)
Lemma reconcileGatewayListeners_writes_iff_changed_witness :
  let w := ex_cluster [] [] [ex_foreign; ex_listener "a.example.com"] in
  reconcileGatewayListeners forwardRuntime [ex_listener "a.example.com"]
    (ex_ing []) ex_gwName w
  = (None, log (Lister_Gateways_Get "istio-system" "gw") w)
  /\ Gateways_Update "istio-system"
       (ex_gateway [ex_foreign; ex_listener "b.example.com"])
     ∈ new_calls w
         (reconcileGatewayListeners forwardRuntime [ex_listener "b.example.com"]
            (ex_ing []) ex_gwName w).2.
Proof.
  split.
  - apply (reconcileGatewayListeners_writes_iff_changed forwardRuntime
             [ex_listener "a.example.com"] (ex_ing []) ex_gwName
             (ex_cluster [] [] [ex_foreign; ex_listener "a.example.com"])
             (log (Lister_Gateways_Get "istio-system" "gw")
                (ex_cluster [] [] [ex_foreign; ex_listener "a.example.com"]))
             (ex_gateway [ex_foreign; ex_listener "a.example.com"])).
    + vm_compute. reflexivity.
    + vm_compute. reflexivity.
  - apply (reconcileGatewayListeners_writes_iff_changed forwardRuntime
             [ex_listener "b.example.com"] (ex_ing []) ex_gwName
             (ex_cluster [] [] [ex_foreign; ex_listener "a.example.com"])
             (log (Lister_Gateways_Get "istio-system" "gw")
                (ex_cluster [] [] [ex_foreign; ex_listener "a.example.com"]))
             (ex_gateway [ex_foreign; ex_listener "a.example.com"])).
    + vm_compute. reflexivity.
    + vm_compute. discriminate.
Defined.

(** The first call appends the listener; the second, under the other
    runtime, only reads. *)
Lemma reconcileGatewayListeners_idempotent_witness :
  let w := ex_cluster [] [] [ex_foreign] in
  let r1 := reconcileGatewayListeners forwardRuntime [ex_listener "a.example.com"]
              (ex_ing []) ex_gwName w in
  r1.1 = None
  /\ gateways r1.2 !! ("istio-system", "gw")
     = Some (ex_gateway [ex_foreign; ex_listener "a.example.com"])
  /\ reconcileGatewayListeners backwardRuntime [ex_listener "a.example.com"]
       (ex_ing []) ex_gwName r1.2
     = (None, log (Lister_Gateways_Get "istio-system" "gw") r1.2).
Proof.
  split; [vm_compute; reflexivity|]. split; [vm_compute; reflexivity|].
  apply (reconcileGatewayListeners_idempotent forwardRuntime backwardRuntime
           [ex_listener "a.example.com"] (ex_ing []) ex_gwName
           (ex_cluster [] [] [ex_foreign])).
  - intros ns name gw Hgw. simpl in Hgw.
    apply lookup_singleton_Some in Hgw as [[= <- <-] <-]. done.
  - vm_compute. reflexivity.
Defined.

(** The store holds no gateway of the name. *)
Lemma reconcileGatewayListeners_lister_error_witness :
  let w := ex_cluster [] [] [ex_foreign] in
  let r := reconcileGatewayListeners forwardRuntime [ex_listener "a.example.com"]
             (ex_ing []) ex_absent w in
  r.1 = Some (gatewayMissingError ex_absent (NewNotFound "gateway" "absent"))
  /\ IsNotFound (gatewayMissingError ex_absent (NewNotFound "gateway" "absent")) = true
  /\ new_calls w r.2
     = [Lister_Gateways_Get "istio-system" "absent";
        Recorder_Eventf "Warning" "GatewayMissing" "Unable to update Gateway %s"
          [ArgS "istio-system/absent"]]
  /\ gateways r.2 = gateways w.
Proof.
  destruct (reconcileGatewayListeners_lister_error forwardRuntime
              [ex_listener "a.example.com"] (ex_ing []) ex_absent
              (ex_cluster [] [] [ex_foreign]) (NewNotFound "gateway" "absent"))
    as (Hmissing & _ & Hstore).
  - vm_compute. reflexivity.
  - destruct (Hmissing eq_refl) as (H1 & H2 & H3).
    split; [exact H1|]. split; [exact H2|]. split; [exact H3|exact Hstore].
Defined.

(** The store refuses the update. *)
Lemma reconcileGatewayListeners_error_witness :
  let r := reconcileGatewayListeners forwardRuntime [ex_listener "a.example.com"]
             (ex_ing []) ex_gwName ex_refusing_cluster in
  let e := ErrorfW "failed to update Gateway %s/%s: %w" ["istio-system"; "gw"]
             (StatusError "InternalError" "etcd unavailable") in
  r.1 = Some e
  /\ store_error ex_refusing_cluster r.2 e
  /\ gateways r.2 = gateways ex_refusing_cluster.
Proof.
  split; [vm_compute; reflexivity|].
  destruct (reconcileGatewayListeners_error forwardRuntime
              [ex_listener "a.example.com"] (ex_ing []) ex_gwName ex_refusing_cluster
              (ErrorfW "failed to update Gateway %s/%s: %w" ["istio-system"; "gw"]
                 (StatusError "InternalError" "etcd unavailable")))
    as (Hse & Hstore & _).
  - vm_compute. reflexivity.
  - split; [exact Hse|exact Hstore].
Defined.

Lemma clearGatewayListeners_lister_error_witness :
  let w := ex_cluster [] [] [ex_foreign] in
  let r := clearGatewayListeners (ex_ing []) ex_absent w in
  r.1 = Returns None
  /\ new_calls w r.2 = [Lister_Gateways_Get "istio-system" "absent"]
  /\ gateways r.2 = gateways w.
Proof.
  destruct (clearGatewayListeners_lister_error (ex_ing []) ex_absent
              (ex_cluster [] [] [ex_foreign]) (NewNotFound "gateway" "absent"))
    as (Hmissing & _ & Hcalls & Hstore).
  - vm_compute. reflexivity.
  - split; [exact (Hmissing eq_refl)|]. split; [exact Hcalls|exact Hstore].
Defined.

Lemma clearGatewayListeners_idempotent_witness :
  let w := ex_cluster [] [] [ex_listener "a.example.com"; ex_foreign; ex_foreign_b] in
  let r1 := clearGatewayListeners (ex_ing []) ex_gwName w in
  r1.1 = Returns None
  /\ gateways r1.2 !! ("istio-system", "gw")
     = Some (ex_gateway [ex_foreign_b; ex_foreign])
  /\ clearGatewayListeners (ex_ing []) ex_gwName r1.2
     = (Returns None, log (Lister_Gateways_Get "istio-system" "gw") r1.2).
Proof.
  split; [vm_compute; reflexivity|]. split; [vm_compute; reflexivity|].
  apply (clearGatewayListeners_idempotent (ex_ing []) ex_gwName
           (ex_cluster [] [] [ex_listener "a.example.com"; ex_foreign; ex_foreign_b])).
  - intros ns name gw Hgw. simpl in Hgw.
    apply lookup_singleton_Some in Hgw as [[= <- <-] <-]. done.
  - vm_compute. reflexivity.
Defined.

(** Two foreign listeners and a TLS block of two hosts. *)
Lemma clearGatewayListeners_undoes_reconcile_witness :
  let tls := ex_tls ["a.example.com"; "b.example.com"] in
  let ing := ex_ing [tls] in
  let w := ex_cluster [] [] [ex_foreign; ex_foreign_b] in
  let r1 := reconcileGatewayListeners forwardRuntime (tls_listeners tls ing) ing
              ex_gwName w in
  let r2 := clearGatewayListeners ing ex_gwName r1.2 in
  r1.1 = None
  /\ gateways r1.2 !! ("istio-system", "gw")
     = Some (ex_gateway [ex_foreign; ex_foreign_b; ex_listener "b.example.com"])
  /\ r2.1 = Returns None
  /\ gateways r2.2 = gateways w.
Proof.
  apply (clearGatewayListeners_undoes_reconcile forwardRuntime
           (ex_tls ["a.example.com"; "b.example.com"])
           (ex_ing [ex_tls ["a.example.com"; "b.example.com"]]) ex_gwName
           (ex_cluster [] [] [ex_foreign; ex_foreign_b])
           (ex_gateway [ex_foreign; ex_foreign_b])).
  - vm_compute. reflexivity.
  - reflexivity.
  - reflexivity.
  - repeat constructor; discriminate.
Defined.
